(** * waves: a shallow embedding of [waves/membrane.py] and [waves/wavepacket.py]

    Numbers.  The configuration a caller supplies to a membrane (sampling
    frequency, step, size, positions) is modelled by exact rationals [Q], so
    the grid, the region test and the image positions all compute.  Quantities
    the code derives with [np.sqrt] or [np.abs] of a complex number (distance
    fields, wave amplitudes) are modelled by reals [R].  Rounding of IEEE
    floats is not modelled.

    Exceptions.  A method that can raise returns a [result]; a method that
    mutates its object before raising returns the object together with the
    outcome. *)

From Stdlib Require Import List Bool ZArith QArith Qround Qreals Qabs.
From Stdlib Require Import Reals Lqa Lra Lia.
From Stdlib Require Strings.String.
Import ListNotations.
Import String.StringSyntax.
Local Open Scope string_scope.
Local Open Scope list_scope.

Set Implicit Arguments.

(** ** Exceptions and the error monad *)

Inductive exn : Type :=
| TypeError
| ValueError
| IndexError
| ZeroDivisionError.

Inductive result (A : Type) : Type :=
| Ok (v : A)
| Raise (e : exn).

Arguments Ok {A} v.
Arguments Raise {A} e.

Definition bind {A B : Type} (r : result A) (k : A -> result B) : result B :=
  match r with
  | Ok v => k v
  | Raise e => Raise e
  end.

Notation "x <- r ;; k" := (bind r (fun x => k))
  (at level 61, r at next level, right associativity).

Fixpoint mapM {A B : Type} (f : A -> result B) (l : list A) : result (list B) :=
  match l with
  | [] => Ok []
  | x :: l' =>
      y <- f x ;;
      ys <- mapM f l' ;;
      Ok (y :: ys)
  end.

Fixpoint zipM {A B C : Type} (f : A -> B -> result C)
         (l1 : list A) (l2 : list B) : result (list C) :=
  match l1, l2 with
  | x :: l1', y :: l2' =>
      z <- f x y ;;
      zs <- zipM f l1' l2' ;;
      Ok (z :: zs)
  | _, _ => Ok []
  end.

(** ** Python values reaching the validating setters *)

#[warnings="-register-all"]
Inductive pyval : Type :=
| PyNone
| PyBool (b : bool)
| PyInt (n : Z)
| PyFloat (q : Q)
| PyStr (s : String.string)
| PyCallable (f : R -> R)
| PyList (l : list pyval)
| PyTuple (l : list pyval).

(** [callable(v)] *)
Definition callable (v : pyval) : bool :=
  match v with PyCallable _ => true | _ => false end.

(** [isinstance(v, int)]: [bool] is a subclass of [int]. *)
Definition isinstance_int (v : pyval) : bool :=
  match v with PyInt _ | PyBool _ => true | _ => false end.

(** [v == s] for a string literal [s]. *)
Definition py_eq_str (v : pyval) (s : String.string) : bool :=
  match v with PyStr s' => String.eqb s' s | _ => false end.

(** The integer an [int] instance stands for in [range] and arithmetic. *)
Definition int_value (v : pyval) : option Z :=
  match v with
  | PyInt n => Some n
  | PyBool true => Some 1%Z
  | PyBool false => Some 0%Z
  | _ => None
  end.

(** ** Rational comparisons as the code writes them *)

Definition Qltb (x y : Q) : bool := negb (Qle_bool y x).
Definition Qleb (x y : Q) : bool := Qle_bool x y.
Definition Qgtb (x y : Q) : bool := Qltb y x.
Definition Qgeb (x y : Q) : bool := Qleb y x.

Definition pos_eq (p q : Q * Q) : Prop :=
  (fst p == fst q)%Q /\ (snd p == snd q)%Q.

(** ** numpy helpers on real arrays *)

Definition C : Type := (R * R)%type.

Definition Cabs (z : C) : R := sqrt (fst z * fst z + snd z * snd z).
Definition Cplus (z w : C) : C := (fst z + fst w, snd z + snd w)%R.
Definition Cdiv_real (z : C) (m : R) : C := (fst z / m, snd z / m)%R.
Definition Cscale (z : C) (m : R) : C := (fst z * m, snd z * m)%R.
Definition C0 : C := (0, 0)%R.

(** [np.max] and [np.min] of a flattened array; an empty one raises. *)
Definition np_max (l : list R) : result R :=
  match l with
  | [] => Raise ValueError
  | x :: l' => Ok (fold_left Rmax l' x)
  end.

Definition np_min (l : list R) : result R :=
  match l with
  | [] => Raise ValueError
  | x :: l' => Ok (fold_left Rmin l' x)
  end.

(** [v[0]] and [v[-1]] *)
Definition first {A : Type} (l : list A) : result A :=
  match l with
  | [] => Raise IndexError
  | x :: _ => Ok x
  end.

Definition last_elt {A : Type} (l : list A) : result A :=
  first (rev l).

(** In-place [data += other] along one axis: an axis of length 1 of the
    operand is stretched, any other length has to agree with [data]. *)
Definition bcast {A B : Type} (f : A -> B -> result A)
           (data : list A) (other : list B) : result (list A) :=
  match other with
  | [y] => mapM (fun x => f x y) data
  | _ =>
      if Nat.eqb (length data) (length other)
      then zipM f data other
      else Raise ValueError
  end.

Definition field2 := list (list R).
Definition field3 := list (list (list R)).
Definition cfield2 := list (list C).

Definition iadd_c2 (data other : cfield2) : result cfield2 :=
  bcast (bcast (fun z w => Ok (Cplus z w))) data other.

Definition iadd_3 (data other : field3) : result field3 :=
  bcast (bcast (bcast (fun x y => Ok (x + y)%R))) data other.

Definition zeros2 (n m : nat) : cfield2 := repeat (repeat C0 m) n.
Definition zeros3 (n m k : nat) : field3 := repeat (repeat (repeat 0%R k) m) n.

Definition flat3 (a : field3) : list R := concat (concat a).

Definition has_shape2 {A : Type} (a : list (list A)) (n m : nat) : Prop :=
  length a = n /\ Forall (fun row => length row = m) a.

Definition has_shape3 {A : Type} (a : list (list (list A))) (n m k : nat) : Prop :=
  length a = n /\ Forall (fun pl => has_shape2 pl m k) a.

(** The threshold [1e-24] of both normalisation steps. *)
Definition tiny : R := (/ 10 ^ 24)%R.

(** ** Methods that mutate [self]: state with exceptions *)

Definition M (S A : Type) : Type := S -> S * result A.

Definition ret {S A : Type} (v : A) : M S A := fun s => (s, Ok v).

Definition raise {S A : Type} (e : exn) : M S A := fun s => (s, Raise e).

Definition bindM {S A B : Type} (m : M S A) (k : A -> M S B) : M S B :=
  fun s =>
    match m s with
    | (s', Ok v) => k v s'
    | (s', Raise e) => (s', Raise e)
    end.

Definition gets {S A : Type} (f : S -> A) : M S A := fun s => (s, Ok (f s)).

Definition modify {S : Type} (f : S -> S) : M S unit := fun s => (f s, Ok tt).

Definition lift {S A : Type} (r : result A) : M S A := fun s => (s, r).

Notation "x <~ m ;; k" := (bindM m (fun x => k))
  (at level 61, m at next level, right associativity).
Notation "m ;;; k" := (bindM m (fun _ => k))
  (at level 61, right associativity).

Fixpoint foldM {A B : Type} (f : A -> B -> result A) (l : list B) (a : A)
  : result A :=
  match l with
  | [] => Ok a
  | x :: l' =>
      a' <- f a x ;;
      foldM f l' a'
  end.

Fixpoint forM_ {S A : Type} (l : list A) (f : A -> M S unit) : M S unit :=
  match l with
  | [] => ret tt
  | x :: l' => f x ;;; forM_ l' f
  end.

(** ** BaseWave: the pieces of [waves/base.py] the two classes call *)

Module BaseWave.

(** The integers [k0, k0+1, ..., k1]; empty when [k1 < k0]. *)
Definition zrange (k0 k1 : Z) : list Z :=
  map (fun i => (k0 + Z.of_nat i)%Z) (seq 0 (Z.to_nat (k1 - k0 + 1))).

(** Modelled from the spec: [BaseWave._discretize], whose file
    [waves/base.py] is missing.  "given a (min,max) pair and a positive step,
    returns the coordinate sequence from min to max inclusive at multiples of
    step, snapped so the sequence's first/last values become the new
    authoritative bounds", and "the wavepacket's own evaluation interval
    exactly covers the range needed for interpolation (no extrapolation)":
    the multiples [k * step] from the last one at or below [min] to the
    first one at or above [max], so that the sequence contains [min] and
    [max] when they are multiples of the step and covers [[min, max]] in
    every case.  The fourth argument of the call sites, the axis stored so
    far, has no role in that description and is not represented. *)
Definition _discretize (lims : R * R) (step : R) : list R :=
  map (fun k => (IZR k * step)%R)
      (zrange (Zfloor (fst lims / step)) (Zceil (snd lims / step))).

(** Modelled from the spec: the normalisation step of
    [BaseWave._set_list_value] ([waves/base.py] is missing): "normalizes a
    None/scalar/sequence configuration value into an internal ordered
    sequence". *)
Definition as_sequence (values : pyval) : list pyval :=
  match values with
  | PyNone => []
  | PyList l => l
  | PyTuple l => l
  | v => [v]
  end.

(** Modelled from the spec: [BaseWave._set_list_value], whose file
    [waves/base.py] is missing: "applying predicate to each element and
    raising a typed configuration error on failure, invoking onEmpty (which
    may itself raise) when the normalized sequence is empty".  The call
    sites pass the object and the name of the field; [store] is the
    assignment of that field.  Nothing says whether the field is assigned
    before or after the checks: [store_first] selects the order, and what is
    stated of a setter is stated for both. *)
Definition _set_list_value {S : Type} (store : list pyval -> S -> S)
           (store_first : bool) (values : pyval) (predicate : pyval -> bool)
           (err_if_none : unit -> result unit) : M S unit :=
  let l := as_sequence values in
  (if store_first then modify (store l) else ret tt) ;;;
  (if forallb predicate l then
     match l with
     | [] => lift (err_if_none tt)
     | _ => ret tt
     end
   else raise TypeError) ;;;
  (if store_first then ret tt else modify (store l)).

(** Modelled from the spec: [BaseWave._set_tuple_value] as the membrane's
    [domain] setter uses it ([waves/base.py] is missing): each element of the
    pair has to satisfy the predicate, and the field stores [f] of each:
    "pair of positive lengths (Lx,Ly); stored internally as half-extents
    (-Lx/2,Lx/2),(-Ly/2,Ly/2)". *)
Definition _set_tuple_value {A B : Type} (value : A * A) (pred : A -> bool)
           (err : exn) (f : A -> B) : result (B * B) :=
  if pred (fst value) && pred (snd value)
  then Ok (f (fst value), f (snd value))
  else Raise err.

End BaseWave.

(** ** Wavepacket *)

Module Wavepacket.

(** A wavepacket whose discretisation is configured.  The [None] defaults
    that [__init__] gives to [fs], [dx], [time] and [length] are not
    represented: a membrane overwrites all four on the clone it keeps. *)
Record t : Type := mk {
  fs : R;
  dx : R;
  _freq_spectrum : list R;
  _disprel : list (R -> R);
  _envelope_func : option (R -> R);
  time_boundary : R * R;
  _xlim : R * R;
  normalize : bool;
  time_vect : list R;                (* _data['time'] *)
  x_vect : list R;                   (* _data['space'][0] *)
  complex_data : option cfield2      (* _data['results'] *)
}.

Definition space_boundary (self : t) : R * R := _xlim self.

Definition with_fs (v : R) (s : t) : t :=
  mk v (dx s) (_freq_spectrum s) (_disprel s) (_envelope_func s)
     (time_boundary s) (_xlim s) (normalize s) (time_vect s) (x_vect s)
     (complex_data s).

Definition with_dx (v : R) (s : t) : t :=
  mk (fs s) v (_freq_spectrum s) (_disprel s) (_envelope_func s)
     (time_boundary s) (_xlim s) (normalize s) (time_vect s) (x_vect s)
     (complex_data s).

Definition with_disprel (v : list (R -> R)) (s : t) : t :=
  mk (fs s) (dx s) (_freq_spectrum s) v (_envelope_func s)
     (time_boundary s) (_xlim s) (normalize s) (time_vect s) (x_vect s)
     (complex_data s).

Definition with_envelope (v : option (R -> R)) (s : t) : t :=
  mk (fs s) (dx s) (_freq_spectrum s) (_disprel s) v
     (time_boundary s) (_xlim s) (normalize s) (time_vect s) (x_vect s)
     (complex_data s).

Definition with_time_boundary (v : R * R) (s : t) : t :=
  mk (fs s) (dx s) (_freq_spectrum s) (_disprel s) (_envelope_func s)
     v (_xlim s) (normalize s) (time_vect s) (x_vect s) (complex_data s).

Definition with_space_boundary (v : R * R) (s : t) : t :=
  mk (fs s) (dx s) (_freq_spectrum s) (_disprel s) (_envelope_func s)
     (time_boundary s) v (normalize s) (time_vect s) (x_vect s)
     (complex_data s).

Definition with_time_vect (v : list R) (s : t) : t :=
  mk (fs s) (dx s) (_freq_spectrum s) (_disprel s) (_envelope_func s)
     (time_boundary s) (_xlim s) (normalize s) v (x_vect s) (complex_data s).

Definition with_x_vect (v : list R) (s : t) : t :=
  mk (fs s) (dx s) (_freq_spectrum s) (_disprel s) (_envelope_func s)
     (time_boundary s) (_xlim s) (normalize s) (time_vect s) v
     (complex_data s).

Definition with_results (v : option cfield2) (s : t) : t :=
  mk (fs s) (dx s) (_freq_spectrum s) (_disprel s) (_envelope_func s)
     (time_boundary s) (_xlim s) (normalize s) (time_vect s) (x_vect s) v.

(** Modelled from the spec: the property [dt] of [waves/base.py]
    (missing): "recompute the time axis from timeBoundary + 1/fs". *)
Definition dt (self : t) : R := (/ fs self)%R.

(** The functions among a validated sequence of callables. *)
Definition functions_of (l : list pyval) : list (R -> R) :=
  flat_map (fun v => match v with PyCallable f => [f] | _ => [] end) l.

(** [dispersion.setter]; [store_first] is the order of the assignment and
    the checks inside [BaseWave._set_list_value]. *)
Definition set_dispersion (store_first : bool) (disprels : pyval) : M t unit :=
  match disprels with
  | PyNone =>
      modify (with_disprel []) ;;;
      ret tt
  | _ =>
      let err_if_none := fun _ : unit => @Raise unit ValueError in
      BaseWave._set_list_value (fun l => with_disprel (functions_of l))
                               store_first disprels callable err_if_none
  end.

(** [envelope.setter] *)
Definition set_envelope (func : pyval) : M t unit :=
  modify (with_envelope None) ;;;
  match func with
  | PyNone => ret tt
  | PyCallable f => modify (with_envelope (Some f))
  | _ => raise TypeError
  end.

(** [data]: the displacement, minus the imaginary part. *)
Definition data (self : t) : option field2 :=
  match complex_data self with
  | None => None
  | Some d => Some (map (map (fun z : C => (- snd z)%R)) d)
  end.

(** Modelled from the spec: [get_data] of [waves/base.py] (missing), as
    a membrane calls it on a placement's wavepacket: "evaluate the placement's
    wavepacket to obtain its 1D displacement data". *)
Definition get_data (self : t) : option field2 := data self.

(** Modelled from the spec: [get_space] of [waves/base.py] (missing):
    "and its 1D space-axis". *)
Definition get_space (self : t) : list R := x_vect self.

(** Modelled from the spec: [purge_data] of [waves/base.py] (missing):
    "release the results field to reclaim memory; configuration (spectrum,
    dispersion, boundaries, fs/dx) is retained". *)
Definition purge_data (self : t) : t := with_results None self.

Section Eval.

(** [utils.complex_wave] ([waves/utils.py] is missing): the term of one
    dispersion relation and one frequency over the space and time axes. *)
Variable complex_wave : (R -> R) -> R -> list R -> list R -> cfield2.

(** The two nested loops over the spectrum and the dispersion relations. *)
Definition accumulate (self : t) (data0 : cfield2) : result cfield2 :=
  foldM (fun data f =>
           foldM (fun data d =>
                    iadd_c2 data (complex_wave d f (x_vect self) (time_vect self)))
                 (_disprel self) data)
        (_freq_spectrum self) data0.

(** [if self.normalize: ...] *)
Definition normalizing (flag : bool) (data : cfield2) : result cfield2 :=
  if flag then
    max_abs <- np_max (map Cabs (concat data)) ;;
    if Rle_dec tiny max_abs
    then Ok (map (map (fun z => Cdiv_real z max_abs)) data)
    else Ok data
  else Ok data.

(** [if callable(self.envelope): ...]: every row is multiplied by the
    envelope over the space axis.  The values of the envelope are the reals
    the function returns: their cast to [float32] by [np.vectorize] is not
    represented. *)
Definition apply_envelope (env : option (R -> R)) (xs : list R)
           (data : cfield2) : cfield2 :=
  match env with
  | None => data
  | Some f =>
      let envelope := map f xs in
      map (fun row => map (fun ze => Cscale (fst ze) (snd ze))
                          (combine row envelope)) data
  end.

Definition eval (domain_only : bool) : M t unit :=
  tb <~ gets time_boundary ;;
  step <~ gets dt ;;
  modify (with_time_vect (BaseWave._discretize tb step)) ;;;
  sb <~ gets space_boundary ;;
  step <~ gets dx ;;
  modify (with_x_vect (BaseWave._discretize sb step)) ;;;
  tv <~ gets time_vect ;;
  t0 <~ lift (first tv) ;;
  t1 <~ lift (last_elt tv) ;;
  modify (with_time_boundary (t0, t1)) ;;;
  xv <~ gets x_vect ;;
  x0 <~ lift (first xv) ;;
  x1 <~ lift (last_elt xv) ;;
  modify (with_space_boundary (x0, x1)) ;;;
  if domain_only then ret tt
  else
    self <~ gets (fun s => s) ;;
    data <~ lift (accumulate self (zeros2 (length tv) (length xv))) ;;
    data <~ lift (normalizing (normalize self) data) ;;
    let data := apply_envelope (_envelope_func self) xv data in
    modify (with_results (Some data)).

End Eval.

End Wavepacket.

(** ** Membrane *)

Module Membrane.

Definition pos : Type := (Q * Q)%type.

(** A placement: the cloned wavepacket, its position, its distance field. *)
Definition placement : Type := (Wavepacket.t * pos * field2)%type.

(** The edges of the membrane, ['a'] to ['d']. *)
Inductive edge : Type := Ea | Eb | Ec | Ed.

(** The argument [T]: a number or a pair of limits. *)
Inductive time_arg : Type :=
| TScalar (T : Q)
| TLimits (t0 t1 : Q).

Record t : Type := mk {
  fs : Q;
  dx : Q;
  time : Q * Q;
  _xylims : (Q * Q) * (Q * Q);
  data_domain : list (list Q) * list (list Q);     (* _data['domain'] *)
  data_results : option field3;                     (* _data['results'] *)
  _boundary : pyval;
  normalize : bool;
  _sources : list placement;
  _reflected_sources : list placement
}.

Definition with_boundary (v : pyval) (s : t) : t :=
  mk (fs s) (dx s) (time s) (_xylims s) (data_domain s) (data_results s)
     v (normalize s) (_sources s) (_reflected_sources s).

Definition with_sources (v : list placement) (s : t) : t :=
  mk (fs s) (dx s) (time s) (_xylims s) (data_domain s) (data_results s)
     (_boundary s) (normalize s) v (_reflected_sources s).

Definition with_reflected_sources (v : list placement) (s : t) : t :=
  mk (fs s) (dx s) (time s) (_xylims s) (data_domain s) (data_results s)
     (_boundary s) (normalize s) (_sources s) v.

Definition with_results (v : option field3) (s : t) : t :=
  mk (fs s) (dx s) (time s) (_xylims s) (data_domain s) v
     (_boundary s) (normalize s) (_sources s) (_reflected_sources s).

(** [domain] (getter) *)
Definition domain (self : t) : (Q * Q) * (Q * Q) := _xylims self.

(** [domain.setter]: the value stored for a pair of sizes. *)
Definition check_domain (value : Q * Q) : result ((Q * Q) * (Q * Q)) :=
  let pred := fun x : Q => Qgtb x 0 in
  let f := fun x : Q => ((- x / 2)%Q, (x / 2)%Q) in
  BaseWave._set_tuple_value value pred TypeError f.

(** [boundary.setter]: the value stored, or the error. *)
Definition check_boundary (value : pyval) : result pyval :=
  if py_eq_str value "transparent" || py_eq_str value "free"
     || isinstance_int value
  then Ok value
  else Raise TypeError.

Definition set_boundary (value : pyval) : M t unit :=
  v <~ lift (check_boundary value) ;;
  modify (with_boundary v).

(** Modelled from the spec: the [time] setter of [waves/base.py] (missing):
    "T : float or tuple (float, float).  Total travel time.  If a tuple is
    provided, it defines the lower and upper limits of the time interval". *)
Definition check_time (T : time_arg) : Q * Q :=
  match T with
  | TScalar T => (0, T)
  | TLimits t0 t1 => (t0, t1)
  end.

(** Modelled from the spec: [get_time] of [waves/base.py] (missing): the
    time axis, the discretizer applied to the time boundary with step
    [1 / fs]. *)
Definition get_time (self : t) : list R :=
  BaseWave._discretize (Q2R (fst (time self)), Q2R (snd (time self)))
                       (/ Q2R (fs self))%R.

(** [np.arange(start, stop, step)]: the [ceil((stop - start) / step)]
    samples [start + i * step], over the rationals; the rounding of the
    floating-point quotient and of the samples is not represented. *)
Definition arange (start stop step : Q) : result (list Q) :=
  if Qeq_bool step 0 then Raise ZeroDivisionError
  else
    let n := Z.to_nat (Qceiling ((stop - start) / step)) in
    Ok (map (fun i => (start + inject_Z (Z.of_nat i) * step)%Q) (seq 0 n)).

(** [flip_and_hstack = lambda u: np.hstack((-np.flip(u[1:]), u))] *)
Definition flip_and_hstack (u : list Q) : list Q :=
  map Qopp (rev (tl u)) ++ u.

(** [np.meshgrid(xs, ys)] *)
Definition meshgrid (xs ys : list Q) : list (list Q) * list (list Q) :=
  (repeat xs (length ys), map (fun y => repeat y (length xs)) ys).

(** [xs]: [_data['domain'][0][0,:]] *)
Definition xs (self : t) : result (list Q) :=
  first (fst (data_domain self)).

(** [ys]: [_data['domain'][1][:,0]] *)
Definition ys (self : t) : result (list Q) :=
  mapM (@first Q) (snd (data_domain self)).

(** [new_coord = lambda b, p: 2*b - p], over the rationals; the rounding of
    the floating-point difference is not represented. *)
Definition new_coord (b p : Q) : Q := (2 * b - p)%Q.

Definition new_pos (Dx Dy : Q) (p : pos) (inds : list edge) : list pos :=
  let (x, y) := p in
  map (fun i =>
         match i with
         | Ea => (x, new_coord Dy y)
         | Eb => (new_coord Dx x, y)
         | Ec => (x, new_coord (- Dy) y)
         | Ed => (new_coord (- Dx) x, y)
         end) inds.

(** The region test of [_reflect_position] for half-extents [Dx], [Dy]. *)
Definition reflect (Dx Dy : Q) (p : pos) : result (list pos) :=
  let (x, y) := p in
  if Qltb (- Dx) x && Qltb x Dx && (Qltb (- Dy) y && Qltb y Dy)
  then Ok (new_pos Dx Dy p [Ea; Eb; Ec; Ed])
  else if Qgtb y Dy && Qltb x (- Dx)
  then Ok (new_pos Dx Dy p [Eb; Ec])
  else if Qgtb y Dy && (Qleb (- Dx) x && Qltb x Dx)
  then Ok (new_pos Dx Dy p [Eb; Ec; Ed])
  else if Qgtb y Dy && Qgeb x Dx
  then Ok (new_pos Dx Dy p [Ec; Ed])
  else if Qgtb x Dx && (Qleb (- Dy) y && Qleb y Dy)
  then Ok (new_pos Dx Dy p [Ea; Ec; Ed])
  else if Qgeb x Dx && Qleb y Dy
  then Ok (new_pos Dx Dy p [Ea; Ed])
  else if Qltb y (- Dy) && (Qleb (- Dx) x && Qltb x Dx)
  then Ok (new_pos Dx Dy p [Ea; Eb; Ed])
  else if Qltb y (- Dy) && Qltb x (- Dx)
  then Ok (new_pos Dx Dy p [Ea; Eb])
  else if Qltb x (- Dx) && (Qleb (- Dy) y && Qleb y Dy)
  then Ok (new_pos Dx Dy p [Ea; Eb; Ec])
  else Raise ValueError.

Definition _reflect_position (self : t) (p : pos) : result (list pos) :=
  let Dx := snd (fst (domain self)) in
  let Dy := snd (snd (domain self)) in
  reflect Dx Dy p.

(** [dist = np.sqrt(dx ** 2 + dy ** 2)] over the two meshes. *)
Definition distance_field (self : t) (p : pos) : field2 :=
  map (fun rows =>
         map (fun xy =>
                let dx := Q2R (fst xy - fst p) in
                let dy := Q2R (snd xy - snd p) in
                sqrt (dx ^ 2 + dy ^ 2))
             (combine (fst rows) (snd rows)))
      (combine (fst (data_domain self)) (snd (data_domain self))).

(** [self.xs[0] <= pos[0] <= self.xs[-1] and self.ys[0] <= pos[1] <= self.ys[-1]] *)
Definition inside_extents (self : t) (p : pos) : result bool :=
  xs <- xs self ;;
  x0 <- first xs ;;
  if Qleb x0 (fst p) then
    x1 <- last_elt xs ;;
    if Qleb (fst p) x1 then
      ys <- ys self ;;
      y0 <- first ys ;;
      if Qleb y0 (snd p) then
        y1 <- last_elt ys ;;
        Ok (Qleb (snd p) y1)
      else Ok false
    else Ok false
  else Ok false.

(** The clone a placement keeps: purged and bound to the membrane.  The
    assignments [source.domain = (d_min, d_max)] and [source.time =
    self.time] set the clone's space and time boundary. *)
Definition bind_source (self : t) (source : Wavepacket.t) (d_min d_max : R)
  : Wavepacket.t :=
  let source := Wavepacket.purge_data source in
  let source := Wavepacket.with_dx (Q2R (dx self)) source in
  let source := Wavepacket.with_fs (Q2R (fs self)) source in
  let source := Wavepacket.with_space_boundary (d_min, d_max) source in
  Wavepacket.with_time_boundary
    (Q2R (fst (time self)), Q2R (snd (time self))) source.

Definition _add_source_to_list (source : Wavepacket.t) (p : pos)
           (reflected : bool) : M t unit :=
  self <~ gets (fun s => s) ;;
  let dist := distance_field self p in
  d_max <~ lift (np_max (concat dist)) ;;
  inside <~ lift (inside_extents self p) ;;
  d_min <~ (if inside then ret 0%R else lift (np_min (concat dist))) ;;
  let source := bind_source self source d_min d_max in
  if reflected
  then modify (fun s => with_reflected_sources
                          (_reflected_sources s ++ [(source, p, dist)]) s)
  else modify (fun s => with_sources (_sources s ++ [(source, p, dist)]) s).

(** The additional rounds of [add_source] for an integer boundary. *)
Fixpoint rounds (self : t) (n : nat) (tmp1 reflected_positions : list pos)
  : result (list pos) :=
  match n with
  | O => Ok reflected_positions
  | S n' =>
      tmp2 <- foldM (fun tmp2 p =>
                       r <- _reflect_position self p ;; Ok (tmp2 ++ r))
                    tmp1 [] ;;
      rounds self n' tmp2 (reflected_positions ++ tmp2)
  end.

(** [add_source], for a [Wavepacket] and a pair of numbers (the three
    [isinstance] guards hold by typing). *)
Definition add_source (source : Wavepacket.t) (p : pos) : M t unit :=
  _add_source_to_list source p false ;;;
  self <~ gets (fun s => s) ;;
  let b := _boundary self in
  if py_eq_str b "transparent" then ret tt
  else if py_eq_str b "free" || isinstance_int b then
    reflected_positions <~ lift (_reflect_position self p) ;;
    reflected_positions <~
      lift (match int_value b with
            | Some N =>
                rounds self (Z.to_nat (N - 1)) reflected_positions
                       reflected_positions
            | None => Ok reflected_positions
            end) ;;
    forM_ reflected_positions (fun q => _add_source_to_list source q true)
  else ret tt.

(** [__init__] *)
Definition init (fs dx : Q) (size : Q * Q) (T : time_arg)
           (sources : option (list (Wavepacket.t * pos)))
           (normalize : bool) (boundary : pyval) : result t :=
  let time := check_time T in
  xylims <- check_domain size ;;
  boundary <- check_boundary boundary ;;
  let Lx := snd (fst xylims) in
  let Ly := snd (snd xylims) in
  ux <- arange 0 Lx dx ;;
  uy <- arange 0 Ly dx ;;
  let grid := meshgrid (flip_and_hstack ux) (flip_and_hstack uy) in
  let self := mk fs dx time xylims grid None boundary normalize [] [] in
  xs <- xs self ;;
  x1 <- last_elt xs ;;
  ys <- ys self ;;
  y1 <- last_elt ys ;;
  xylims <- check_domain ((x1 * 2)%Q, (y1 * 2)%Q) ;;
  let self := mk fs dx time xylims grid None boundary normalize [] [] in
  match sources with
  | None => Ok self
  | Some l =>
      match forM_ l (fun sp => add_source (fst sp) (snd sp)) self with
      | (self, Ok _) => Ok self
      | (_, Raise e) => Raise e
      end
  end.

Section Eval.

Variable complex_wave : (R -> R) -> R -> list R -> list R -> cfield2.

(** [base.interp] ([waves/base.py] is missing): the profile [src_data] over
    the axis [src_domain], interpolated at every distance of [dist]. *)
Variable interp : field2 -> list R -> field2 -> field3.

(** The loop over the placements: the placements as the loop leaves them
    (each wavepacket object is mutated in place), and the accumulator. *)
Fixpoint run_sources (todo : list placement) (data : field3)
  : list placement * result field3 :=
  match todo with
  | [] => ([], Ok data)
  | (src, p, dist) :: rest =>
      match Wavepacket.eval complex_wave false src with
      | (src, Raise e) => ((src, p, dist) :: rest, Raise e)
      | (src, Ok _) =>
          let folded :=
            src_data <- match Wavepacket.get_data src with
                        | Some d => Ok d
                        | None => Raise TypeError
                        end ;;
            let src_domain := Wavepacket.get_space src in
            iadd_3 data (interp dist src_domain src_data) in
          match folded with
          | Raise e => ((src, p, dist) :: rest, Raise e)
          | Ok data =>
              let src := Wavepacket.purge_data src in
              let (rest, r) := run_sources rest data in
              ((src, p, dist) :: rest, r)
          end
      end
  end.

(** [if self.normalize: ...] *)
Definition normalizing (flag : bool) (data : field3) : result field3 :=
  if flag then
    max_abs <- np_max (map Rabs (flat3 data)) ;;
    if Rle_dec tiny max_abs
    then Ok (map (map (map (fun v => (v / max_abs)%R))) data)
    else Ok data
  else Ok data.

(** The placements written back to the two lists they came from. *)
Definition with_placements (pls : list placement) (s : t) : t :=
  let n := length (_sources s) in
  with_reflected_sources (skipn n pls) (with_sources (firstn n pls) s).

Definition eval : M t unit :=
  self <~ gets (fun s => s) ;;
  xs <~ lift (xs self) ;;
  ys <~ lift (ys self) ;;
  let data := zeros3 (length xs) (length ys) (length (get_time self)) in
  fun s =>
    let (pls, r) := run_sources (_sources s ++ _reflected_sources s) data in
    let s := with_placements pls s in
    match r with
    | Raise e => (s, Raise e)
    | Ok data =>
        match normalizing (normalize s) data with
        | Raise e => (s, Raise e)
        | Ok data => (with_results (Some data) s, Ok tt)
        end
    end.

End Eval.

(** [get_data] *)
Definition get_data (self : t) : option field3 := data_results self.

End Membrane.

(** ** asdl: [MeasuredData] and [DataCollection] *)

Module Asdl.

Section MeasuredData.

(** The objects that are saved, the state of the operating system that
    [os.stat], [open] and [pickle.dump] read and change, and what these
    raise, apart from the [FileNotFoundError] of [os.stat], which [save]
    catches. *)
Variable obj : Type.
Variable world : Type.
Variable os_exn : Type.

(** [os.stat(file_name)]: it returns, raises [FileNotFoundError], or raises
    something else. *)
Inductive stat_outcome : Type :=
| StatReturns
| StatNotFound
| StatRaises (e : os_exn).

Variable os_stat : String.string -> world -> stat_outcome.

(** [with open(file_name, 'wb') as file_: pickle.dump(self, file_,
    pickle.HIGHEST_PROTOCOL)]: the state it leaves, and what it raised, if
    it did. *)
Variable write_pickle : obj -> String.string -> world -> world * option os_exn.

(** What [save] raises: its own [FileExistsError], or what one of the
    operations raised. *)
Inductive save_error : Type :=
| FileExistsError
| Propagated (e : os_exn).

(** [MeasuredData.save]: the state it leaves, and the outcome. *)
Definition save (self : obj) (file_name : String.string) (overwrite : bool)
           (w : world) : world * (unit + save_error) :=
  let write :=
    let (w', r) := write_pickle self file_name w in
    (w', match r with
         | None => inl tt
         | Some e => inr (Propagated e)
         end) in
  match os_stat file_name w with
  | StatRaises e => (w, inr (Propagated e))
  | StatNotFound => write
  | StatReturns =>
      if negb overwrite
      then (w, inr FileExistsError)
      else write
  end.

End MeasuredData.

Arguments StatReturns {os_exn}.
Arguments StatNotFound {os_exn}.
Arguments FileExistsError {os_exn}.

Section DataCollection.

(** A collection is the list [data] of its [collections.UserList]. *)
Variable A : Type.

(** [last] (getter): [self[-1]] *)
Definition last (self : list A) : result A := last_elt self.

(** [last.setter]: [self[-1] = value] *)
Definition set_last (value : A) : M (list A) unit :=
  fun self =>
    match self with
    | [] => (self, Raise IndexError)
    | _ :: _ => (removelast self ++ [value], Ok tt)
    end.

End DataCollection.

End Asdl.

(** ** Statements shared by the theorems *)

(** What the specification lists as the accepted boundary values:
    "one of {transparent, free, integer N>=1}". *)
Definition spec_boundary_ok (v : pyval) : bool :=
  match v with
  | PyStr s => String.eqb s "transparent" || String.eqb s "free"
  | PyInt n => (1 <=? n)%Z
  | _ => false
  end.

(** The grid of a constructed membrane: the two meshes of non-empty axes. *)
Definition grid_ok (self : Membrane.t) (xs ys : list Q) : Prop :=
  xs <> [] /\ ys <> [] /\ Membrane.data_domain self = Membrane.meshgrid xs ys.

(** [d] is the largest (smallest) value of the distance field. *)
Definition is_max (dist : field2) (d : R) : Prop :=
  In d (concat dist) /\ Forall (fun v => (v <= d)%R) (concat dist).

Definition is_min (dist : field2) (d : R) : Prop :=
  In d (concat dist) /\ Forall (fun v => (d <= v)%R) (concat dist).

(** "the position lies within the membrane's x/y coordinate extents" *)
Definition within_extents (xs ys : list Q) (p : Membrane.pos) : Prop :=
  exists x0 x1 y0 y1,
    first xs = Ok x0 /\ last_elt xs = Ok x1 /\
    first ys = Ok y0 /\ last_elt ys = Ok y1 /\
    (x0 <= fst p)%Q /\ (fst p <= x1)%Q /\ (y0 <= snd p)%Q /\ (snd p <= y1)%Q.

(** The invariant of a placement registered on a membrane with axes [xs],
    [ys]. *)
Definition placement_ok (self : Membrane.t) (xs ys : list Q)
           (pl : Membrane.placement) : Prop :=
  let '(src, p, dist) := pl in
  dist = Membrane.distance_field self p /\
  exists d_min d_max : R,
    Wavepacket.space_boundary src = (d_min, d_max) /\
    is_max dist d_max /\
    (within_extents xs ys p -> d_min = 0%R) /\
    (~ within_extents xs ys p -> is_min dist d_min) /\
    Forall (Forall (fun v => (d_min <= v <= d_max)%R)) dist.


(** The shape contracts of the two collaborators (spec, section 6). *)
Definition complex_wave_contract
           (cw : (R -> R) -> R -> list R -> list R -> cfield2) : Prop :=
  forall d f xv tv, has_shape2 (cw d f xv tv) (length tv) (length xv).

Definition interp_contract (interp : field2 -> list R -> field2 -> field3)
  : Prop :=
  forall dist xv data n m k,
    has_shape2 dist n m -> has_shape2 data k (length xv) ->
    has_shape3 (interp dist xv data) n m k.

Definition all_zero (a : cfield2) : Prop :=
  Forall (Forall (fun z => z = C0)) a.

Definition same_length {A B : Type} (x : list A) (y : list B) : Prop :=
  length x = length y.

(** A placement whose wavepacket has non-empty axes, [k] time samples, and a
    distance field of [n] rows and [m] columns. *)
Definition ready (n m k : nat) (pl : Membrane.placement) : Prop :=
  let '(src, _, dist) := pl in
  let tv := BaseWave._discretize (Wavepacket.time_boundary src)
                                 (Wavepacket.dt src) in
  let xv := BaseWave._discretize (Wavepacket.space_boundary src)
                                 (Wavepacket.dx src) in
  tv <> [] /\ xv <> [] /\ length tv = k /\ has_shape2 dist n m.

(** ** Concrete inputs *)

(** A wavepacket as [Wavepacket(disprel = d, freq = freqs, envelope = env)]
    leaves it; the discretisation fields, unset there, hold zeros. *)
Definition unbound_wavepacket (d : list (R -> R)) (freqs : list R)
           (env : option (R -> R)) : Wavepacket.t :=
  Wavepacket.mk 0 0 freqs d env (0, 0)%R (0, 0)%R true [] [] None.

(** The wavepacket of the end-to-end example: [k(f) = f], spectrum [[1]]. *)
Definition wavepacket_k_id : Wavepacket.t :=
  unbound_wavepacket [fun f : R => f] [1%R] None.

(** A wavepacket with the envelope [x |-> 1/2]. *)
Definition wavepacket_half_envelope : Wavepacket.t :=
  unbound_wavepacket [fun f : R => f] [1%R] (Some (fun _ : R => (/ 2)%R)).

(** A term of the right shape whose every entry is [1]. *)
Definition cw_ones (d : R -> R) (f : R) (xv tv : list R) : cfield2 :=
  repeat (repeat (1, 0)%R (length xv)) (length tv).

(** A term of the right shape whose every entry is [-i]: a displacement of
    [1] at every sample. *)
Definition cw_unit (d : R -> R) (f : R) (xv tv : list R) : cfield2 :=
  repeat (repeat (0, -1)%R (length xv)) (length tv).

(** An interpolation of the right shape: every grid point receives the
    profile's first spatial sample. *)
Definition interp_first (dist : field2) (xv : list R) (data : field2) : field3 :=
  map (map (fun _ : R => map (fun row => hd 0%R row) data)) dist.

(** [Wavepacket(disprel = k, dx = 1, length = (0, 0), fs = 1, time = (0, 0),
    freq = freqs, envelope = env)] with [k(f) = f]: one time sample and one
    space sample. *)
Definition wavepacket_point (freqs : list R) (env : option (R -> R))
  : Wavepacket.t :=
  Wavepacket.mk 1 1 freqs [fun f : R => f] env (0, 0)%R (0, 0)%R true [] []
                None.

(** The object of a construction that is known to succeed. *)
Definition built (r : result Membrane.t) : Membrane.t :=
  match r with
  | Ok m => m
  | Raise _ =>
      Membrane.mk 0 0 (0, 0) ((0, 0), (0, 0)) ([], []) None PyNone false [] []
  end.

(** [Membrane(fs=10, dx=0.5, size=(3,3), T=1, boundary='free')]: the
    half-extents are [Dx = Dy = 1]. *)
Definition membrane_unit : Membrane.t :=
  Eval vm_compute in
    built (Membrane.init 10 (1 # 2) (3, 3) (Membrane.TScalar 1) None true
                         (PyStr "free")).

(** [Membrane(fs=10, dx=0.5, size=(2,2), T=1, boundary='free')]: the
    half-extents are [Dx = Dy = 1/2]. *)
Definition membrane_half : Membrane.t :=
  Eval vm_compute in
    built (Membrane.init 10 (1 # 2) (2, 2) (Membrane.TScalar 1) None true
                         (PyStr "free")).

(** [Membrane(fs=10, dx=0.1, size=(2,2), T=1)], the end-to-end example. *)
Definition membrane_e2e : Membrane.t :=
  Eval vm_compute in
    built (Membrane.init 10 (1 # 10) (2, 2) (Membrane.TScalar 1) None true
                         (PyStr "transparent")).

(** The axis of the end-to-end membrane, both in x and in y. *)
Definition axis_e2e : list Q :=
  Eval vm_compute in
    match Membrane.xs membrane_e2e with Ok l => l | Raise _ => [] end.

(** The end-to-end membrane with the example wavepacket at the origin. *)
Definition membrane_e2e_source : Membrane.t :=
  fst (Membrane.add_source wavepacket_k_id (0, 0) membrane_e2e).

(** [Membrane(fs=1, dx=0.5, size=(2,2), T=(1, 0))] with the example
    wavepacket at the origin: the upper limit of the time interval lies below
    the lower one, so the time axis has no sample. *)
Definition membrane_no_sample_base : Membrane.t :=
  Eval vm_compute in
    built (Membrane.init 1 (1 # 2) (2, 2) (Membrane.TLimits 1 0)
                         None true (PyStr "transparent")).

Definition membrane_no_sample : Membrane.t :=
  fst (Membrane.add_source wavepacket_k_id (0, 0) membrane_no_sample_base).

(** [Membrane(fs=10, dx=0.5, size=(2,2), T=1)]: a grid of three by three
    points, with the transparent boundary. *)
Definition membrane_small : Membrane.t :=
  Eval vm_compute in
    built (Membrane.init 10 (1 # 2) (2, 2) (Membrane.TScalar 1) None true
                         (PyStr "transparent")).

(** [Membrane(fs=10, dx=0.5, size=(2,3), T=1)]: three samples in x, five
    in y. *)
Definition membrane_wide : Membrane.t :=
  Eval vm_compute in
    built (Membrane.init 10 (1 # 2) (2, 3) (Membrane.TScalar 1) None true
                         (PyStr "transparent")).

(** The same membrane with the example wavepacket at the origin. *)
Definition membrane_wide_source : Membrane.t :=
  fst (Membrane.add_source wavepacket_k_id (0, 0) membrane_wide).

(** The position of a placement. *)
Definition position (pl : Membrane.placement) : Membrane.pos := snd (fst pl).

(** Two membranes that differ at most in their placements and results. *)
Definition same_configuration (s1 s2 : Membrane.t) : Prop :=
  Membrane.fs s1 = Membrane.fs s2 /\ Membrane.dx s1 = Membrane.dx s2 /\
  Membrane.time s1 = Membrane.time s2 /\
  Membrane._xylims s1 = Membrane._xylims s2 /\
  Membrane.data_domain s1 = Membrane.data_domain s2 /\
  Membrane._boundary s1 = Membrane._boundary s2 /\
  Membrane.normalize s1 = Membrane.normalize s2.

(** An axis that mirrors itself about [0]. *)
Definition symmetric_axis (axis : list Q) : Prop :=
  Forall2 Qeq (map Qopp (rev axis)) axis.

(** The entry [a[i, j]] of a two-dimensional array, when it exists. *)
Definition entry (a : field2) (i j : nat) : option R :=
  match nth_error a i with
  | Some row => nth_error row j
  | None => None
  end.

(** The three-by-three membrane with the example wavepacket at the
    origin. *)
Definition membrane_small_source : Membrane.t :=
  fst (Membrane.add_source wavepacket_k_id (0, 0) membrane_small).

(** A placement of [self] whose wavepacket has axes that are not empty and
    as many time samples as the membrane. *)
Definition registered (self : Membrane.t) (pl : Membrane.placement) : Prop :=
  let '(src, p, dist) := pl in
  let tv := BaseWave._discretize (Wavepacket.time_boundary src)
                                 (Wavepacket.dt src) in
  let xv := BaseWave._discretize (Wavepacket.space_boundary src)
                                 (Wavepacket.dx src) in
  dist = Membrane.distance_field self p /\
  tv <> [] /\ xv <> [] /\ length tv = length (Membrane.get_time self).

(** An operating system that is the list of the names that exist: [os.stat]
    finds the names of the list, and writing adds the name. *)
Definition listed_stat (name : String.string) (w : list String.string)
  : Asdl.stat_outcome Empty_set :=
  if existsb (String.eqb name) w then Asdl.StatReturns else Asdl.StatNotFound.

Definition listed_write (self : Z) (name : String.string)
           (w : list String.string) : list String.string * option Empty_set :=
  (name :: w, None).

(** * Theorems *)

(** ** Rational comparisons *)

Lemma Qltb_lt (x y : Q) : Qltb x y = true <-> (x < y)%Q.
Proof.
  unfold Qltb. rewrite negb_true_iff. split; intro H.
  - apply Qnot_le_lt. intro Hle. apply Qle_bool_iff in Hle. congruence.
  - destruct (Qle_bool y x) eqn:E; [|reflexivity].
    apply Qle_bool_iff in E. exfalso. apply (Qlt_not_le _ _ H E).
Qed.

Lemma Qleb_le (x y : Q) : Qleb x y = true <-> (x <= y)%Q.
Proof. apply Qle_bool_iff. Qed.

(** ** C1: the images of an interior point *)

(** C1 (amended).  For an interior position [(x, y)] of a membrane with
    half-extents [(Dx, Dy)], [_reflect_position] returns exactly the four
    images [(x, 2Dy-y)], [(2Dx-x, y)], [(x, -2Dy-y)], [(-2Dx-x, y)], in this
    order. *)
Theorem C1_interior_images (self : Membrane.t) (x y : Q) :
  let Dx := snd (fst (Membrane.domain self)) in
  let Dy := snd (snd (Membrane.domain self)) in
  (- Dx < x)%Q -> (x < Dx)%Q -> (- Dy < y)%Q -> (y < Dy)%Q ->
  exists l,
    Membrane._reflect_position self (x, y) = Ok l /\
    Forall2 pos_eq l
            [ (x, 2 * Dy - y)%Q; (2 * Dx - x, y)%Q;
              (x, - (2 * Dy) - y)%Q; (- (2 * Dx) - x, y)%Q ].
Proof.
  intros Dx Dy Hx1 Hx2 Hy1 Hy2.
  unfold Membrane._reflect_position, Membrane.reflect.
  fold Dx Dy.
  apply Qltb_lt in Hx1, Hx2, Hy1, Hy2.
  rewrite Hx1, Hx2, Hy1, Hy2. simpl.
  eexists. split; [reflexivity|].
  unfold Membrane.new_coord.
  repeat constructor; simpl; try reflexivity; ring.
Qed.

Lemma membrane_unit_built :
  Membrane.init 10 (1 # 2) (3, 3) (Membrane.TScalar 1) None true (PyStr "free")
  = Ok membrane_unit.
Proof. vm_compute. reflexivity. Qed.

Lemma membrane_half_built :
  Membrane.init 10 (1 # 2) (2, 2) (Membrane.TScalar 1) None true (PyStr "free")
  = Ok membrane_half.
Proof. vm_compute. reflexivity. Qed.

Lemma membrane_e2e_built :
  Membrane.init 10 (1 # 10) (2, 2) (Membrane.TScalar 1) None true
                (PyStr "transparent")
  = Ok membrane_e2e.
Proof. vm_compute. reflexivity. Qed.

(** The example of C1 on the code: with [Dx = Dy = 1] the images of
    [(0.2, 0.3)] are [(0.2, 1.7)], [(1.8, 0.3)], [(0.2, -2.3)],
    [(-2.2, 0.3)]. *)
Lemma C1_interior_images_witness :
  (snd (fst (Membrane.domain membrane_unit)) == 1)%Q /\
  (snd (snd (Membrane.domain membrane_unit)) == 1)%Q /\
  exists l,
    Membrane._reflect_position membrane_unit (2 # 10, 3 # 10) = Ok l /\
    Forall2 pos_eq l
            [ (2 # 10, 17 # 10); (18 # 10, 3 # 10);
              (2 # 10, - (23 # 10)); (- (22 # 10), 3 # 10) ].
Proof.
  split; [reflexivity|]. split; [reflexivity|].
  destruct (@C1_interior_images membrane_unit (2 # 10) (3 # 10))
    as [l [Hl Himg]]; try reflexivity.
  exists l. split; [exact Hl|].
  vm_compute in Hl. injection Hl as <-.
  repeat constructor.
Defined.

(** C1 as stated fails on its example: the images [(0.2, -1.7)] and
    [(-1.8, 0.3)] are not among the positions returned for [Dx = Dy = 1]
    and [(0.2, 0.3)]. *)
Lemma C1_example_refuted :
  exists l,
    Membrane._reflect_position membrane_unit (2 # 10, 3 # 10) = Ok l /\
    ~ Exists (pos_eq (2 # 10, - (17 # 10))) l /\
    ~ Exists (pos_eq (- (18 # 10), 3 # 10)) l.
Proof.
  eexists. split; [vm_compute; reflexivity|].
  split; intro H;
    repeat (apply Exists_cons in H; destruct H as [[H1 H2]|H];
            [vm_compute in H1, H2; discriminate|]);
    inversion H.
Qed.

(** ** C2: positions on an edge *)

(** C2 fails on the code.  On the membrane with half-extents
    [Dx = Dy = 1/2], the position [(0, 1/2)] lies on edge [a]: it matches
    none of the nine conditions, so [_reflect_position] raises [ValueError],
    and so does [add_source] after it has registered the real source. *)
Theorem C2_edge_position_raises :
  Membrane._reflect_position membrane_half (0, 1 # 2) = Raise ValueError /\
  snd (Membrane.add_source wavepacket_k_id (0, 1 # 2) membrane_half)
  = Raise ValueError /\
  length (Membrane._sources
            (fst (Membrane.add_source wavepacket_k_id (0, 1 # 2) membrane_half)))
  = 1%nat.
Proof.
  split; [vm_compute; reflexivity|].
  split; vm_compute; reflexivity.
Qed.

Lemma Qltb_ge (x y : Q) : (y <= x)%Q -> Qltb x y = false.
Proof.
  intro H. destruct (Qltb x y) eqn:E; [|reflexivity].
  apply Qltb_lt in E. exfalso. apply (Qlt_not_le _ _ E H).
Qed.

Lemma Qleb_gt (x y : Q) : (y < x)%Q -> Qleb x y = false.
Proof.
  intro H. destruct (Qleb x y) eqn:E; [|reflexivity].
  apply Qleb_le in E. exfalso. apply (Qlt_not_le _ _ H E).
Qed.

Ltac decide_comparisons :=
  unfold Qgtb, Qgeb;
  repeat match goal with
         | |- context [Qltb ?a ?b] =>
             first [ replace (Qltb a b) with true
                       by (symmetry; apply Qltb_lt; Lqa.lra)
                   | replace (Qltb a b) with false
                       by (symmetry; apply Qltb_ge; Lqa.lra) ]
         | |- context [Qleb ?a ?b] =>
             first [ replace (Qleb a b) with true
                       by (symmetry; apply Qleb_le; Lqa.lra)
                   | replace (Qleb a b) with false
                       by (symmetry; apply Qleb_gt; Lqa.lra) ]
         end.

(** Every position on the edges [a], [c] and [d] of the membrane reaches
    the final [else]. *)
Lemma reflect_raises_on_edges (Dx Dy x y : Q) :
  (0 < Dx)%Q -> (0 < Dy)%Q ->
  ((x == - Dx)%Q /\ (- Dy <= y)%Q /\ (y <= Dy)%Q) \/
  ((- Dx < x)%Q /\ (x < Dx)%Q /\ ((y == Dy)%Q \/ (y == - Dy)%Q)) ->
  Membrane.reflect Dx Dy (x, y) = Raise ValueError.
Proof.
  intros HDx HDy H. unfold Membrane.reflect.
  destruct H as [[Ha [Hb Hc]]|[Ha [Hb [Hc|Hc]]]];
    decide_comparisons; reflexivity.
Qed.

(** Conversely, only the positions on those edges reach it: everywhere
    else one of the nine conditions holds. *)
Lemma reflect_raises_only_on_edges (Dx Dy x y : Q) :
  (0 < Dx)%Q -> (0 < Dy)%Q ->
  Membrane.reflect Dx Dy (x, y) = Raise ValueError ->
  ((x == - Dx)%Q /\ (- Dy <= y)%Q /\ (y <= Dy)%Q) \/
  ((- Dx < x)%Q /\ (x < Dx)%Q /\ ((y == Dy)%Q \/ (y == - Dy)%Q)).
Proof.
  intros HDx HDy.
  destruct (Q_dec x (- Dx)) as [[H1|H1]|H1];
  destruct (Q_dec x Dx) as [[H2|H2]|H2];
  destruct (Q_dec y (- Dy)) as [[H3|H3]|H3];
  destruct (Q_dec y Dy) as [[H4|H4]|H4];
  try (exfalso; Lqa.lra);
  unfold Membrane.reflect; decide_comparisons; cbn [andb orb];
  intro H; try discriminate H.
  all: try (left; repeat split; Lqa.lra).
  all: try (right; split; [Lqa.lra|split; [Lqa.lra|]];
            (left; Lqa.lra) || (right; Lqa.lra)).
Qed.

(** ** C5: the values the boundary setter accepts *)

Lemma check_boundary_accepts (value : pyval) :
  Membrane.check_boundary value = Ok value <->
  (value = PyStr "transparent" \/ value = PyStr "free" \/
   (exists n, value = PyInt n) \/ (exists b, value = PyBool b)).
Proof.
  unfold Membrane.check_boundary. split.
  - destruct value; simpl; try discriminate; eauto.
    destruct (String.eqb s "transparent") eqn:E1.
    + apply String.eqb_eq in E1. subst. auto.
    + destruct (String.eqb s "free") eqn:E2; [|discriminate].
      apply String.eqb_eq in E2. subst. auto.
  - intros [->|[->|[[n ->]|[b ->]]]]; reflexivity.
Qed.

Lemma check_boundary_rejects (value : pyval) :
  Membrane.check_boundary value = Raise TypeError <->
  ~ (value = PyStr "transparent" \/ value = PyStr "free" \/
     (exists n, value = PyInt n) \/ (exists b, value = PyBool b)).
Proof.
  rewrite <- check_boundary_accepts. unfold Membrane.check_boundary.
  destruct (py_eq_str value "transparent" || py_eq_str value "free"
            || isinstance_int value); split; intro H;
    try discriminate; try reflexivity.
  exfalso. apply H. reflexivity.
Qed.

(** C5 as stated fails: the integer [0], which is not an integer [N >= 1],
    is stored by the setter without an error. *)
Lemma C5_zero_accepted :
  spec_boundary_ok (PyInt 0) = false /\
  Membrane.set_boundary (PyInt 0) membrane_unit
  = (Membrane.with_boundary (PyInt 0) membrane_unit, Ok tt).
Proof. split; reflexivity. Qed.

(** C5 (amended).  Setting [boundary] raises [TypeError], and leaves the
    object as it was, exactly for the values other than the string
    ['transparent'], the string ['free'] and the instances of [int] (any
    integer, [0] and negative ones included, and the two booleans); the same
    values make the constructor raise [TypeError]; every other value is
    stored. *)
Theorem C5_boundary_setter (value : pyval) (self : Membrane.t) :
  let accepted :=
    value = PyStr "transparent" \/ value = PyStr "free" \/
    (exists n, value = PyInt n) \/ (exists b, value = PyBool b) in
  (~ accepted <->
   Membrane.set_boundary value self = (self, Raise TypeError)) /\
  (accepted <->
   Membrane.set_boundary value self
   = (Membrane.with_boundary value self, Ok tt)) /\
  (~ accepted ->
   forall fs dx size T sources normalize,
     Membrane.init fs dx size T sources normalize value = Raise TypeError).
Proof.
  intro accepted. unfold accepted.
  rewrite <- check_boundary_rejects, <- check_boundary_accepts.
  unfold Membrane.set_boundary, bindM, lift, modify.
  repeat split.
  - intros ->. reflexivity.
  - destruct (Membrane.check_boundary value); intro H; inversion H; reflexivity.
  - intros ->. reflexivity.
  - unfold Membrane.check_boundary.
    destruct (py_eq_str value "transparent" || py_eq_str value "free"
              || isinstance_int value); [reflexivity|].
    intro H; inversion H.
  - intros H fs dx size T sources normalize.
    unfold Membrane.init. rewrite H.
    unfold Membrane.check_domain, BaseWave._set_tuple_value.
    destruct (_ && _); reflexivity.
Qed.

Lemma C5_boundary_setter_witness :
  Membrane.set_boundary (PyStr "fixed") membrane_unit
  = (membrane_unit, Raise TypeError) /\
  Membrane.set_boundary (PyFloat (3 # 2)) membrane_unit
  = (membrane_unit, Raise TypeError) /\
  Membrane.init 10 (1 # 2) (3, 3) (Membrane.TScalar 1) None true
                (PyStr "fixed") = Raise TypeError /\
  Membrane.set_boundary (PyInt (-3)) membrane_unit
  = (Membrane.with_boundary (PyInt (-3)) membrane_unit, Ok tt).
Proof.
  assert (Hs : ~ (PyStr "fixed" = PyStr "transparent" \/
                  PyStr "fixed" = PyStr "free" \/
                  (exists n, PyStr "fixed" = PyInt n) \/
                  (exists b, PyStr "fixed" = PyBool b))).
  { intros [H|[H|[[n H]|[b H]]]]; discriminate H. }
  assert (Hf : ~ (PyFloat (3 # 2) = PyStr "transparent" \/
                  PyFloat (3 # 2) = PyStr "free" \/
                  (exists n, PyFloat (3 # 2) = PyInt n) \/
                  (exists b, PyFloat (3 # 2) = PyBool b))).
  { intros [H|[H|[[n H]|[b H]]]]; discriminate H. }
  destruct (C5_boundary_setter (PyStr "fixed") membrane_unit)
    as (H1 & _ & H3).
  destruct (C5_boundary_setter (PyFloat (3 # 2)) membrane_unit)
    as (H4 & _ & _).
  destruct (C5_boundary_setter (PyInt (-3)) membrane_unit) as (_ & H5 & _).
  split; [apply H1, Hs|]. split; [apply H4, Hf|].
  split; [apply H3, Hs|]. apply H5. right. right. left. exists (-3)%Z.
  reflexivity.
Defined.

(** ** C10: the envelope setter *)

(** C10.  Setting [envelope] to a value that is neither [None] nor callable
    raises [TypeError], and the object is left with the envelope [None]
    whatever envelope it had. *)
Theorem C10_envelope_reset (self : Wavepacket.t) (func : pyval) :
  func <> PyNone -> callable func = false ->
  Wavepacket.set_envelope func self
  = (Wavepacket.with_envelope None self, Raise TypeError) /\
  Wavepacket._envelope_func (fst (Wavepacket.set_envelope func self)) = None.
Proof.
  intros Hnone Hcall.
  destruct func; try discriminate Hcall; try contradiction;
    split; reflexivity.
Qed.

Lemma C10_envelope_reset_witness :
  Wavepacket._envelope_func wavepacket_half_envelope <> None /\
  Wavepacket.set_envelope (PyInt 3) wavepacket_half_envelope
  = (Wavepacket.with_envelope None wavepacket_half_envelope, Raise TypeError) /\
  Wavepacket._envelope_func
    (fst (Wavepacket.set_envelope (PyInt 3) wavepacket_half_envelope)) = None.
Proof.
  split; [discriminate|].
  apply (@C10_envelope_reset wavepacket_half_envelope (PyInt 3));
    [discriminate|reflexivity].
Defined.

(** ** C4: the dispersion setter *)

(** C4 as stated fails: setting [dispersion] to [None] raises nothing,
    whichever order the list setter works in. *)
Lemma C4_none_accepted :
  Wavepacket.set_dispersion false PyNone wavepacket_k_id
  = (Wavepacket.with_disprel [] wavepacket_k_id, Ok tt) /\
  Wavepacket.set_dispersion true PyNone wavepacket_k_id
  = (Wavepacket.with_disprel [] wavepacket_k_id, Ok tt).
Proof. split; reflexivity. Qed.

(** C4 (amended).  Setting [dispersion] to an empty sequence raises
    [ValueError] at setter time, whether the list setter assigns the field
    before or after its checks; setting it to [None] raises nothing and
    stores the empty list. *)
Theorem C4_dispersion_setter (store_first : bool) (self : Wavepacket.t) :
  snd (Wavepacket.set_dispersion store_first (PyList []) self)
  = Raise ValueError /\
  snd (Wavepacket.set_dispersion store_first (PyTuple []) self)
  = Raise ValueError /\
  Wavepacket.set_dispersion store_first PyNone self
  = (Wavepacket.with_disprel [] self, Ok tt).
Proof. destruct store_first; repeat split. Qed.

(** ** Extrema of a flattened array *)

Section Extrema.

Local Open Scope R_scope.

Lemma fold_Rmax_bounds (l : list R) (x : R) :
  x <= fold_left Rmax l x /\ Forall (fun v => v <= fold_left Rmax l x) l.
Proof.
  revert x. induction l as [|a l IH]; intro x; simpl.
  - split; [lra|constructor].
  - destruct (IH (Rmax x a)) as [H1 H2].
    pose proof (Rmax_l x a). pose proof (Rmax_r x a).
    split; [lra|]. constructor; [lra|exact H2].
Qed.

Lemma fold_Rmax_in (l : list R) (x : R) : In (fold_left Rmax l x) (x :: l).
Proof.
  revert x. induction l as [|a l IH]; intro x; simpl.
  - left. reflexivity.
  - destruct (IH (Rmax x a)) as [H|H].
    + unfold Rmax in H at 1. destruct (Rle_dec x a); auto.
    + right. right. exact H.
Qed.

Lemma fold_Rmin_bounds (l : list R) (x : R) :
  fold_left Rmin l x <= x /\ Forall (fun v => fold_left Rmin l x <= v) l.
Proof.
  revert x. induction l as [|a l IH]; intro x; simpl.
  - split; [lra|constructor].
  - destruct (IH (Rmin x a)) as [H1 H2].
    pose proof (Rmin_l x a). pose proof (Rmin_r x a).
    split; [lra|]. constructor; [lra|exact H2].
Qed.

Lemma fold_Rmin_in (l : list R) (x : R) : In (fold_left Rmin l x) (x :: l).
Proof.
  revert x. induction l as [|a l IH]; intro x; simpl.
  - left. reflexivity.
  - destruct (IH (Rmin x a)) as [H|H].
    + unfold Rmin in H at 1. destruct (Rle_dec x a); auto.
    + right. right. exact H.
Qed.

Lemma np_max_spec (l : list R) (d : R) :
  np_max l = Ok d -> In d l /\ Forall (fun v => v <= d) l.
Proof.
  destruct l as [|x l]; simpl; intro H; inversion H; subst.
  split; [apply fold_Rmax_in|].
  destruct (fold_Rmax_bounds l x). constructor; assumption.
Qed.

Lemma np_min_spec (l : list R) (d : R) :
  np_min l = Ok d -> In d l /\ Forall (fun v => d <= v) l.
Proof.
  destruct l as [|x l]; simpl; intro H; inversion H; subst.
  split; [apply fold_Rmin_in|].
  destruct (fold_Rmin_bounds l x). constructor; assumption.
Qed.

Lemma np_max_total (l : list R) : l <> [] -> exists d, np_max l = Ok d.
Proof. destruct l; [congruence|]. intros _. eexists. reflexivity. Qed.

Lemma np_min_total (l : list R) : l <> [] -> exists d, np_min l = Ok d.
Proof. destruct l; [congruence|]. intros _. eexists. reflexivity. Qed.

Lemma Forall_concat {A : Type} (P : A -> Prop) (ll : list (list A)) :
  Forall P (concat ll) <-> Forall (Forall P) ll.
Proof.
  induction ll as [|l ll IH]; simpl.
  - split; constructor.
  - rewrite Forall_app, IH. split.
    + intros [H1 H2]. constructor; assumption.
    + intro H. inversion H; subst. split; assumption.
Qed.

End Extrema.

(** ** The grid of a membrane *)

Lemma first_repeat {A : Type} (x : A) (n : nat) :
  n <> 0%nat -> first (repeat x n) = Ok x.
Proof. destruct n; [congruence|reflexivity]. Qed.

Lemma mapM_first_repeat {A : Type} (l : list A) (n : nat) :
  n <> 0%nat -> mapM (@first A) (map (fun y => repeat y n) l) = Ok l.
Proof.
  intro Hn. induction l as [|y l IH]; simpl; [reflexivity|].
  rewrite (first_repeat y Hn). simpl. rewrite IH. reflexivity.
Qed.

Lemma length_nonzero {A : Type} (l : list A) : l <> [] -> length l <> 0%nat.
Proof. destruct l; [congruence|discriminate]. Qed.

Lemma grid_xs (self : Membrane.t) (xs ys : list Q) :
  grid_ok self xs ys -> Membrane.xs self = Ok xs.
Proof.
  intros [Hx [Hy Hg]]. unfold Membrane.xs. rewrite Hg. simpl.
  apply first_repeat, length_nonzero, Hy.
Qed.

Lemma grid_ys (self : Membrane.t) (xs ys : list Q) :
  grid_ok self xs ys -> Membrane.ys self = Ok ys.
Proof.
  intros [Hx [Hy Hg]]. unfold Membrane.ys. rewrite Hg. simpl.
  apply mapM_first_repeat, length_nonzero, Hx.
Qed.

Lemma first_total {A : Type} (l : list A) : l <> [] -> exists x, first l = Ok x.
Proof. destruct l; [congruence|]. intros _. eexists. reflexivity. Qed.

Lemma last_elt_total {A : Type} (l : list A) :
  l <> [] -> exists x, last_elt l = Ok x.
Proof.
  intro H. apply first_total. intro Hr.
  apply (f_equal (@rev A)) in Hr. rewrite rev_involutive in Hr. auto.
Qed.

(** The chained comparison of [_add_source_to_list] decides
    [within_extents]. *)
Lemma inside_extents_spec (self : Membrane.t) (xs ys : list Q)
      (p : Membrane.pos) :
  grid_ok self xs ys ->
  exists b, Membrane.inside_extents self p = Ok b /\
            (b = true <-> within_extents xs ys p).
Proof.
  intro Hg. unfold Membrane.inside_extents, within_extents.
  rewrite (grid_xs Hg), (grid_ys Hg). simpl.
  destruct Hg as [Hx [Hy _]].
  destruct (first_total Hx) as [x0 Ex0], (last_elt_total Hx) as [x1 Ex1].
  destruct (first_total Hy) as [y0 Ey0], (last_elt_total Hy) as [y1 Ey1].
  rewrite Ex0. simpl.
  destruct (Qleb x0 (fst p)) eqn:C1.
  - rewrite Ex1. simpl. destruct (Qleb (fst p) x1) eqn:C2.
    + rewrite Ey0. simpl. destruct (Qleb y0 (snd p)) eqn:C3.
      * rewrite Ey1. simpl. eexists. split; [reflexivity|].
        split.
        -- intro C4. exists x0, x1, y0, y1.
           apply Qleb_le in C1, C2, C3, C4. repeat split; assumption.
        -- intros (a0 & a1 & b0 & b1 & _ & _ & _ & E & _ & _ & _ & H).
           inversion E; subst. apply Qleb_le, H.
      * exists false. split; [reflexivity|]. split; [discriminate|].
        intros (a0 & a1 & b0 & b1 & _ & _ & E & _ & _ & _ & H & _).
        inversion E; subst.
        apply Qleb_le in H. congruence.
    + exists false. split; [reflexivity|]. split; [discriminate|].
      intros (a0 & a1 & b0 & b1 & _ & E & _ & _ & _ & H & _ & _).
      inversion E; subst.
      apply Qleb_le in H. congruence.
  - exists false. split; [reflexivity|]. split; [discriminate|].
    intros (a0 & a1 & b0 & b1 & E & _ & _ & _ & H & _ & _ & _).
    inversion E; subst.
    apply Qleb_le in H. congruence.
Qed.

(** The distance field of a non-empty grid is not empty, and its values
    are not negative. *)
Lemma distance_field_nonempty (self : Membrane.t) (xs ys : list Q)
      (p : Membrane.pos) :
  grid_ok self xs ys -> concat (Membrane.distance_field self p) <> [].
Proof.
  intros [Hx [Hy Hg]]. unfold Membrane.distance_field. rewrite Hg.
  destruct xs as [|x xs]; [congruence|]. destruct ys as [|y ys]; [congruence|].
  simpl. discriminate.
Qed.

Lemma distance_field_nonneg (self : Membrane.t) (p : Membrane.pos) :
  Forall (Forall (fun v => (0 <= v)%R)) (Membrane.distance_field self p).
Proof.
  unfold Membrane.distance_field.
  apply Forall_forall. intros row Hrow.
  apply in_map_iff in Hrow. destruct Hrow as [rows [<- _]].
  apply Forall_forall. intros v Hv.
  apply in_map_iff in Hv. destruct Hv as [xy [<- _]].
  apply sqrt_pos.
Qed.

(** ** C6: the domain of a registered placement *)

Lemma placement_ok_same_grid (s1 s2 : Membrane.t) (xs ys : list Q)
      (pl : Membrane.placement) :
  Membrane.data_domain s1 = Membrane.data_domain s2 ->
  placement_ok s1 xs ys pl -> placement_ok s2 xs ys pl.
Proof.
  intro E. destruct pl as [[src p] dist]. unfold placement_ok.
  unfold Membrane.distance_field. rewrite E. auto.
Qed.

Lemma grid_ok_same_grid (s1 s2 : Membrane.t) (xs ys : list Q) :
  Membrane.data_domain s1 = Membrane.data_domain s2 ->
  grid_ok s1 xs ys -> grid_ok s2 xs ys.
Proof. unfold grid_ok. intros <-. auto. Qed.

(** On a membrane with a non-empty grid, [_add_source_to_list] does not
    raise: it appends one placement, whose clone has the space boundary
    [(d_min, d_max)]. *)
Lemma add_source_to_list_spec (self : Membrane.t) (xs ys : list Q)
      (source : Wavepacket.t) (p : Membrane.pos) (reflected : bool) :
  grid_ok self xs ys ->
  exists (d_min d_max : R) (pl : Membrane.placement),
    pl = (Membrane.bind_source self source d_min d_max, p,
          Membrane.distance_field self p) /\
    (0 <= d_max)%R /\
    placement_ok self xs ys pl /\ snd (fst pl) = p /\
    Membrane._add_source_to_list source p reflected self
    = ((if reflected
        then Membrane.with_reflected_sources
               (Membrane._reflected_sources self ++ [pl]) self
        else Membrane.with_sources (Membrane._sources self ++ [pl]) self),
       Ok tt).
Proof.
  intro Hg.
  pose proof (distance_field_nonempty p Hg) as Hne.
  destruct (np_max_total Hne) as [d_max Emax].
  destruct (np_min_total Hne) as [m Emin].
  destruct (inside_extents_spec p Hg) as [b [Eb Hb]].
  apply np_max_spec in Emax as Hmax. apply np_min_spec in Emin as Hmin.
  pose proof (distance_field_nonneg self p) as Hpos.
  set (d_min := if b then 0%R else m).
  exists d_min, d_max,
    (Membrane.bind_source self source d_min d_max, p,
     Membrane.distance_field self p).
  split; [reflexivity|]. split.
  { destruct Hmax as [Hin _]. apply Forall_concat in Hpos.
    rewrite Forall_forall in Hpos. apply Hpos, Hin. }
  split; [|split; [reflexivity|]].
  - split; [reflexivity|]. exists d_min, d_max.
    split; [reflexivity|]. split; [exact Hmax|].
    split; [|split].
    + intro Hin. apply Hb in Hin. subst d_min. rewrite Hin. reflexivity.
    + intro Hout. subst d_min. destruct b; [|exact Hmin].
      exfalso. apply Hout, Hb. reflexivity.
    + apply Forall_concat. destruct Hmax as [_ Hmax], Hmin as [_ Hmin].
      apply Forall_concat in Hpos.
      rewrite Forall_forall in *. intros v Hv.
      specialize (Hmax v Hv). specialize (Hmin v Hv). specialize (Hpos v Hv).
      subst d_min. destruct b; split; assumption.
  - unfold Membrane._add_source_to_list, bindM, gets, lift, ret, modify.
    rewrite Emax, Eb. subst d_min.
    destruct b; [|rewrite Emin]; destruct reflected; reflexivity.
Qed.

Lemma forM_add_reflected (source : Wavepacket.t) (xs ys : list Q)
      (l : list Membrane.pos) :
  forall self : Membrane.t,
    grid_ok self xs ys ->
    exists pls,
      Forall (placement_ok self xs ys) pls /\
      map (fun pl : Membrane.placement => snd (fst pl)) pls = l /\
      forM_ l (fun q => Membrane._add_source_to_list source q true) self
      = (Membrane.with_reflected_sources
           (Membrane._reflected_sources self ++ pls) self, Ok tt).
Proof.
  induction l as [|q l IH]; intros self Hg.
  - exists []. split; [constructor|]. split; [reflexivity|].
    simpl. unfold ret. rewrite app_nil_r. destruct self; reflexivity.
  - destruct (add_source_to_list_spec source q true Hg)
      as (dmin & dmax & pl & _ & _ & Hpl & Hq & E).
    set (s1 := Membrane.with_reflected_sources
                 (Membrane._reflected_sources self ++ [pl]) self) in *.
    assert (Hg1 : grid_ok s1 xs ys)
      by (apply grid_ok_same_grid with (s1 := self); [reflexivity|exact Hg]).
    destruct (IH s1 Hg1) as [pls [Hpls [Hmap E1]]].
    exists (pl :: pls). split; [|split].
    + constructor; [exact Hpl|].
      eapply Forall_impl; [|exact Hpls].
      intros a Ha. apply placement_ok_same_grid with (s1 := s1); [reflexivity|exact Ha].
    + simpl. rewrite Hq, Hmap. reflexivity.
    + simpl. unfold bindM at 1. rewrite E, E1. subst s1. simpl.
      rewrite <- app_assoc. reflexivity.
Qed.

Lemma add_source_spec (self : Membrane.t) (xs ys : list Q)
      (source : Wavepacket.t) (p : Membrane.pos) :
  grid_ok self xs ys ->
  exists (d_min d_max : R) real reflected r,
    real = (Membrane.bind_source self source d_min d_max, p,
            Membrane.distance_field self p) /\
    (0 <= d_max)%R /\
    (Membrane._boundary self = PyStr "transparent" ->
     reflected = [] /\ r = Ok tt) /\
    Membrane.add_source source p self
    = (Membrane.with_reflected_sources
         (Membrane._reflected_sources self ++ reflected)
         (Membrane.with_sources (Membrane._sources self ++ [real]) self), r) /\
    snd (fst real) = p /\
    Forall (placement_ok self xs ys) (real :: reflected).
Proof.
  intros Hg.
  destruct (add_source_to_list_spec source p false Hg)
    as (dmin & dmax & pl & Epl & Hdmax & Hpl & Hp & E).
  exists dmin, dmax.
  set (s1 := Membrane.with_sources (Membrane._sources self ++ [pl]) self) in *.
  assert (Hg1 : grid_ok s1 xs ys)
    by (apply grid_ok_same_grid with (s1 := self); [reflexivity|exact Hg]).
  assert (Hnil : forall r : result unit,
             (s1, r)
             = (Membrane.with_reflected_sources
                  (Membrane._reflected_sources self ++ [])
                  (Membrane.with_sources (Membrane._sources self ++ [pl]) self),
                r))
    by (intro r; rewrite app_nil_r; subst s1; destruct self; reflexivity).
  exists pl.
  unfold Membrane.add_source. unfold bindM at 1. rewrite E.
  unfold bindM at 1. unfold gets at 1.
  destruct (py_eq_str (Membrane._boundary s1) "transparent") eqn:Etr.
  { exists [], (Ok tt). unfold ret.
    repeat split; auto; try apply Hnil. }
  assert (Hnt : Membrane._boundary self <> PyStr "transparent").
  { intro Hb. subst s1. cbn in Etr. rewrite Hb in Etr. discriminate Etr. }
  destruct (py_eq_str (Membrane._boundary s1) "free"
            || isinstance_int (Membrane._boundary s1)).
  2:{ exists [], (Ok tt). unfold ret.
      repeat split; auto; try contradiction; try apply Hnil. }
  unfold bindM at 1. unfold lift at 1.
  destruct (Membrane._reflect_position s1 p) as [rp|e].
  2:{ exists [], (Raise e).
      repeat split; auto; try contradiction; try apply Hnil. }
  unfold bindM at 1. unfold lift at 1.
  destruct (match int_value (Membrane._boundary s1) with
            | Some N => Membrane.rounds s1 (Z.to_nat (N - 1)) rp rp
            | None => Ok rp
            end) as [rp'|e].
  2:{ exists [], (Raise e).
      repeat split; auto; try contradiction; try apply Hnil. }
  destruct (forM_add_reflected source rp' Hg1) as [pls [Hpls [_ E1]]].
  rewrite E1. exists pls, (Ok tt).
  split; [exact Epl|]. split; [exact Hdmax|].
  split; [intro Hb; contradiction|].
  split; [reflexivity|]. split; [exact Hp|].
  constructor; [exact Hpl|].
  eapply Forall_impl; [|exact Hpls].
  intros a Ha.
  apply placement_ok_same_grid with (s1 := s1); [reflexivity|exact Ha].
Qed.

Lemma add_source_grid_ok (self : Membrane.t) (xs ys : list Q)
      (source : Wavepacket.t) (p : Membrane.pos) :
  grid_ok self xs ys ->
  grid_ok (fst (Membrane.add_source source p self)) xs ys.
Proof.
  intro Hg.
  destruct (add_source_spec source p Hg)
    as (dmin & dmax & real & refl & r & _ & _ & _ & E & _).
  rewrite E. simpl.
  apply grid_ok_same_grid with (s1 := self); [reflexivity|exact Hg].
Qed.

Lemma forM_add_source_grid_ok (xs ys : list Q)
      (l : list (Wavepacket.t * Membrane.pos)) :
  forall self : Membrane.t,
    grid_ok self xs ys ->
    grid_ok (fst (forM_ l (fun sp => Membrane.add_source (fst sp) (snd sp)) self))
            xs ys.
Proof.
  induction l as [|[src p] l IH]; intros self Hg; simpl; [exact Hg|].
  unfold bindM.
  pose proof (add_source_grid_ok src p Hg) as H1.
  destruct (Membrane.add_source src p self) as [s1 [[]|e]]; simpl in *.
  - apply IH, H1.
  - exact H1.
Qed.

(** Every membrane the constructor returns has a non-empty grid. *)
Lemma init_grid_ok (fs dx : Q) (size : Q * Q) (T : Membrane.time_arg)
      (sources : option (list (Wavepacket.t * Membrane.pos)))
      (normalize : bool) (boundary : pyval) (self : Membrane.t) :
  Membrane.init fs dx size T sources normalize boundary = Ok self ->
  exists xs ys, grid_ok self xs ys.
Proof.
  unfold Membrane.init.
  destruct (Membrane.check_domain size) as [xylims|]; cbn [bind]; [|discriminate].
  destruct (Membrane.check_boundary boundary) as [b|]; cbn [bind]; [|discriminate].
  cbn [bind].
  destruct (Membrane.arange 0 (snd (fst xylims)) dx) as [ux|]; cbn [bind]; [|discriminate].
  destruct (Membrane.arange 0 (snd (snd xylims)) dx) as [uy|]; cbn [bind]; [|discriminate].
  cbn [bind].
  set (hx := Membrane.flip_and_hstack ux).
  set (hy := Membrane.flip_and_hstack uy).
  unfold Membrane.xs, Membrane.ys.
  cbn [Membrane.data_domain fst snd Membrane.meshgrid].
  destruct hy as [|y0 hy']; [cbn; discriminate|].
  rewrite first_repeat by discriminate. cbn [bind].
  destruct hx as [|x0 hx']; [cbn; discriminate|].
  rewrite mapM_first_repeat by discriminate.
  destruct (last_elt (x0 :: hx')) as [x1|]; cbn [bind]; [|discriminate].
  destruct (last_elt (y0 :: hy')) as [y1|]; cbn [bind]; [|discriminate].
  cbn [bind].
  destruct (Membrane.check_domain _) as [xylims'|]; cbn [bind]; [|discriminate].
  cbn [bind].
  set (self0 := Membrane.mk fs dx (Membrane.check_time T) xylims' _ None b
                            normalize [] []).
  assert (Hg : grid_ok self0 (x0 :: hx') (y0 :: hy'))
    by (repeat split; discriminate).
  destruct sources as [l|].
  - pose proof (forM_add_source_grid_ok l Hg) as Hf.
    destruct (forM_ l _ self0) as [s' [[]|e]]; cbn [bind]; [|discriminate].
    intro H. inversion H; subst. eauto.
  - intro H. inversion H; subst. eauto.
Qed.

(** ** The discretizer *)

Section Discretize.

Local Open Scope R_scope.

Lemma zrange_cons (k0 k1 : Z) :
  (k0 <= k1)%Z -> BaseWave.zrange k0 k1 = k0 :: BaseWave.zrange (k0 + 1) k1.
Proof.
  intro H. unfold BaseWave.zrange.
  replace (Z.to_nat (k1 - k0 + 1)) with (S (Z.to_nat (k1 - (k0 + 1) + 1)))
    by lia.
  simpl. f_equal; [lia|].
  rewrite <- seq_shift, map_map. apply map_ext. intro i. lia.
Qed.

Lemma zrange_nil (k0 k1 : Z) : (k1 < k0)%Z -> BaseWave.zrange k0 k1 = [].
Proof.
  intro H. unfold BaseWave.zrange.
  replace (Z.to_nat (k1 - k0 + 1)) with 0%nat by lia. reflexivity.
Qed.

Lemma zrange_length (k0 k1 : Z) :
  length (BaseWave.zrange k0 k1) = Z.to_nat (k1 - k0 + 1).
Proof. unfold BaseWave.zrange. rewrite length_map, length_seq. reflexivity. Qed.

Lemma zrange_first (k0 k1 : Z) :
  (k0 <= k1)%Z -> first (BaseWave.zrange k0 k1) = Ok k0.
Proof. intro H. rewrite zrange_cons by exact H. reflexivity. Qed.

Lemma zrange_last (k0 k1 : Z) :
  (k0 <= k1)%Z -> last_elt (BaseWave.zrange k0 k1) = Ok k1.
Proof.
  intro H. unfold last_elt, BaseWave.zrange.
  replace (Z.to_nat (k1 - k0 + 1)) with (S (Z.to_nat (k1 - k0))) by lia.
  rewrite seq_S, map_app, rev_app_distr. simpl. f_equal. lia.
Qed.

Lemma first_map {A B : Type} (f : A -> B) (l : list A) :
  first (map f l) = x <- first l ;; Ok (f x).
Proof. destruct l; reflexivity. Qed.

Lemma last_elt_map {A B : Type} (f : A -> B) (l : list A) :
  last_elt (map f l) = x <- last_elt l ;; Ok (f x).
Proof. unfold last_elt. rewrite <- map_rev. apply first_map. Qed.

(** The realized bounds of a non-empty axis are the multiples of the step
    at the two ends of the index range. *)
Lemma discretize_bounds (lims : R * R) (step t0 t1 : R) :
  first (BaseWave._discretize lims step) = Ok t0 ->
  last_elt (BaseWave._discretize lims step) = Ok t1 ->
  (Zfloor (fst lims / step) <= Zceil (snd lims / step))%Z /\
  t0 = IZR (Zfloor (fst lims / step)) * step /\
  t1 = IZR (Zceil (snd lims / step)) * step.
Proof.
  unfold BaseWave._discretize. rewrite first_map, last_elt_map.
  set (k0 := Zfloor (fst lims / step)). set (k1 := Zceil (snd lims / step)).
  destruct (Z_le_gt_dec k0 k1) as [Hle|Hgt].
  - rewrite zrange_first, zrange_last by exact Hle. simpl.
    intros H0 H1. inversion H0. inversion H1. auto.
  - rewrite zrange_nil by lia. discriminate.
Qed.

Lemma Zceil_IZR (k : Z) : Zceil (IZR k) = k.
Proof. apply Zceil_eq. lra. Qed.

(** Discretizing the realized bounds again gives the same axis. *)
Lemma discretize_idempotent (lims : R * R) (step t0 t1 : R) :
  first (BaseWave._discretize lims step) = Ok t0 ->
  last_elt (BaseWave._discretize lims step) = Ok t1 ->
  BaseWave._discretize (t0, t1) step = BaseWave._discretize lims step.
Proof.
  intros H0 H1.
  destruct (discretize_bounds _ _ H0 H1) as [Hle [-> ->]].
  unfold BaseWave._discretize. cbn [fst snd].
  destruct (Req_dec_T step 0) as [->|Hs].
  - rewrite !Rdiv_0_r. reflexivity.
  - replace (IZR (Zfloor (fst lims / step)) * step / step)
      with (IZR (Zfloor (fst lims / step))) by (field; exact Hs).
    replace (IZR (Zceil (snd lims / step)) * step / step)
      with (IZR (Zceil (snd lims / step))) by (field; exact Hs).
    rewrite Zceil_IZR, ZfloorZ. reflexivity.
Qed.


(** An axis that starts at [0] is not empty when the upper limit and the
    step are not negative. *)
Lemma discretize_from_zero (hi step : R) :
  0 <= hi -> 0 < step -> BaseWave._discretize (0, hi) step <> [].
Proof.
  intros Hhi Hstep. unfold BaseWave._discretize. cbn [fst snd].
  rewrite Rdiv_0_l.
  replace (Zfloor 0) with 0%Z by (symmetry; apply (ZfloorZ 0)).
  assert (0 <= Zceil (hi / step))%Z.
  { apply le_IZR. pose proof (Zceil_bound (hi / step)) as [_ Hc].
    assert (0 <= hi / step).
    { apply Rmult_le_pos; [exact Hhi|]. left. apply Rinv_0_lt_compat, Hstep. }
    lra. }
  rewrite zrange_cons by assumption. discriminate.
Qed.

End Discretize.

(** ** Wavepacket.eval *)

Section WavepacketEval.

Variable complex_wave : (R -> R) -> R -> list R -> list R -> cfield2.

Ltac red_eval :=
  unfold Wavepacket.with_results, Wavepacket.with_space_boundary,
    Wavepacket.with_time_boundary, Wavepacket.with_x_vect,
    Wavepacket.with_time_vect in *;
  cbn -[Wavepacket.accumulate Wavepacket.normalizing zeros2
        BaseWave._discretize Wavepacket.apply_envelope first last_elt] in *.

(** The object a successful evaluation leaves. *)
Lemma wavepacket_eval_ok (w w' : Wavepacket.t) :
  Wavepacket.eval complex_wave false w = (w', Ok tt) <->
  exists t0 t1 x0 x1 acc nd,
    let tv := BaseWave._discretize (Wavepacket.time_boundary w)
                                   (Wavepacket.dt w) in
    let xv := BaseWave._discretize (Wavepacket.space_boundary w)
                                   (Wavepacket.dx w) in
    let w3 := Wavepacket.mk
                (Wavepacket.fs w) (Wavepacket.dx w)
                (Wavepacket._freq_spectrum w) (Wavepacket._disprel w)
                (Wavepacket._envelope_func w) (t0, t1) (x0, x1)
                (Wavepacket.normalize w) tv xv (Wavepacket.complex_data w) in
    first tv = Ok t0 /\ last_elt tv = Ok t1 /\
    first xv = Ok x0 /\ last_elt xv = Ok x1 /\
    Wavepacket.accumulate complex_wave w3 (zeros2 (length tv) (length xv))
    = Ok acc /\
    Wavepacket.normalizing (Wavepacket.normalize w) acc = Ok nd /\
    w' = Wavepacket.with_results
           (Some (Wavepacket.apply_envelope (Wavepacket._envelope_func w) xv nd))
           w3.
Proof.
  unfold Wavepacket.eval, bindM, gets, modify, lift, Wavepacket.space_boundary.
  red_eval.
  destruct (first (BaseWave._discretize (Wavepacket.time_boundary w)
                                        (Wavepacket.dt w))) as [t0|e0]; red_eval.
  2:{ split; [intro Hd; discriminate Hd|]. intros (? & ? & ? & ? & ? & ? & H & _).
      discriminate H. }
  destruct (last_elt (BaseWave._discretize (Wavepacket.time_boundary w)
                                           (Wavepacket.dt w))) as [t1|e1]; red_eval.
  2:{ split; [intro Hd; discriminate Hd|]. intros (? & ? & ? & ? & ? & ? & _ & H & _).
      discriminate H. }
  destruct (first (BaseWave._discretize (Wavepacket._xlim w)
                                        (Wavepacket.dx w))) as [x0|e2]; red_eval.
  2:{ split; [intro Hd; discriminate Hd|]. intros (? & ? & ? & ? & ? & ? & _ & _ & H & _).
      discriminate H. }
  destruct (last_elt (BaseWave._discretize (Wavepacket._xlim w)
                                           (Wavepacket.dx w))) as [x1|e3]; red_eval.
  2:{ split; [intro Hd; discriminate Hd|].
      intros (? & ? & ? & ? & ? & ? & _ & _ & _ & H & _). discriminate H. }
  match goal with
  | |- context [Wavepacket.accumulate complex_wave ?s ?z] =>
      destruct (Wavepacket.accumulate complex_wave s z) as [acc|e4] eqn:Eacc
  end; red_eval.
  2:{ split; [intro Hd; discriminate Hd|].
      intros (a0 & a1 & b0 & b1 & acc & nd & E0 & E1 & E2 & E3 & H & _).
      inversion E0; inversion E1; inversion E2; inversion E3; subst.
      congruence. }
  destruct (Wavepacket.normalizing (Wavepacket.normalize w) acc)
    as [nd|e5] eqn:End; red_eval.
  2:{ split; [intro Hd; discriminate Hd|].
      intros (a0 & a1 & b0 & b1 & acc' & nd & E0 & E1 & E2 & E3 & H & H' & _).
      inversion E0; inversion E1; inversion E2; inversion E3; subst.
      congruence. }
  split.
  - intro H. inversion H; subst.
    exists t0, t1, x0, x1, acc, nd. repeat split; auto.
  - intros (a0 & a1 & b0 & b1 & acc' & nd' & E0 & E1 & E2 & E3 & H & H' & ->).
    inversion E0; inversion E1; inversion E2; inversion E3; subst.
    rewrite Eacc in H. inversion H; subst.
    rewrite End in H'. inversion H'; subst. reflexivity.
Qed.

(** Evaluating a purged wavepacket again leaves the object of the first
    evaluation: the realized bounds reproduce the two axes. *)
Lemma wavepacket_eval_again (w w1 : Wavepacket.t) :
  Wavepacket.eval complex_wave false w = (w1, Ok tt) ->
  Wavepacket.eval complex_wave false (Wavepacket.purge_data w1) = (w1, Ok tt).
Proof.
  intro H. apply wavepacket_eval_ok in H.
  destruct H as (t0 & t1 & x0 & x1 & acc & nd & E0 & E1 & E2 & E3 & Ea & En & ->).
  apply wavepacket_eval_ok.
  exists t0, t1, x0, x1, acc, nd.
  unfold Wavepacket.purge_data, Wavepacket.space_boundary, Wavepacket.dt in *.
  red_eval.
  rewrite (discretize_idempotent _ _ E0 E1).
  rewrite (discretize_idempotent _ _ E2 E3).
  repeat split; auto.
Qed.

End WavepacketEval.

(** ** C6: the domain of a registered placement, and the axis made of it *)





(** ** Membrane.eval *)

Section MembraneEval.

Variable complex_wave : (R -> R) -> R -> list R -> list R -> cfield2.
Variable interp : field2 -> list R -> field2 -> field3.

Lemma run_sources_length (todo : list Membrane.placement) :
  forall data,
    length (fst (Membrane.run_sources complex_wave interp todo data))
    = length todo.
Proof.
  induction todo as [|[[src p] dist] rest IH]; intro data; simpl;
    [reflexivity|].
  destruct (Wavepacket.eval complex_wave false src) as [src1 [[]|e]];
    [|reflexivity].
  destruct (src_data <- match Wavepacket.get_data src1 with
                        | Some d => Ok d
                        | None => Raise TypeError
                        end ;;
            iadd_3 data (interp dist (Wavepacket.get_space src1) src_data))
    as [data1|e]; [|reflexivity].
  specialize (IH data1).
  destruct (Membrane.run_sources complex_wave interp rest data1).
  simpl in *. rewrite IH. reflexivity.
Qed.

(** A loop that succeeded leaves placements on which it succeeds again,
    with the same accumulator and the same placements. *)
Lemma run_sources_again (todo : list Membrane.placement) :
  forall data pls data',
    Membrane.run_sources complex_wave interp todo data = (pls, Ok data') ->
    Membrane.run_sources complex_wave interp pls data = (pls, Ok data').
Proof.
  induction todo as [|[[src p] dist] rest IH]; intros data pls data' H;
    simpl in H.
  - inversion H; subst. reflexivity.
  - destruct (Wavepacket.eval complex_wave false src) as [src1 [[]|e]] eqn:Ee;
      [|discriminate H].
    destruct (src_data <- match Wavepacket.get_data src1 with
                          | Some d => Ok d
                          | None => Raise TypeError
                          end ;;
              iadd_3 data (interp dist (Wavepacket.get_space src1) src_data))
      as [data1|e] eqn:Ef; [|discriminate H].
    destruct (Membrane.run_sources complex_wave interp rest data1)
      as [rest' r] eqn:Er.
    inversion H; subst.
    cbn [Membrane.run_sources].
    rewrite (@wavepacket_eval_again _ _ _ Ee), Ef, (IH _ _ _ Er).
    reflexivity.
Qed.

Lemma firstn_length_firstn {A : Type} (n : nat) (l : list A) :
  firstn (length (firstn n l)) l = firstn n l.
Proof.
  rewrite length_firstn. destruct (Nat.le_ge_cases n (length l)) as [H|H].
  - rewrite Nat.min_l by exact H. reflexivity.
  - rewrite Nat.min_r by exact H. rewrite !firstn_all2; auto.
Qed.

Lemma skipn_length_firstn {A : Type} (n : nat) (l : list A) :
  skipn (length (firstn n l)) l = skipn n l.
Proof.
  rewrite length_firstn. destruct (Nat.le_ge_cases n (length l)) as [H|H].
  - rewrite Nat.min_l by exact H. reflexivity.
  - rewrite Nat.min_r by exact H. rewrite !skipn_all2; auto.
Qed.

(** What [eval] returns, by cases on the steps that can raise. *)
Lemma membrane_eval_cases (self self' : Membrane.t) (r : result unit) :
  Membrane.eval complex_wave interp self = (self', r) ->
  (exists e, r = Raise e /\ self' = self) \/
  exists xs ys pls rs,
    Membrane.xs self = Ok xs /\ Membrane.ys self = Ok ys /\
    Membrane.run_sources
      complex_wave interp
      (Membrane._sources self ++ Membrane._reflected_sources self)
      (zeros3 (length xs) (length ys) (length (Membrane.get_time self)))
    = (pls, rs) /\
    ((exists e, rs = Raise e /\ r = Raise e /\
                self' = Membrane.with_placements pls self) \/
     (exists data e, rs = Ok data /\
                     Membrane.normalizing (Membrane.normalize self) data
                     = Raise e /\
                     r = Raise e /\
                     self' = Membrane.with_placements pls self) \/
     (exists data nd, rs = Ok data /\
                      Membrane.normalizing (Membrane.normalize self) data
                      = Ok nd /\
                      r = Ok tt /\
                      self' = Membrane.with_results
                                (Some nd)
                                (Membrane.with_placements pls self))).
Proof.
  unfold Membrane.eval, bindM, gets, lift.
  destruct (Membrane.xs self) as [xs|e]; [|intro H; inversion H; eauto].
  destruct (Membrane.ys self) as [ys|e]; [|intro H; inversion H; eauto].
  destruct (Membrane.run_sources _ _ _ _) as [pls rs] eqn:Er.
  intro H. right. exists xs, ys, pls, rs.
  split; [reflexivity|]. split; [reflexivity|]. split; [exact Er|].
  destruct rs as [data|e].
  - change (Membrane.normalize (Membrane.with_placements pls self))
      with (Membrane.normalize self) in H.
    destruct (Membrane.normalizing (Membrane.normalize self) data)
      as [nd|e] eqn:En; inversion H; subst.
    + right. right. exists data, nd. auto.
    + right. left. exists data, e. auto.
  - inversion H; subst. left. exists e. auto.
Qed.

End MembraneEval.

(** ** C7: the results are published last *)

(** C7.  Whatever [eval] returns, the accumulator reaches [results] only
    at the end of a run without exception: when [eval] raises, [get_data]
    returns what it returned before the call; when it succeeds, [get_data]
    returns the normalised accumulator the loop has produced over all the
    placements. *)
Theorem C7_results_published_last
        (complex_wave : (R -> R) -> R -> list R -> list R -> cfield2)
        (interp : field2 -> list R -> field2 -> field3)
        (self self' : Membrane.t) (r : result unit) :
  Membrane.eval complex_wave interp self = (self', r) ->
  match r with
  | Raise _ => Membrane.get_data self' = Membrane.get_data self
  | Ok _ =>
      exists xs ys pls data nd,
        Membrane.xs self = Ok xs /\ Membrane.ys self = Ok ys /\
        Membrane.run_sources
          complex_wave interp
          (Membrane._sources self ++ Membrane._reflected_sources self)
          (zeros3 (length xs) (length ys) (length (Membrane.get_time self)))
        = (pls, Ok data) /\
        Membrane.normalizing (Membrane.normalize self) data = Ok nd /\
        Membrane.get_data self' = Some nd
  end.
Proof.
  intro H. apply membrane_eval_cases in H.
  destruct H as [(e & -> & ->)|(xs & ys & pls & rs & Ex & Ey & Er & H)];
    [reflexivity|].
  destruct H as [(e & -> & -> & ->)|[(data & e & -> & En & -> & ->)
                                    |(data & nd & -> & En & -> & ->)]];
    try reflexivity.
  exists xs, ys, pls, data, nd. auto.
Qed.

(** ** C9: evaluating twice *)

(** C9.  After an [eval] that succeeded, a second [eval] on the same
    membrane succeeds and leaves the object, and so its [results], as the
    first one left them. *)
Theorem C9_eval_idempotent
        (complex_wave : (R -> R) -> R -> list R -> list R -> cfield2)
        (interp : field2 -> list R -> field2 -> field3)
        (self self1 : Membrane.t) :
  Membrane.eval complex_wave interp self = (self1, Ok tt) ->
  exists self2,
    Membrane.eval complex_wave interp self1 = (self2, Ok tt) /\
    Membrane.get_data self2 = Membrane.get_data self1 /\
    self2 = self1.
Proof.
  intro H. apply membrane_eval_cases in H.
  destruct H as [(e & He & _)|(xs & ys & pls & rs & Ex & Ey & Er & H)];
    [discriminate He|].
  destruct H as [(e & _ & He & _)|[(data & e & _ & _ & He & _)
                                  |(data & nd & -> & En & _ & ->)]];
    try discriminate He.
  exists (Membrane.with_results (Some nd) (Membrane.with_placements pls self)).
  split; [|split; reflexivity].
  apply run_sources_again in Er.
  unfold Membrane.eval, bindM, gets, lift.
  change (Membrane.xs (Membrane.with_results
                         (Some nd) (Membrane.with_placements pls self)))
    with (Membrane.xs self).
  change (Membrane.ys (Membrane.with_results
                         (Some nd) (Membrane.with_placements pls self)))
    with (Membrane.ys self).
  rewrite Ex, Ey.
  change (Membrane.get_time (Membrane.with_results
                               (Some nd) (Membrane.with_placements pls self)))
    with (Membrane.get_time self).
  cbn [Membrane._sources Membrane._reflected_sources Membrane.with_results
       Membrane.with_placements Membrane.with_reflected_sources
       Membrane.with_sources].
  rewrite firstn_skipn, Er.
  unfold Membrane.with_placements, Membrane.with_results,
    Membrane.with_reflected_sources, Membrane.with_sources.
  cbn [Membrane._sources Membrane._reflected_sources Membrane.normalize
       Membrane.fs Membrane.dx Membrane.time Membrane._xylims
       Membrane.data_domain Membrane.data_results Membrane._boundary].
  rewrite En, firstn_length_firstn, skipn_length_firstn. reflexivity.
Qed.

(** ** Shapes *)

Section Shapes.

Lemma mapM_ok {A B : Type} (f : A -> result B) (Q : A -> B -> Prop)
      (l : list A) :
  Forall (fun x => exists y, f x = Ok y /\ Q x y) l ->
  exists r, mapM f l = Ok r /\ Forall2 Q l r.
Proof.
  induction 1 as [|x l (y & Ey & Hy) _ (r & Er & Hr)]; simpl.
  - exists []. split; [reflexivity|constructor].
  - rewrite Ey. simpl. rewrite Er. simpl.
    exists (y :: r). split; [reflexivity|constructor; assumption].
Qed.

Lemma zipM_ok {A B : Type} (f : A -> B -> result A)
      (P : A -> B -> Prop) (Q : A -> A -> Prop) :
  (forall x y, P x y -> exists x', f x y = Ok x' /\ Q x x') ->
  forall l1 l2, Forall2 P l1 l2 ->
                exists r, zipM f l1 l2 = Ok r /\ Forall2 Q l1 r.
Proof.
  intros Hf l1 l2. induction 1 as [|x y l1 l2 Hxy _ (r & Er & Hr)]; simpl.
  - exists []. split; [reflexivity|constructor].
  - destruct (Hf x y Hxy) as (x' & Ex & Hx). rewrite Ex. simpl.
    rewrite Er. simpl.
    exists (x' :: r). split; [reflexivity|constructor; assumption].
Qed.

Lemma bcast_ok {A B : Type} (f : A -> B -> result A)
      (P : A -> B -> Prop) (Q : A -> A -> Prop) :
  (forall x y, P x y -> exists x', f x y = Ok x' /\ Q x x') ->
  forall data other, Forall2 P data other ->
                     exists r, bcast f data other = Ok r /\ Forall2 Q data r.
Proof.
  intros Hf data other H. pose proof (Forall2_length H) as Hlen.
  unfold bcast. destruct other as [|y [|y' other]].
  - inversion H; subst. exists []. split; [reflexivity|constructor].
  - inversion H as [|x y0 l1 l2 Hxy Hrest]; subst. inversion Hrest; subst.
    apply mapM_ok. constructor; [|constructor]. apply Hf, Hxy.
  - rewrite Hlen, Nat.eqb_refl. apply zipM_ok with (P := P); assumption.
Qed.

Lemma Forall2_of_Forall {A B : Type} (P : A -> B -> Prop)
      (PA : A -> Prop) (PB : B -> Prop) (l1 : list A) (l2 : list B) :
  (forall x y, PA x -> PB y -> P x y) ->
  length l1 = length l2 -> Forall PA l1 -> Forall PB l2 -> Forall2 P l1 l2.
Proof.
  intro HP. revert l2. induction l1 as [|x l1 IH]; intros [|y l2] Hlen H1 H2;
    try discriminate Hlen; constructor.
  - inversion H1; inversion H2; subst. auto.
  - inversion H1; inversion H2; subst. apply IH; auto.
Qed.

Lemma Forall2_right {A : Type} (Q : A -> A -> Prop) (PA : A -> Prop)
      (l r : list A) :
  (forall x x', PA x -> Q x x' -> PA x') ->
  Forall PA l -> Forall2 Q l r -> Forall PA r.
Proof.
  intros HQ Hl H. induction H; constructor; inversion Hl; subst; eauto.
Qed.

Lemma row_add_ok {A : Type} (g : A -> A -> A) (x y : list A) :
  same_length x y ->
  exists x', bcast (fun a b => Ok (g a b)) x y = Ok x' /\ same_length x x'.
Proof.
  intro H.
  destruct (@bcast_ok A A (fun a b => Ok (g a b)) (fun _ _ => True)
                      (fun _ _ => True)) with (data := x) (other := y)
    as (r & Er & Hr).
  - intros a b _. eauto.
  - apply Forall2_of_Forall with (PA := fun _ => True) (PB := fun _ => True);
      auto; apply Forall_forall; auto.
  - exists r. split; [exact Er|]. apply (Forall2_length Hr).
Qed.

Lemma plane_add_ok {A : Type} (g : A -> A -> A) (n m : nat)
      (a b : list (list A)) :
  has_shape2 a n m -> has_shape2 b n m ->
  exists r, bcast (bcast (fun x y => Ok (g x y))) a b = Ok r /\
            has_shape2 r n m.
Proof.
  intros [La Ha] [Lb Hb].
  destruct (@bcast_ok _ _ (bcast (fun x y => Ok (g x y)))
                      (@same_length A A)
                      (fun x x' => length x' = length x))
    with (data := a) (other := b) as (r & Er & Hr).
  - intros x y Hxy. destruct (row_add_ok g Hxy) as (x' & Ex & Hx).
    exists x'. split; [exact Ex|]. symmetry. exact Hx.
  - apply Forall2_of_Forall
      with (PA := fun row => length row = m) (PB := fun row => length row = m);
      try assumption; [|congruence].
    intros x y Hx Hy. unfold same_length. congruence.
  - exists r. split; [exact Er|]. split.
    + rewrite <- (Forall2_length Hr). exact La.
    + apply Forall2_right
        with (Q := fun x x' : list A => length x' = length x) (l := a);
        try assumption.
      intros x x' Hx Hx'. congruence.
Qed.

Lemma iadd_c2_shape (n m : nat) (a b : cfield2) :
  has_shape2 a n m -> has_shape2 b n m ->
  exists r, iadd_c2 a b = Ok r /\ has_shape2 r n m.
Proof. apply plane_add_ok. Qed.

Lemma iadd_3_shape (n m k : nat) (a b : field3) :
  has_shape3 a n m k -> has_shape3 b n m k ->
  exists r, iadd_3 a b = Ok r /\ has_shape3 r n m k.
Proof.
  intros [La Ha] [Lb Hb]. unfold iadd_3.
  destruct (@bcast_ok _ _ (bcast (bcast (fun x y => Ok (x + y)%R)))
                      (fun x y : field2 => has_shape2 x m k /\ has_shape2 y m k)
                      (fun x x' : field2 => has_shape2 x' m k))
    with (data := a) (other := b) as (r & Er & Hr).
  - intros x y [Hx Hy]. destruct (plane_add_ok Rplus Hx Hy) as (x' & Ex & Hx').
    exists x'. split; assumption.
  - apply Forall2_of_Forall
      with (PA := fun pl : field2 => has_shape2 pl m k)
           (PB := fun pl : field2 => has_shape2 pl m k);
      try assumption;
      [|transitivity n; [exact La|symmetry; exact Lb]].
    intros x y Hx Hy. split; assumption.
  - exists r. split; [exact Er|]. split.
    + rewrite <- (Forall2_length Hr). exact La.
    + apply Forall2_right
        with (Q := fun x x' : field2 => has_shape2 x' m k) (l := a);
        try assumption.
      intros x x' _ Hx'. exact Hx'.
Qed.

Lemma zeros2_shape (n m : nat) : has_shape2 (zeros2 n m) n m.
Proof.
  unfold zeros2. split; [apply repeat_length|].
  apply Forall_forall. intros row H. apply repeat_spec in H. subst.
  apply repeat_length.
Qed.

Lemma zeros3_shape (n m k : nat) : has_shape3 (zeros3 n m k) n m k.
Proof.
  unfold zeros3. split; [apply repeat_length|].
  apply Forall_forall. intros pl H. apply repeat_spec in H. subst.
  split; [apply repeat_length|].
  apply Forall_forall. intros row H. apply repeat_spec in H. subst.
  apply repeat_length.
Qed.

Lemma map_map_shape {A B : Type} (f : A -> B) (n m : nat) (a : list (list A)) :
  has_shape2 a n m -> has_shape2 (map (map f) a) n m.
Proof.
  intros [La Ha]. split; [rewrite length_map; exact La|].
  apply Forall_forall. intros row H. apply in_map_iff in H.
  destruct H as (row0 & <- & Hin). rewrite length_map.
  rewrite Forall_forall in Ha. apply Ha, Hin.
Qed.

Lemma map3_shape (f : R -> R) (n m k : nat) (a : field3) :
  has_shape3 a n m k -> has_shape3 (map (map (map f)) a) n m k.
Proof.
  intros [La Ha]. split; [rewrite length_map; exact La|].
  apply Forall_forall. intros pl H. apply in_map_iff in H.
  destruct H as (pl0 & <- & Hin). apply map_map_shape.
  rewrite Forall_forall in Ha. apply Ha, Hin.
Qed.

Lemma shape2_concat_nonempty {A : Type} (n m : nat) (a : list (list A)) :
  has_shape2 a n m -> n <> 0%nat -> m <> 0%nat -> concat a <> [].
Proof.
  intros [La Ha] Hn Hm. destruct a as [|row a]; [simpl in La; congruence|].
  inversion Ha; subst. destruct row; [simpl in Hm; congruence|].
  simpl. discriminate.
Qed.

Lemma shape3_flat_nonempty (n m k : nat) (a : field3) :
  has_shape3 a n m k -> n <> 0%nat -> m <> 0%nat -> k <> 0%nat ->
  flat3 a <> [].
Proof.
  intros [La Ha] Hn Hm Hk. unfold flat3.
  destruct a as [|pl a]; [simpl in La; congruence|].
  inversion Ha as [|? ? Hshape _]; subst. destruct Hshape as [Lpl Hpl].
  destruct pl as [|row pl]; [simpl in Lpl; congruence|].
  inversion Hpl as [|? ? Lrow _]; subst.
  destruct row as [|v row]; [simpl in Hk; congruence|].
  simpl. discriminate.
Qed.

End Shapes.

(** ** Normalisation *)

Section Normalisation.

Local Open Scope R_scope.

Lemma tiny_pos : 0 < tiny.
Proof. unfold tiny. apply Rinv_0_lt_compat, pow_lt. lra. Qed.

Lemma tiny_le_1 : tiny <= 1.
Proof.
  unfold tiny. rewrite <- Rinv_1. apply Rinv_le_contravar; [lra|].
  apply pow_R1_Rle. lra.
Qed.

Lemma np_max_unique (l : list R) (d : R) :
  In d l -> Forall (fun v => v <= d) l -> np_max l = Ok d.
Proof.
  intros Hin Hle.
  assert (Hne : l <> []) by (intro E; subst; inversion Hin).
  destruct (np_max_total Hne) as [d' E]. rewrite E. f_equal.
  destruct (np_max_spec _ E) as [Hin' Hle'].
  rewrite Forall_forall in Hle, Hle'.
  specialize (Hle d' Hin'). specialize (Hle' d Hin). lra.
Qed.

Lemma Cabs_nonneg (z : C) : 0 <= Cabs z.
Proof. apply sqrt_pos. Qed.

Lemma Cabs_div (z : C) (m : R) : 0 < m -> Cabs (Cdiv_real z m) = Cabs z / m.
Proof.
  intro Hm. unfold Cabs, Cdiv_real. destruct z as [a b]. cbn [fst snd].
  replace (a / m * (a / m) + b / m * (b / m)) with ((a * a + b * b) / (m * m))
    by (field; lra).
  rewrite sqrt_div_alt by nra.
  rewrite sqrt_square by lra. reflexivity.
Qed.

Lemma Cabs_C0 : Cabs C0 = 0.
Proof.
  unfold Cabs, C0. cbn [fst snd].
  replace (0 * 0 + 0 * 0) with 0 by ring. apply sqrt_0.
Qed.

(** Dividing by the maximum absolute value gives a field whose maximum
    absolute value is [1]. *)
Lemma normalized_max_abs (data : cfield2) (m : R) :
  np_max (map Cabs (concat data)) = Ok m -> 0 < m ->
  np_max (map Cabs (concat (map (map (fun z => Cdiv_real z m)) data))) = Ok 1.
Proof.
  intros E Hm. apply np_max_spec in E. destruct E as [Hin Hle].
  rewrite <- concat_map, map_map.
  apply np_max_unique.
  - apply in_map_iff in Hin. destruct Hin as (z & Ez & Hz).
    apply in_map_iff. exists z. split; [|exact Hz].
    rewrite Cabs_div by exact Hm. rewrite Ez. field. lra.
  - apply Forall_forall. intros v Hv. apply in_map_iff in Hv.
    destruct Hv as (z & <- & Hz). rewrite Cabs_div by exact Hm.
    rewrite Forall_forall in Hle.
    assert (Cabs z <= m) by (apply Hle, in_map, Hz).
    apply Rmult_le_reg_r with (r := m); [exact Hm|].
    replace (Cabs z / m * m) with (Cabs z) by (field; lra). lra.
Qed.

(** The maximum absolute value of a non-empty all-zero field is [0]. *)
Lemma zeros_max_abs (n m : nat) :
  n <> 0%nat -> m <> 0%nat ->
  np_max (map Cabs (concat (zeros2 n m))) = Ok 0.
Proof.
  intros Hn Hm.
  assert (Hall : Forall (fun v => v = 0) (map Cabs (concat (zeros2 n m)))).
  { apply Forall_forall. intros v Hv. apply in_map_iff in Hv.
    destruct Hv as (z & <- & Hz). apply in_concat in Hz.
    destruct Hz as (row & Hrow & Hz). unfold zeros2 in Hrow.
    apply repeat_spec in Hrow. subst. apply repeat_spec in Hz. subst.
    apply Cabs_C0. }
  pose proof (shape2_concat_nonempty (zeros2_shape n m) Hn Hm) as Hne.
  destruct (concat (zeros2 n m)) as [|z l] eqn:E; [congruence|].
  apply np_max_unique.
  - left. inversion Hall; subst. assumption.
  - eapply Forall_impl; [|exact Hall]. intros v ->. lra.
Qed.

Lemma Rabs_bound (x b : R) : Rabs x <= b -> - b <= x <= b.
Proof. unfold Rabs. destruct (Rcase_abs x); lra. Qed.

Lemma flat3_map (f : R -> R) (a : field3) :
  flat3 (map (map (map f)) a) = map f (flat3 a).
Proof. unfold flat3. rewrite <- !concat_map. reflexivity. Qed.

(** The membrane's normalisation leaves every value in [[-1, 1]]. *)
Lemma membrane_normalized_bounds (data nd : field3) :
  Membrane.normalizing true data = Ok nd ->
  Forall (fun v => -1 <= v <= 1) (flat3 nd).
Proof.
  unfold Membrane.normalizing.
  destruct (np_max (map Rabs (flat3 data))) as [m|] eqn:E; [|discriminate].
  cbn [bind]. apply np_max_spec in E. destruct E as [Hin Hle].
  rewrite Forall_forall in Hle.
  assert (Hbound : forall v, In v (flat3 data) -> Rabs v <= m)
    by (intros v Hv; apply Hle, in_map, Hv).
  destruct (Rle_dec tiny m) as [Hm|Hm]; intro H; inversion H; subst; clear H.
  - pose proof tiny_pos as Ht. rewrite flat3_map.
    apply Forall_forall. intros v Hv. apply in_map_iff in Hv.
    destruct Hv as (u & <- & Hu).
    assert (Rabs u <= m) by (apply Hbound, Hu).
    assert (Rabs (u / m) <= 1).
    { unfold Rdiv. rewrite Rabs_mult, Rabs_inv, (Rabs_right m) by lra.
      apply Rmult_le_reg_r with (r := m); [lra|].
      replace (Rabs u * / m * m) with (Rabs u) by (field; lra). lra. }
    apply Rabs_bound. assumption.
  - pose proof tiny_le_1. apply Forall_forall. intros v Hv.
    specialize (Hbound v Hv). apply Rabs_bound. lra.
Qed.

(** The same step in [Membrane.eval]: when the accumulated field's
    maximum absolute value is at least [1e-24], the published field's
    maximum absolute value is [1]. *)
Lemma membrane_normalized_max (data nd : field3) (m : R) :
  np_max (map Rabs (flat3 data)) = Ok m -> tiny <= m ->
  Membrane.normalizing true data = Ok nd ->
  np_max (map Rabs (flat3 nd)) = Ok 1.
Proof.
  intros E Hm. unfold Membrane.normalizing. rewrite E. cbn [bind].
  destruct (Rle_dec tiny m) as [_|Hc]; [|contradiction].
  intro H. inversion H; subst nd. clear H.
  pose proof tiny_pos as Ht.
  apply np_max_spec in E. destruct E as [Hin Hle].
  rewrite flat3_map, map_map. apply np_max_unique.
  - apply in_map_iff in Hin. destruct Hin as (v & Ev & Hv).
    apply in_map_iff. exists v. split; [|exact Hv].
    unfold Rdiv. rewrite Rabs_mult, Rabs_inv, (Rabs_right m), Ev by lra.
    field. lra.
  - apply Forall_forall. intros a Ha. apply in_map_iff in Ha.
    destruct Ha as (v & <- & Hv). rewrite Forall_forall in Hle.
    assert (Rabs v <= m) by (apply Hle, in_map, Hv).
    unfold Rdiv. rewrite Rabs_mult, Rabs_inv, (Rabs_right m) by lra.
    apply Rmult_le_reg_r with (r := m); [lra|].
    replace (Rabs v * / m * m) with (Rabs v) by (field; lra). lra.
Qed.

End Normalisation.

(** ** Wavepacket.eval succeeds on non-empty axes *)

Section WavepacketSucceeds.

Variable complex_wave : (R -> R) -> R -> list R -> list R -> cfield2.
Hypothesis complex_wave_shape : complex_wave_contract complex_wave.

Lemma foldM_invariant {A B : Type} (f : A -> B -> result A) (P : A -> Prop)
      (l : list B) :
  (forall a x, P a -> exists a', f a x = Ok a' /\ P a') ->
  forall a, P a -> exists a', foldM f l a = Ok a' /\ P a'.
Proof.
  intro Hf. induction l as [|x l IH]; intros a Ha; simpl.
  - exists a. auto.
  - destruct (Hf a x Ha) as (a1 & E1 & H1). rewrite E1. simpl. apply IH, H1.
Qed.

Lemma accumulate_shape (self : Wavepacket.t) (data0 : cfield2) :
  let n := length (Wavepacket.time_vect self) in
  let m := length (Wavepacket.x_vect self) in
  has_shape2 data0 n m ->
  exists acc,
    Wavepacket.accumulate complex_wave self data0 = Ok acc /\
    has_shape2 acc n m.
Proof.
  intros n m H0. unfold Wavepacket.accumulate.
  apply foldM_invariant with (P := fun a : cfield2 => has_shape2 a n m);
    [|exact H0].
  intros a f Ha.
  apply foldM_invariant with (P := fun a : cfield2 => has_shape2 a n m);
    [|exact Ha].
  intros a' d Ha'. apply iadd_c2_shape; [exact Ha'|].
  apply complex_wave_shape.
Qed.

Lemma wavepacket_normalizing_shape (flag : bool) (data : cfield2) (n m : nat) :
  has_shape2 data n m -> n <> 0%nat -> m <> 0%nat ->
  exists nd, Wavepacket.normalizing flag data = Ok nd /\ has_shape2 nd n m.
Proof.
  intros Hs Hn Hm. unfold Wavepacket.normalizing.
  destruct flag; [|eauto].
  destruct (@np_max_total (map Cabs (concat data))) as [mx E].
  { pose proof (shape2_concat_nonempty Hs Hn Hm).
    destruct (concat data); [congruence|discriminate]. }
  rewrite E. cbn [bind].
  destruct (Rle_dec tiny mx); eexists; split; try reflexivity; try exact Hs.
  apply map_map_shape, Hs.
Qed.

Lemma apply_envelope_shape (env : option (R -> R)) (xs : list R)
      (data : cfield2) (n : nat) :
  has_shape2 data n (length xs) ->
  has_shape2 (Wavepacket.apply_envelope env xs data) n (length xs).
Proof.
  intros [Ln Hn]. destruct env as [f|]; [|split; assumption].
  simpl. split; [rewrite length_map; exact Ln|].
  apply Forall_forall. intros row H. apply in_map_iff in H.
  destruct H as (row0 & <- & Hin).
  rewrite Forall_forall in Hn. specialize (Hn row0 Hin).
  rewrite length_map, length_combine, length_map, Hn. apply Nat.min_id.
Qed.

(** With axes that are not empty and a term of the contracted shape,
    [eval] does not raise; the stored field has one row per time sample
    and one column per space sample. *)
Lemma wavepacket_eval_succeeds (w : Wavepacket.t) :
  let tv := BaseWave._discretize (Wavepacket.time_boundary w)
                                 (Wavepacket.dt w) in
  let xv := BaseWave._discretize (Wavepacket.space_boundary w)
                                 (Wavepacket.dx w) in
  tv <> [] -> xv <> [] ->
  exists w1 stored,
    Wavepacket.eval complex_wave false w = (w1, Ok tt) /\
    Wavepacket.complex_data w1 = Some stored /\
    Wavepacket.x_vect w1 = xv /\
    has_shape2 stored (length tv) (length xv).
Proof.
  intros tv xv Ht Hx.
  destruct (first_total Ht) as [t0 E0], (last_elt_total Ht) as [t1 E1].
  destruct (first_total Hx) as [x0 E2], (last_elt_total Hx) as [x1 E3].
  set (w3 := Wavepacket.mk
               (Wavepacket.fs w) (Wavepacket.dx w)
               (Wavepacket._freq_spectrum w) (Wavepacket._disprel w)
               (Wavepacket._envelope_func w) (t0, t1) (x0, x1)
               (Wavepacket.normalize w) tv xv (Wavepacket.complex_data w)).
  destruct (@accumulate_shape w3 (zeros2 (length tv) (length xv)))
    as (acc & Ea & Hacc); [apply zeros2_shape|].
  cbn [Wavepacket.time_vect Wavepacket.x_vect w3] in Hacc.
  destruct (@wavepacket_normalizing_shape (Wavepacket.normalize w) acc
                                          (length tv) (length xv) Hacc)
    as (nd & En & Hnd); try (apply length_nonzero; assumption).
  eexists. exists (Wavepacket.apply_envelope (Wavepacket._envelope_func w) xv nd).
  split; [|split; [|split]].
  - apply wavepacket_eval_ok. exists t0, t1, x0, x1, acc, nd.
    repeat split; assumption.
  - reflexivity.
  - reflexivity.
  - apply apply_envelope_shape, Hnd.
Qed.

End WavepacketSucceeds.

(** ** C8: normalisation of a wavepacket *)

Section C8.

Local Open Scope R_scope.

Lemma discretize_point (step : R) : BaseWave._discretize (0, 0) step = [0 * step].
Proof.
  unfold BaseWave._discretize. cbn [fst snd]. rewrite Rdiv_0_l.
  replace (Zceil 0) with 0%Z by (symmetry; apply (Zceil_IZR 0)).
  replace (Zfloor 0) with 0%Z by (symmetry; apply (ZfloorZ 0)).
  reflexivity.
Qed.

Lemma apply_envelope_zeros (env : option (R -> R)) (xs : list R) (n m : nat) :
  all_zero (Wavepacket.apply_envelope env xs (zeros2 n m)).
Proof.
  unfold all_zero, zeros2. destruct env as [f|]; simpl.
  - apply Forall_forall. intros row H. apply in_map_iff in H.
    destruct H as (row0 & <- & Hin). apply repeat_spec in Hin. subst.
    apply Forall_forall. intros z Hz. apply in_map_iff in Hz.
    destruct Hz as ([z0 e] & <- & Hin). apply in_combine_l in Hin.
    apply repeat_spec in Hin. subst. unfold Cscale, C0. cbn [fst snd].
    f_equal; ring.
  - apply Forall_forall. intros row H. apply repeat_spec in H. subst.
    apply Forall_forall. intros z Hz. apply repeat_spec in Hz. exact Hz.
Qed.

End C8.

(** C8 (amended).  For [eval] with [normalize = true]: when no envelope is
    set, the stored field has maximum absolute value [1] whenever the
    accumulated field's maximum absolute value is at least [1e-24] (with an
    envelope the stored field is the normalised one multiplied by the
    envelope, and its maximum is the envelope's business).  With an empty
    spectrum and non-empty axes, [eval] does not raise, the accumulated field
    is all zeros, the normalisation leaves it as it is, and the stored field
    is all zeros. *)
Theorem C8_normalized_wavepacket
        (complex_wave : (R -> R) -> R -> list R -> list R -> cfield2)
        (w : Wavepacket.t) :
  (forall w' acc m,
      Wavepacket.eval complex_wave false w = (w', Ok tt) ->
      Wavepacket.normalize w = true ->
      Wavepacket._envelope_func w = None ->
      Wavepacket.accumulate
        complex_wave w'
        (zeros2 (length (Wavepacket.time_vect w'))
                (length (Wavepacket.x_vect w'))) = Ok acc ->
      np_max (map Cabs (concat acc)) = Ok m ->
      (tiny <= m)%R ->
      exists stored,
        Wavepacket.complex_data w' = Some stored /\
        np_max (map Cabs (concat stored)) = Ok 1%R) /\
  (let tv := BaseWave._discretize (Wavepacket.time_boundary w)
                                  (Wavepacket.dt w) in
   let xv := BaseWave._discretize (Wavepacket.space_boundary w)
                                  (Wavepacket.dx w) in
   Wavepacket._freq_spectrum w = [] -> tv <> [] -> xv <> [] ->
   exists w' stored,
     Wavepacket.eval complex_wave false w = (w', Ok tt) /\
     Wavepacket.accumulate complex_wave w' (zeros2 (length tv) (length xv))
     = Ok (zeros2 (length tv) (length xv)) /\
     Wavepacket.normalizing (Wavepacket.normalize w)
                            (zeros2 (length tv) (length xv))
     = Ok (zeros2 (length tv) (length xv)) /\
     Wavepacket.complex_data w' = Some stored /\
     all_zero stored).
Proof.
  split.
  - intros w' acc m He Hn Henv Ha Hmax Hm.
    apply wavepacket_eval_ok in He.
    destruct He as (t0 & t1 & x0 & x1 & acc0 & nd & _ & _ & _ & _ & Ea & En & ->).
    cbn [Wavepacket.with_results Wavepacket.time_vect Wavepacket.x_vect
         Wavepacket.complex_data] in *.
    unfold Wavepacket.accumulate in Ha, Ea.
    cbn [Wavepacket.time_vect Wavepacket.x_vect Wavepacket._disprel
         Wavepacket._freq_spectrum Wavepacket.with_results] in Ha, Ea.
    rewrite Ea in Ha. inversion Ha; subst acc0.
    rewrite Hn in En. unfold Wavepacket.normalizing in En.
    rewrite Hmax in En. cbn [bind] in En.
    destruct (Rle_dec tiny m) as [_|Hc]; [|contradiction].
    inversion En; subst nd. rewrite Henv.
    eexists. split; [reflexivity|]. cbn [Wavepacket.apply_envelope].
    apply normalized_max_abs; [exact Hmax|].
    pose proof tiny_pos. lra.
  - intros tv xv Hs Ht Hx.
    destruct (first_total Ht) as [t0 E0], (last_elt_total Ht) as [t1 E1].
    destruct (first_total Hx) as [x0 E2], (last_elt_total Hx) as [x1 E3].
    assert (En : Wavepacket.normalizing (Wavepacket.normalize w)
                                        (zeros2 (length tv) (length xv))
                 = Ok (zeros2 (length tv) (length xv))).
    { unfold Wavepacket.normalizing. destruct (Wavepacket.normalize w);
        [|reflexivity].
      rewrite zeros_max_abs by (apply length_nonzero; assumption).
      cbn [bind]. destruct (Rle_dec tiny 0) as [Hc|_]; [|reflexivity].
      pose proof tiny_pos. lra. }
    exists (Wavepacket.with_results
              (Some (Wavepacket.apply_envelope
                       (Wavepacket._envelope_func w) xv
                       (zeros2 (length tv) (length xv))))
              (Wavepacket.mk
                 (Wavepacket.fs w) (Wavepacket.dx w)
                 (Wavepacket._freq_spectrum w) (Wavepacket._disprel w)
                 (Wavepacket._envelope_func w) (t0, t1) (x0, x1)
                 (Wavepacket.normalize w) tv xv (Wavepacket.complex_data w))).
    eexists.
    split; [|split; [|split; [exact En|split; [reflexivity|]]]].
    + apply wavepacket_eval_ok.
      exists t0, t1, x0, x1, (zeros2 (length tv) (length xv)),
        (zeros2 (length tv) (length xv)).
      repeat split; try assumption.
      unfold Wavepacket.accumulate.
      cbn [Wavepacket._freq_spectrum]. rewrite Hs. reflexivity.
    + unfold Wavepacket.accumulate.
      cbn [Wavepacket._freq_spectrum Wavepacket.with_results]. rewrite Hs.
      reflexivity.
    + apply apply_envelope_zeros.
Qed.

Section PointWavepacket.

Local Open Scope R_scope.

Lemma Cabs_one : Cabs (Cplus C0 (1, 0)) = 1.
Proof.
  unfold Cabs, Cplus, C0. cbn [fst snd].
  replace ((0 + 1) * (0 + 1) + (0 + 0) * (0 + 0)) with 1 by ring.
  apply sqrt_1.
Qed.

(** The evaluation of the one-sample wavepacket with the all-ones term. *)
Lemma point_eval (env : option (R -> R)) :
  let w := wavepacket_point [1] env in
  let acc := [[Cplus C0 (1, 0)]] in
  exists w',
    Wavepacket.eval cw_ones false w = (w', Ok tt) /\
    Wavepacket.accumulate
      cw_ones w'
      (zeros2 (length (Wavepacket.time_vect w'))
              (length (Wavepacket.x_vect w'))) = Ok acc /\
    np_max (map Cabs (concat acc)) = Ok 1 /\
    Wavepacket.complex_data w'
    = Some (Wavepacket.apply_envelope
              env [0 * 1] (map (map (fun z => Cdiv_real z 1)) acc)).
Proof.
  intros w acc.
  assert (Hmax : np_max (map Cabs (concat acc)) = Ok 1)
    by (unfold acc; simpl; rewrite Cabs_one; reflexivity).
  eexists. split; [|split; [|split; [exact Hmax|]]].
  - apply wavepacket_eval_ok.
    exists (0 * / 1), (0 * / 1), (0 * 1), (0 * 1), acc,
      (map (map (fun z => Cdiv_real z 1)) acc).
    unfold w, wavepacket_point, Wavepacket.space_boundary, Wavepacket.dt.
    cbn [Wavepacket.time_boundary Wavepacket._xlim Wavepacket.fs Wavepacket.dx
         Wavepacket.normalize Wavepacket._envelope_func
         Wavepacket._freq_spectrum Wavepacket._disprel
         Wavepacket.complex_data].
    rewrite !discretize_point.
    split; [reflexivity|]. split; [reflexivity|].
    split; [reflexivity|]. split; [reflexivity|].
    split; [reflexivity|]. split; [|reflexivity].
    unfold Wavepacket.normalizing. rewrite Hmax. cbn [bind].
    destruct (Rle_dec tiny 1) as [_|Hc]; [reflexivity|].
    exfalso. apply Hc, tiny_le_1.
  - reflexivity.
  - reflexivity.
Qed.

End PointWavepacket.

(** C8 as stated fails when an envelope is set: with the envelope
    [x |-> 1/2] the accumulated field has maximum absolute value [1], which
    is at least [1e-24], and the stored field has maximum absolute value
    [1/2]. *)
Lemma C8_envelope_breaks_unit_maximum :
  exists w' acc stored,
    Wavepacket.eval cw_ones false
                    (wavepacket_point [1%R] (Some (fun _ : R => (/ 2)%R)))
    = (w', Ok tt) /\
    Wavepacket.normalize (wavepacket_point [1%R] (Some (fun _ : R => (/ 2)%R)))
    = true /\
    Wavepacket.accumulate
      cw_ones w'
      (zeros2 (length (Wavepacket.time_vect w'))
              (length (Wavepacket.x_vect w'))) = Ok acc /\
    np_max (map Cabs (concat acc)) = Ok 1%R /\
    (tiny <= 1)%R /\
    Wavepacket.complex_data w' = Some stored /\
    np_max (map Cabs (concat stored)) = Ok (/ 2)%R /\
    (/ 2)%R <> 1%R.
Proof.
  destruct (point_eval (Some (fun _ : R => (/ 2)%R)))
    as (w' & He & Ha & Hmax & Hd).
  exists w'. eexists. eexists.
  split; [exact He|]. split; [reflexivity|]. split; [exact Ha|].
  split; [exact Hmax|]. split; [apply tiny_le_1|]. split; [exact Hd|].
  split; [|lra].
  simpl. f_equal. unfold Cabs, Cscale, Cdiv_real, Cplus, C0. cbn [fst snd].
  replace ((0 + 1) / 1 * / 2 * ((0 + 1) / 1 * / 2)
           + (0 + 0) / 1 * / 2 * ((0 + 0) / 1 * / 2))%R
    with (/ 2 * / 2)%R by field.
  apply sqrt_square. lra.
Qed.

Lemma C8_normalized_wavepacket_witness :
  (exists w' stored,
      Wavepacket.eval cw_ones false (wavepacket_point [1%R] None)
      = (w', Ok tt) /\
      Wavepacket.complex_data w' = Some stored /\
      np_max (map Cabs (concat stored)) = Ok 1%R) /\
  (exists w' stored,
      Wavepacket.eval cw_ones false (wavepacket_point [] None) = (w', Ok tt) /\
      Wavepacket.complex_data w' = Some stored /\
      all_zero stored).
Proof.
  split.
  - destruct (point_eval None) as (w' & He & Ha & Hmax & _).
    destruct (proj1 (C8_normalized_wavepacket cw_ones (wavepacket_point [1%R] None))
                    w' _ 1%R He eq_refl eq_refl Ha Hmax tiny_le_1)
      as (stored & Hs & H1).
    exists w', stored. auto.
  - destruct (proj2 (C8_normalized_wavepacket cw_ones (wavepacket_point [] None)))
      as (w' & stored & He & _ & _ & Hs & Hz).
    + reflexivity.
    + unfold wavepacket_point, Wavepacket.dt.
      cbn [Wavepacket.time_boundary Wavepacket.fs].
      rewrite discretize_point. discriminate.
    + unfold wavepacket_point, Wavepacket.space_boundary.
      cbn [Wavepacket._xlim Wavepacket.dx].
      rewrite discretize_point. discriminate.
    + exists w', stored. auto.
Defined.

(** ** Membrane.eval succeeds on a square grid *)

Section MembraneSucceeds.

Variable complex_wave : (R -> R) -> R -> list R -> list R -> cfield2.
Variable interp : field2 -> list R -> field2 -> field3.
Hypothesis complex_wave_shape : complex_wave_contract complex_wave.
Hypothesis interp_shape : interp_contract interp.

Lemma run_sources_succeeds (n m k : nat) (todo : list Membrane.placement) :
  Forall (ready n m k) todo ->
  forall data,
    has_shape3 data n m k ->
    exists pls data',
      Membrane.run_sources complex_wave interp todo data = (pls, Ok data') /\
      has_shape3 data' n m k.
Proof.
  induction 1 as [|[[src p] dist] rest (Ht & Hx & Hk & Hd) _ IH];
    intros data Hdata.
  - exists [], data. split; [reflexivity|exact Hdata].
  - destruct (wavepacket_eval_succeeds complex_wave_shape src Ht Hx)
      as (w1 & stored & Ee & Es & Exv & Hshape).
    cbn [Membrane.run_sources]. rewrite Ee.
    unfold Wavepacket.get_data, Wavepacket.get_space, Wavepacket.data.
    rewrite Es. cbn [bind].
    rewrite Exv, Hk in *.
    destruct (@iadd_3_shape n m k data
                (interp dist
                        (BaseWave._discretize (Wavepacket.space_boundary src)
                                              (Wavepacket.dx src))
                        (map (map (fun z : C => (- snd z)%R)) stored)))
      as (data1 & Ea & H1); [exact Hdata| |].
    { apply interp_shape; [exact Hd|]. apply map_map_shape, Hshape. }
    rewrite Ea.
    destruct (IH data1 H1) as (pls & data' & Er & H').
    rewrite Er. eauto.
Qed.

Lemma membrane_normalizing_shape (flag : bool) (data : field3) (n m k : nat) :
  has_shape3 data n m k -> n <> 0%nat -> m <> 0%nat -> k <> 0%nat ->
  exists nd, Membrane.normalizing flag data = Ok nd /\ has_shape3 nd n m k.
Proof.
  intros Hs Hn Hm Hk. unfold Membrane.normalizing.
  destruct flag; [|eauto].
  destruct (@np_max_total (map Rabs (flat3 data))) as [mx E].
  { pose proof (shape3_flat_nonempty Hs Hn Hm Hk).
    destruct (flat3 data); [congruence|discriminate]. }
  rewrite E. cbn [bind].
  destruct (Rle_dec tiny mx); eexists; split; try reflexivity; try exact Hs.
  apply map3_shape, Hs.
Qed.

(** On a square grid, with placements that are ready and collaborators of
    the contracted shapes, [eval] does not raise and publishes a field of
    shape (nX, nY, nT). *)
Lemma membrane_eval_succeeds (self : Membrane.t) (xs ys : list Q) :
  Membrane.xs self = Ok xs -> Membrane.ys self = Ok ys ->
  let n := length xs in
  let m := length ys in
  let k := length (Membrane.get_time self) in
  n <> 0%nat -> m <> 0%nat -> k <> 0%nat ->
  Forall (ready n m k)
         (Membrane._sources self ++ Membrane._reflected_sources self) ->
  exists self' nd,
    Membrane.eval complex_wave interp self = (self', Ok tt) /\
    Membrane.get_data self' = Some nd /\
    has_shape3 nd n m k /\
    (Membrane.normalize self = true ->
     Forall (fun v => (-1 <= v <= 1)%R) (flat3 nd)).
Proof.
  intros Ex Ey n m k Hn Hm Hk Hready.
  destruct (run_sources_succeeds Hready (zeros3_shape n m k))
    as (pls & data & Er & Hdata).
  destruct (@membrane_normalizing_shape (Membrane.normalize self) data n m k
                                        Hdata Hn Hm Hk) as (nd & En & Hnd).
  exists (Membrane.with_results (Some nd) (Membrane.with_placements pls self)),
    nd.
  split; [|split; [reflexivity|split; [exact Hnd|]]].
  - unfold Membrane.eval, bindM, gets, lift. rewrite Ex, Ey.
    fold n m k. rewrite Er.
    change (Membrane.normalize (Membrane.with_placements pls self))
      with (Membrane.normalize self).
    rewrite En. reflexivity.
  - intro Hflag. rewrite Hflag in En.
    apply membrane_normalized_bounds with (data := data). exact En.
Qed.

End MembraneSucceeds.

(** ** The first dimension of the published field *)

Section FirstDimension.

Variable complex_wave : (R -> R) -> R -> list R -> list R -> cfield2.
Variable interp : field2 -> list R -> field2 -> field3.

Lemma mapM_length {A B : Type} (f : A -> result B) (l : list A) (r : list B) :
  mapM f l = Ok r -> length r = length l.
Proof.
  revert r. induction l as [|x l IH]; intros r; simpl.
  - intro H. inversion H. reflexivity.
  - destruct (f x); [|discriminate]. simpl.
    destruct (mapM f l) as [ys|]; [|discriminate]. simpl.
    intro H. inversion H. simpl. f_equal. apply IH. reflexivity.
Qed.

Lemma zipM_length {A B D : Type} (f : A -> B -> result D)
      (l1 : list A) (l2 : list B) (r : list D) :
  length l1 = length l2 -> zipM f l1 l2 = Ok r -> length r = length l1.
Proof.
  revert l2 r. induction l1 as [|x l1 IH]; intros [|y l2] r Hlen; simpl;
    try discriminate Hlen.
  - intro H. inversion H. reflexivity.
  - destruct (f x y); [|discriminate]. simpl.
    destruct (zipM f l1 l2) as [zs|] eqn:E; [|discriminate]. simpl.
    intro H. inversion H. simpl. f_equal. apply (IH l2); [|exact E].
    simpl in Hlen. congruence.
Qed.

(** [data += other] never changes the length of [data]. *)
Lemma bcast_length {A B : Type} (f : A -> B -> result A)
      (data : list A) (other : list B) (r : list A) :
  bcast f data other = Ok r -> length r = length data.
Proof.
  unfold bcast. destruct other as [|y [|y' other]].
  - destruct (Nat.eqb (length data) (length (@nil B))) eqn:E; [|discriminate].
    apply Nat.eqb_eq in E. apply zipM_length, E.
  - apply mapM_length.
  - destruct (Nat.eqb (length data) (length (y :: y' :: other))) eqn:E;
      [|discriminate].
    apply Nat.eqb_eq in E. apply zipM_length, E.
Qed.

Lemma run_sources_data_length (todo : list Membrane.placement) :
  forall data pls data',
    Membrane.run_sources complex_wave interp todo data = (pls, Ok data') ->
    length data' = length data.
Proof.
  induction todo as [|[[src p] dist] rest IH]; intros data pls data' H;
    simpl in H.
  - inversion H. reflexivity.
  - destruct (Wavepacket.eval complex_wave false src) as [src1 [[]|e]];
      [|discriminate H].
    destruct (Wavepacket.get_data src1) as [d|]; [|discriminate H].
    cbn [bind] in H.
    destruct (iadd_3 data (interp dist (Wavepacket.get_space src1) d))
      as [data1|e] eqn:Ea; [|discriminate H].
    destruct (Membrane.run_sources complex_wave interp rest data1)
      as [rest' r] eqn:Er.
    inversion H; subst.
    rewrite (IH _ _ _ Er). apply (bcast_length _ _ _ Ea).
Qed.

(** Whatever the collaborators do, the field a successful [eval] publishes
    has as many entries along its first axis as the grid has x samples. *)
Lemma membrane_eval_first_dim (self self' : Membrane.t) (xs : list Q)
      (data : field3) :
  Membrane.xs self = Ok xs ->
  Membrane.eval complex_wave interp self = (self', Ok tt) ->
  Membrane.get_data self' = Some data ->
  length data = length xs.
Proof.
  intros Ex H Hd. apply membrane_eval_cases in H.
  destruct H as [(e & He & _)|(xs' & ys & pls & rs & Ex' & Ey & Er & H)];
    [discriminate He|].
  rewrite Ex in Ex'. inversion Ex'; subst xs'.
  destruct H as [(e & _ & He & _)|[(d & e & _ & _ & He & _)
                                  |(d & nd & -> & En & _ & ->)]];
    try discriminate He.
  cbn in Hd. inversion Hd; subst nd.
  apply run_sources_data_length in Er.
  unfold zeros3 in Er. rewrite repeat_length in Er. rewrite <- Er.
  unfold Membrane.normalizing in En.
  destruct (Membrane.normalize self); [|inversion En; reflexivity].
  destruct (np_max (map Rabs (flat3 d))); [|discriminate En].
  cbn [bind] in En.
  destruct (Rle_dec tiny v); inversion En; [apply length_map|reflexivity].
Qed.

End FirstDimension.

(** ** The end-to-end example *)

Section EndToEnd.

Local Open Scope R_scope.

Lemma grid_e2e : grid_ok membrane_e2e axis_e2e axis_e2e.
Proof. repeat split; discriminate. Qed.

Lemma distance_field_shape (self : Membrane.t) (xs ys : list Q)
      (p : Membrane.pos) :
  grid_ok self xs ys ->
  has_shape2 (Membrane.distance_field self p) (length ys) (length xs).
Proof.
  intros (_ & _ & Hg). unfold Membrane.distance_field. rewrite Hg.
  unfold Membrane.meshgrid. cbn [fst snd]. split.
  - rewrite length_map, length_combine, repeat_length, length_map.
    apply Nat.min_id.
  - apply Forall_forall. intros row H. apply in_map_iff in H.
    destruct H as ([r1 r2] & <- & Hin).
    pose proof (in_combine_l _ _ _ _ Hin) as H1.
    pose proof (in_combine_r _ _ _ _ Hin) as H2.
    apply repeat_spec in H1. apply in_map_iff in H2.
    destruct H2 as (y & <- & _). subst.
    cbn [fst snd].
    rewrite length_map, length_combine, repeat_length. apply Nat.min_id.
Qed.

Lemma Q2R_0 : Q2R 0 = 0.
Proof. unfold Q2R. simpl. lra. Qed.

Lemma Q2R_1 : Q2R 1 = 1.
Proof. unfold Q2R. simpl. lra. Qed.

Lemma Q2R_10 : Q2R 10 = 10.
Proof. unfold Q2R. simpl. lra. Qed.

(** The time axis of the example: the eleven multiples of [1/10] in
    [[0, 1]]. *)
Lemma time_axis_e2e :
  length (BaseWave._discretize (Q2R 0, Q2R 1) (/ Q2R 10)) = 11%nat.
Proof.
  unfold BaseWave._discretize. cbn [fst snd].
  rewrite Q2R_0, Q2R_1, Q2R_10, length_map, zrange_length.
  replace (0 / / 10) with (IZR 0) by (field).
  replace (1 / / 10) with (IZR 10) by (field).
  rewrite Zceil_IZR, ZfloorZ. reflexivity.
Qed.

Lemma cw_ones_contract : complex_wave_contract cw_ones.
Proof.
  intros d f xv tv. unfold cw_ones. split; [apply repeat_length|].
  apply Forall_forall. intros row H. apply repeat_spec in H. subst.
  apply repeat_length.
Qed.

Lemma interp_first_contract : interp_contract interp_first.
Proof.
  intros dist xv data n m k [Ln Hn] [Lk _]. unfold interp_first.
  split; [rewrite length_map; exact Ln|].
  apply Forall_forall. intros pl H. apply in_map_iff in H.
  destruct H as (row & <- & Hin). rewrite Forall_forall in Hn.
  split; [rewrite length_map; apply Hn, Hin|].
  apply Forall_forall. intros ts H. apply in_map_iff in H.
  destruct H as (v & <- & _). rewrite length_map. exact Lk.
Qed.

(** On a membrane with the transparent boundary and no placement yet,
    [add_source] registers one placement, whose clone has the space boundary
    [(d_min, d_max)]. *)
Lemma registered_transparent (self : Membrane.t) (xs ys : list Q)
      (source : Wavepacket.t) (p : Membrane.pos) :
  grid_ok self xs ys ->
  Membrane._boundary self = PyStr "transparent" ->
  Membrane._sources self = [] -> Membrane._reflected_sources self = [] ->
  exists d_min d_max,
    0 <= d_max /\
    is_max (Membrane.distance_field self p) d_max /\
    (within_extents xs ys p -> d_min = 0) /\
    (~ within_extents xs ys p ->
     is_min (Membrane.distance_field self p) d_min) /\
    Membrane.add_source source p self
    = (Membrane.with_reflected_sources
         []
         (Membrane.with_sources
            [(Membrane.bind_source self source d_min d_max, p,
              Membrane.distance_field self p)] self), Ok tt).
Proof.
  intros Hg Hb Hs Hr.
  destruct (add_source_spec source p Hg)
    as (dmin & dmax & real & refl & r & -> & Hd & Ht & E & _ & Hok).
  destruct (Ht Hb) as [-> ->]. rewrite Hs, Hr in E. cbn [app] in E.
  inversion Hok as [|? ? Hpl _]; subst.
  destruct Hpl as (_ & d0 & d1 & Eb & Hmax & H0 & Hmin & _).
  cbn in Eb. inversion Eb; subst d0 d1.
  exists dmin, dmax. auto.
Qed.

Lemma within_e2e (p : Membrane.pos) :
  (- (9 # 10) <= fst p)%Q -> (fst p <= 9 # 10)%Q ->
  (- (9 # 10) <= snd p)%Q -> (snd p <= 9 # 10)%Q ->
  within_extents axis_e2e axis_e2e p.
Proof.
  intros H1 H2 H3 H4.
  exists (- (9 # 10))%Q, (9 # 10)%Q, (- (9 # 10))%Q, (9 # 10)%Q.
  repeat split; assumption.
Qed.

(** An interval at least one step long holds a multiple of the step. *)
Lemma discretize_gap (lo hi step : R) :
  0 < step -> lo + step <= hi -> BaseWave._discretize (lo, hi) step <> [].
Proof.
  intros Hs Hgap. unfold BaseWave._discretize. cbn [fst snd].
  pose proof (Zfloor_bound (lo / step)) as [Hf _].
  pose proof (Zceil_bound (hi / step)) as [_ Hc].
  assert (Hle : (Zfloor (lo / step) <= Zceil (hi / step))%Z).
  { apply le_IZR.
    assert (lo / step <= hi / step).
    { unfold Rdiv. apply Rmult_le_compat_r; [|lra].
      left. apply Rinv_0_lt_compat, Hs. }
    lra. }
  rewrite zrange_cons by exact Hle. discriminate.
Qed.

Lemma sqrt_gap (A B S : R) :
  0 <= B -> A = B + 36 / 10 * S -> B <= (S + 18 / 10) ^ 2 -> 9 / 10 <= S ->
  sqrt B + / 10 <= sqrt A.
Proof.
  intros HB HA Hb HS.
  assert (Hsb : sqrt B <= S + 18 / 10).
  { rewrite <- (sqrt_pow2 (S + 18 / 10)) by lra. apply sqrt_le_1_alt, Hb. }
  pose proof (sqrt_pos B) as Hpos.
  rewrite <- (sqrt_pow2 (sqrt B + / 10)) by lra.
  apply sqrt_le_1_alt.
  pose proof (sqrt_sqrt B HB) as Hsq. nra.
Qed.

(** The distances of a position in the quadrant of signs [(sx, sy)] to the
    nearest and to the opposite corner of the square of half-side [9/10]. *)
Lemma corner_gap_signed (x y sx sy : R) :
  sx = 1 \/ sx = -1 -> sy = 1 \/ sy = -1 ->
  0 <= sx * x -> 0 <= sy * y ->
  9 / 10 < sx * x \/ 9 / 10 < sy * y ->
  sqrt ((sx * (9 / 10) - x) ^ 2 + (sy * (9 / 10) - y) ^ 2) + / 10
  <= sqrt ((- sx * (9 / 10) - x) ^ 2 + (- sy * (9 / 10) - y) ^ 2).
Proof.
  intros Hsx Hsy Hx Hy Hout.
  apply sqrt_gap with (S := sx * x + sy * y).
  - apply Rplus_le_le_0_compat; apply pow2_ge_0.
  - field.
  - destruct Hsx as [-> | ->], Hsy as [-> | ->]; cbn [pow]; nra.
  - lra.
Qed.

Lemma in_combine_repeat {A B : Type} (x : A) (y : B) (l : list A) :
  In x l -> In (x, y) (combine l (repeat y (length l))).
Proof.
  induction l as [|a l IH]; simpl; [tauto|].
  intros [->|H]; [left; reflexivity|right; apply IH, H].
Qed.

(** The distance to each grid point is a value of the distance field. *)
Lemma distance_in_field (self : Membrane.t) (xs ys : list Q)
      (p : Membrane.pos) (gx gy : Q) :
  grid_ok self xs ys -> In gx xs -> In gy ys ->
  In (sqrt (Q2R (gx - fst p) ^ 2 + Q2R (gy - snd p) ^ 2))
     (concat (Membrane.distance_field self p)).
Proof.
  intros (_ & _ & Hg) Hx Hy. unfold Membrane.distance_field. rewrite Hg.
  unfold Membrane.meshgrid. cbn [fst snd].
  apply in_concat.
  exists (map (fun xy : Q * Q =>
                 sqrt (Q2R (fst xy - fst p) ^ 2 + Q2R (snd xy - snd p) ^ 2))
              (combine xs (repeat gy (length xs)))).
  split.
  - apply in_map_iff. exists (xs, repeat gy (length xs)).
    split; [reflexivity|].
    clear Hx Hg. induction ys as [|y ys IH]; simpl in *; [tauto|].
    destruct Hy as [->|Hy]; [left; reflexivity|right; apply IH, Hy].
  - apply in_map_iff. exists (gx, gy). split; [reflexivity|].
    apply in_combine_repeat, Hx.
Qed.

Lemma Q2R_9_10 : Q2R (9 # 10) = 9 / 10.
Proof. unfold Q2R. simpl. lra. Qed.

Lemma Q2R_m9_10 : Q2R (-9 # 10) = - (9 / 10).
Proof. unfold Q2R. simpl. lra. Qed.

Lemma Q2R_1_10 : Q2R (1 # 10) = / 10.
Proof. unfold Q2R. simpl. lra. Qed.

(** For a position outside the extents of the example's grid, two values
    of the distance field differ by at least one step. *)
Lemma corner_gap_e2e (p : Membrane.pos) :
  ~ within_extents axis_e2e axis_e2e p ->
  exists a b,
    In a (concat (Membrane.distance_field membrane_e2e p)) /\
    In b (concat (Membrane.distance_field membrane_e2e p)) /\
    b + / 10 <= a.
Proof.
  intro Hout.
  assert (Hp : 9 / 10 < Q2R (fst p) \/ Q2R (fst p) < - (9 / 10) \/
               9 / 10 < Q2R (snd p) \/ Q2R (snd p) < - (9 / 10)).
  { destruct (Qlt_le_dec (9 # 10) (fst p)) as [H|H1];
      [left; rewrite <- Q2R_9_10; apply Qlt_Rlt, H|].
    destruct (Qlt_le_dec (fst p) (-9 # 10)) as [H|H2];
      [right; left; rewrite <- Q2R_m9_10; apply Qlt_Rlt, H|].
    destruct (Qlt_le_dec (9 # 10) (snd p)) as [H|H3];
      [right; right; left; rewrite <- Q2R_9_10; apply Qlt_Rlt, H|].
    destruct (Qlt_le_dec (snd p) (-9 # 10)) as [H|H4];
      [right; right; right; rewrite <- Q2R_m9_10; apply Qlt_Rlt, H|].
    exfalso. apply Hout, within_e2e; assumption. }
  assert (Hin9 : In (9 # 10)%Q axis_e2e)
    by (unfold axis_e2e; repeat (first [left; reflexivity|right])).
  assert (Hinm9 : In (-9 # 10)%Q axis_e2e) by (left; reflexivity).
  set (x := Q2R (fst p)) in *. set (y := Q2R (snd p)) in *.
  assert (Hform : forall gx gy sx sy : R,
             sqrt ((gx - x) ^ 2 + (gy - y) ^ 2) + / 10
             <= sqrt ((sx - x) ^ 2 + (sy - y) ^ 2) ->
             forall qx qy rx ry : Q,
               Q2R qx = gx -> Q2R qy = gy -> Q2R rx = sx -> Q2R ry = sy ->
               In qx axis_e2e -> In qy axis_e2e ->
               In rx axis_e2e -> In ry axis_e2e ->
               exists a b,
                 In a (concat (Membrane.distance_field membrane_e2e p)) /\
                 In b (concat (Membrane.distance_field membrane_e2e p)) /\
                 b + / 10 <= a).
  { intros gx gy sx sy Hle qx qy rx ry E1 E2 E3 E4 I1 I2 I3 I4.
    exists (sqrt (Q2R (rx - fst p) ^ 2 + Q2R (ry - snd p) ^ 2)),
      (sqrt (Q2R (qx - fst p) ^ 2 + Q2R (qy - snd p) ^ 2)).
    split; [apply (@distance_in_field _ _ _ p _ _ grid_e2e I3 I4)|].
    split; [apply (@distance_in_field _ _ _ p _ _ grid_e2e I1 I2)|].
    rewrite !Q2R_minus, E1, E2, E3, E4. exact Hle. }
  destruct (Rle_dec 0 x) as [Hx|Hx], (Rle_dec 0 y) as [Hy|Hy].
  - apply (Hform (9 / 10) (9 / 10) (- (9 / 10)) (- (9 / 10)))
      with (qx := (9 # 10)%Q) (qy := (9 # 10)%Q)
           (rx := (-9 # 10)%Q) (ry := (-9 # 10)%Q);
      auto using Q2R_9_10, Q2R_m9_10.
    pose proof (@corner_gap_signed x y 1 1) as H.
    replace (1 * (9 / 10)) with (9 / 10) in H by ring.
    replace (- (1) * (9 / 10)) with (- (9 / 10)) in H by ring.
    apply H; auto; lra.
  - apply (Hform (9 / 10) (- (9 / 10)) (- (9 / 10)) (9 / 10))
      with (qx := (9 # 10)%Q) (qy := (-9 # 10)%Q)
           (rx := (-9 # 10)%Q) (ry := (9 # 10)%Q);
      auto using Q2R_9_10, Q2R_m9_10.
    pose proof (@corner_gap_signed x y 1 (-1)) as H.
    replace (1 * (9 / 10)) with (9 / 10) in H by ring.
    replace (- (1) * (9 / 10)) with (- (9 / 10)) in H by ring.
    replace (-1 * (9 / 10)) with (- (9 / 10)) in H by ring.
    replace (- -1 * (9 / 10)) with (9 / 10) in H by ring.
    apply H; auto; lra.
  - apply (Hform (- (9 / 10)) (9 / 10) (9 / 10) (- (9 / 10)))
      with (qx := (-9 # 10)%Q) (qy := (9 # 10)%Q)
           (rx := (9 # 10)%Q) (ry := (-9 # 10)%Q);
      auto using Q2R_9_10, Q2R_m9_10.
    pose proof (@corner_gap_signed x y (-1) 1) as H.
    replace (1 * (9 / 10)) with (9 / 10) in H by ring.
    replace (- (1) * (9 / 10)) with (- (9 / 10)) in H by ring.
    replace (-1 * (9 / 10)) with (- (9 / 10)) in H by ring.
    replace (- -1 * (9 / 10)) with (9 / 10) in H by ring.
    apply H; auto; lra.
  - apply (Hform (- (9 / 10)) (- (9 / 10)) (9 / 10) (9 / 10))
      with (qx := (-9 # 10)%Q) (qy := (-9 # 10)%Q)
           (rx := (9 # 10)%Q) (ry := (9 # 10)%Q);
      auto using Q2R_9_10, Q2R_m9_10.
    pose proof (@corner_gap_signed x y (-1) (-1)) as H.
    replace (-1 * (9 / 10)) with (- (9 / 10)) in H by ring.
    replace (- -1 * (9 / 10)) with (9 / 10) in H by ring.
    apply H; auto; lra.
Qed.

(** The pipeline of the end-to-end example, for collaborators of the
    contracted shapes and any position. *)
Lemma e2e_pipeline
      (complex_wave : (R -> R) -> R -> list R -> list R -> cfield2)
      (interp : field2 -> list R -> field2 -> field3) (p : Membrane.pos) :
  complex_wave_contract complex_wave -> interp_contract interp ->
  exists self' data,
    snd (Membrane.add_source wavepacket_k_id p membrane_e2e) = Ok tt /\
    Membrane.eval complex_wave interp
                  (fst (Membrane.add_source wavepacket_k_id p membrane_e2e))
    = (self', Ok tt) /\
    Membrane.get_data self' = Some data /\
    has_shape3 data 19 19 11 /\
    Forall (fun v => -1 <= v <= 1) (flat3 data).
Proof.
  intros Hcw Hint.
  destruct (@registered_transparent membrane_e2e axis_e2e axis_e2e
              wavepacket_k_id p grid_e2e eq_refl eq_refl eq_refl)
    as (d_min & d_max & Hd & Hmax & Hin & Hout & E).
  rewrite E. cbn [fst snd].
  set (self := Membrane.with_reflected_sources [] _).
  assert (Hg : grid_ok self axis_e2e axis_e2e)
    by (apply grid_ok_same_grid with (s1 := membrane_e2e);
        [reflexivity|exact grid_e2e]).
  assert (Hxv : BaseWave._discretize (d_min, d_max) (Q2R (1 # 10)) <> []).
  { destruct (inside_extents_spec p grid_e2e) as [[|] [_ Hb]].
    - rewrite (Hin (proj1 Hb eq_refl)).
      apply discretize_from_zero; [exact Hd|]. rewrite Q2R_1_10. lra.
    - assert (Hnot : ~ within_extents axis_e2e axis_e2e p)
        by (intro Hw; apply Hb in Hw; discriminate Hw).
      destruct (corner_gap_e2e Hnot) as (a & b & Ia & Ib & Hab).
      destruct (Hout Hnot) as [_ Hmin]. destruct Hmax as [_ Hmax].
      rewrite Forall_forall in Hmin, Hmax.
      specialize (Hmin b Ib). specialize (Hmax a Ia).
      apply discretize_gap; rewrite Q2R_1_10; lra. }
  destruct (@membrane_eval_succeeds complex_wave interp Hcw Hint self
              axis_e2e axis_e2e (grid_xs Hg) (grid_ys Hg))
    as (self' & nd & He & Hd' & Hshape & Hb).
  - discriminate.
  - discriminate.
  - change (Membrane.get_time self)
      with (BaseWave._discretize (Q2R 0, Q2R 1) (/ Q2R 10)).
    rewrite time_axis_e2e. discriminate.
  - change (Membrane.get_time self)
      with (BaseWave._discretize (Q2R 0, Q2R 1) (/ Q2R 10)).
    rewrite time_axis_e2e.
    constructor; [|constructor].
    unfold ready.
    change (BaseWave._discretize
              (Wavepacket.time_boundary
                 (Membrane.bind_source membrane_e2e wavepacket_k_id
                                       d_min d_max))
              (Wavepacket.dt
                 (Membrane.bind_source membrane_e2e wavepacket_k_id
                                       d_min d_max)))
      with (BaseWave._discretize (Q2R 0, Q2R 1) (/ Q2R 10)).
    change (BaseWave._discretize
              (Wavepacket.space_boundary
                 (Membrane.bind_source membrane_e2e wavepacket_k_id
                                       d_min d_max))
              (Wavepacket.dx
                 (Membrane.bind_source membrane_e2e wavepacket_k_id
                                       d_min d_max)))
      with (BaseWave._discretize (d_min, d_max) (Q2R (1 # 10))).
    split; [|split; [|split]].
    + pose proof time_axis_e2e as Hl.
      destruct (BaseWave._discretize (Q2R 0, Q2R 1) (/ Q2R 10));
        [discriminate Hl|discriminate].
    + exact Hxv.
    + apply time_axis_e2e.
    + exact (distance_field_shape p grid_e2e).
  - change (Membrane.get_time self)
      with (BaseWave._discretize (Q2R 0, Q2R 1) (/ Q2R 10)) in Hshape.
    rewrite time_axis_e2e in Hshape.
    exists self', nd.
    split; [reflexivity|]. split; [exact He|]. split; [exact Hd'|].
    split; [exact Hshape|]. apply Hb. reflexivity.
Qed.

End EndToEnd.

(** ** C3: the end-to-end example *)

(** C3 as stated fails on the shape: [np.arange(0, 1, 0.1)] stops before
    [1], so each axis of the grid has 19 samples, and no field that [eval]
    publishes on this membrane, whatever the source, its position and the
    collaborators, has shape (21, 21, 11). *)
Lemma C3_shape_is_not_21 :
  Membrane.init 10 (1 # 10) (2, 2) (Membrane.TScalar 1) None true
                (PyStr "transparent") = Ok membrane_e2e /\
  Membrane.xs membrane_e2e = Ok axis_e2e /\
  Membrane.ys membrane_e2e = Ok axis_e2e /\
  length axis_e2e = 19%nat /\
  forall complex_wave interp source p self' data,
    Membrane.eval complex_wave interp
                  (fst (Membrane.add_source source p membrane_e2e))
    = (self', Ok tt) ->
    Membrane.get_data self' = Some data ->
    ~ has_shape3 data 21 21 11.
Proof.
  split; [exact membrane_e2e_built|].
  split; [reflexivity|]. split; [reflexivity|]. split; [reflexivity|].
  intros cw interp source p self' data He Hd [Hlen _].
  pose proof (add_source_grid_ok source p grid_e2e) as Hg.
  pose proof (@membrane_eval_first_dim _ _ _ _ _ _ (grid_xs Hg) He Hd) as H19.
  rewrite Hlen in H19. discriminate H19.
Qed.

(** C3 (amended).  On [Membrane(fs=10, dx=0.1, size=(2,2), T=1,
    boundary='transparent')], with collaborators of the contracted shapes,
    adding the wavepacket with [k(f) = f] and spectrum [[1]] at any position
    and calling [eval] raises nothing; afterwards [get_data] returns a field
    of shape (19, 19, 11) whose every value lies in [[-1, 1]]. *)
Theorem C3_end_to_end
        (complex_wave : (R -> R) -> R -> list R -> list R -> cfield2)
        (interp : field2 -> list R -> field2 -> field3) (p : Membrane.pos) :
  complex_wave_contract complex_wave -> interp_contract interp ->
  exists self self' data,
    Membrane.init 10 (1 # 10) (2, 2) (Membrane.TScalar 1) None true
                  (PyStr "transparent") = Ok membrane_e2e /\
    Membrane.add_source wavepacket_k_id p membrane_e2e = (self, Ok tt) /\
    Membrane.eval complex_wave interp self = (self', Ok tt) /\
    Membrane.get_data self' = Some data /\
    has_shape3 data 19 19 11 /\
    Forall (fun v => (-1 <= v <= 1)%R) (flat3 data).
Proof.
  intros Hcw Hint.
  destruct (e2e_pipeline p Hcw Hint)
    as (self' & data & Ea & He & Hd & Hs & Hb).
  exists (fst (Membrane.add_source wavepacket_k_id p membrane_e2e)), self', data.
  split; [exact membrane_e2e_built|].
  split; [rewrite <- Ea; apply surjective_pairing|].
  auto.
Qed.

Lemma C3_end_to_end_witness :
  exists self self' data,
    Membrane.init 10 (1 # 10) (2, 2) (Membrane.TScalar 1) None true
                  (PyStr "transparent") = Ok membrane_e2e /\
    Membrane.add_source wavepacket_k_id (0, 0) membrane_e2e = (self, Ok tt) /\
    Membrane.eval cw_ones interp_first self = (self', Ok tt) /\
    Membrane.get_data self' = Some data /\
    has_shape3 data 19 19 11 /\
    Forall (fun v => (-1 <= v <= 1)%R) (flat3 data).
Proof.
  exact (@C3_end_to_end cw_ones interp_first (0, 0)
                        cw_ones_contract interp_first_contract).
Defined.

Lemma C9_eval_idempotent_witness :
  exists self1 self2,
    Membrane.eval cw_ones interp_first membrane_e2e_source = (self1, Ok tt) /\
    Membrane.eval cw_ones interp_first self1 = (self2, Ok tt) /\
    Membrane.get_data self2 = Membrane.get_data self1.
Proof.
  destruct (@e2e_pipeline cw_ones interp_first (0, 0)
              cw_ones_contract interp_first_contract)
    as (self1 & data & _ & He & _).
  destruct (@C9_eval_idempotent cw_ones interp_first _ _ He)
    as (self2 & He2 & Hd & _).
  exists self1, self2. split; [exact He|]. split; [exact He2|exact Hd].
Defined.

(** ** A run of [eval] that raises *)

Section NoSample.

Local Open Scope R_scope.

Lemma no_sample_axis :
  BaseWave._discretize (Q2R 1, Q2R 0) (/ Q2R 1) = [].
Proof.
  unfold BaseWave._discretize. cbn [fst snd].
  assert (E1 : Q2R 1 / / Q2R 1 = IZR 1) by (unfold Q2R; simpl; field).
  assert (E2 : Q2R 0 / / Q2R 1 = IZR 0) by (unfold Q2R; simpl; field).
  rewrite E1, E2, ZfloorZ, Zceil_IZR.
  reflexivity.
Qed.

Lemma wavepacket_eval_no_time
      (complex_wave : (R -> R) -> R -> list R -> list R -> cfield2)
      (w : Wavepacket.t) :
  BaseWave._discretize (Wavepacket.time_boundary w) (Wavepacket.dt w) = [] ->
  snd (Wavepacket.eval complex_wave false w) = Raise IndexError.
Proof.
  intro H. unfold Wavepacket.eval, bindM, gets, modify, lift.
  cbn [Wavepacket.time_vect Wavepacket.with_x_vect Wavepacket.with_time_vect].
  rewrite H. reflexivity.
Qed.

(** On the membrane whose time interval holds no sample, [eval] raises
    [IndexError]. *)
Lemma no_sample_raises
      (complex_wave : (R -> R) -> R -> list R -> list R -> cfield2)
      (interp : field2 -> list R -> field2 -> field3) :
  snd (Membrane.eval complex_wave interp membrane_no_sample)
  = Raise IndexError.
Proof.
  assert (Hg : grid_ok membrane_no_sample_base [-1 # 2; 0 # 2; 1 # 2]%Q
                       [-1 # 2; 0 # 2; 1 # 2]%Q)
    by (repeat split; discriminate).
  destruct (@registered_transparent membrane_no_sample_base _ _
              wavepacket_k_id (0, 0)%Q Hg eq_refl eq_refl eq_refl)
    as (d_min & d_max & _ & _ & _ & _ & E).
  unfold membrane_no_sample. rewrite E. cbn [fst].
  set (src := Membrane.bind_source membrane_no_sample_base wavepacket_k_id
                                   d_min d_max).
  pose proof (@wavepacket_eval_no_time complex_wave src no_sample_axis) as Hw.
  unfold Membrane.eval, bindM, gets, lift.
  cbn [Membrane.xs Membrane.ys Membrane.data_domain
       Membrane.with_reflected_sources Membrane.with_sources
       membrane_no_sample_base fst snd first mapM bind
       Membrane._sources Membrane._reflected_sources app
       Membrane.run_sources].
  destruct (Wavepacket.eval complex_wave false src) as [src1 r].
  cbn [snd] in Hw. subst r. reflexivity.
Qed.

End NoSample.

Lemma C7_results_published_last_witness :
  snd (Membrane.eval cw_ones interp_first membrane_no_sample)
  = Raise IndexError /\
  Membrane.get_data
    (fst (Membrane.eval cw_ones interp_first membrane_no_sample))
  = Membrane.get_data membrane_no_sample.
Proof.
  split; [apply no_sample_raises|].
  pose proof (@C7_results_published_last
                cw_ones interp_first membrane_no_sample _ _
                (surjective_pairing _)) as H.
  rewrite no_sample_raises in H. exact H.
Defined.

(** ** The three-by-three membrane *)

Lemma grid_small :
  grid_ok membrane_small [-1 # 2; 0 # 2; 1 # 2]%Q [-1 # 2; 0 # 2; 1 # 2]%Q.
Proof. repeat split; discriminate. Qed.

Lemma Q2R_1_2 : Q2R (1 # 2) = (/ 2)%R.
Proof. unfold Q2R. simpl. lra. Qed.

(** * Further properties of the code *)

(** ** _reflect_position: where it raises, and what it returns elsewhere *)

(** X1.  On a membrane with positive half-extents, [_reflect_position] raises
    [ValueError] exactly for the positions on the left edge [d] (corners
    included) and on the top and bottom edges [a] and [c] (corners
    excluded); everywhere else it returns images. *)
Theorem reflect_position_raises_iff (self : Membrane.t) (x y : Q) :
  let Dx := snd (fst (Membrane.domain self)) in
  let Dy := snd (snd (Membrane.domain self)) in
  (0 < Dx)%Q -> (0 < Dy)%Q ->
  (Membrane._reflect_position self (x, y) = Raise ValueError <->
   ((x == - Dx)%Q /\ (- Dy <= y)%Q /\ (y <= Dy)%Q) \/
   ((- Dx < x)%Q /\ (x < Dx)%Q /\ ((y == Dy)%Q \/ (y == - Dy)%Q))).
Proof.
  intros Dx Dy HDx HDy. unfold Membrane._reflect_position. fold Dx Dy.
  split.
  - apply reflect_raises_only_on_edges; assumption.
  - apply reflect_raises_on_edges; assumption.
Qed.

Lemma reflect_position_raises_iff_witness :
  (0 < snd (fst (Membrane.domain membrane_half)))%Q /\
  (0 < snd (snd (Membrane.domain membrane_half)))%Q /\
  (Membrane._reflect_position membrane_half (- (1 # 2), 0) = Raise ValueError <->
   ((- (1 # 2) == - snd (fst (Membrane.domain membrane_half)))%Q /\
    (- snd (snd (Membrane.domain membrane_half)) <= 0)%Q /\
    (0 <= snd (snd (Membrane.domain membrane_half)))%Q) \/
   ((- snd (fst (Membrane.domain membrane_half)) < - (1 # 2))%Q /\
    (- (1 # 2) < snd (fst (Membrane.domain membrane_half)))%Q /\
    ((0 == snd (snd (Membrane.domain membrane_half)))%Q \/
     (0 == - snd (snd (Membrane.domain membrane_half)))%Q))).
Proof.
  split; [reflexivity|]. split; [reflexivity|].
  apply (@reflect_position_raises_iff membrane_half (- (1 # 2)) 0);
    reflexivity.
Defined.

(** X2.  A position on the right edge [b] raises nothing: whatever its height
    below the top edge, it is handled as the lower right corner region and
    gets the two images across [a] and [d]. *)
Theorem reflect_position_right_edge (self : Membrane.t) (x y : Q) :
  let Dx := snd (fst (Membrane.domain self)) in
  let Dy := snd (snd (Membrane.domain self)) in
  (0 < Dx)%Q -> (0 < Dy)%Q -> (x == Dx)%Q -> (y <= Dy)%Q ->
  Membrane._reflect_position self (x, y)
  = Ok [ (x, 2 * Dy - y)%Q; (2 * - Dx - x, y)%Q ].
Proof.
  intros Dx Dy HDx HDy Hx Hy.
  unfold Membrane._reflect_position, Membrane.reflect. fold Dx Dy.
  decide_comparisons. reflexivity.
Qed.

Lemma reflect_position_right_edge_witness :
  Membrane._reflect_position membrane_half (1 # 2, 0)
  = Ok [ (1 # 2, 2 * snd (snd (Membrane.domain membrane_half)) - 0)%Q;
         (2 * - snd (fst (Membrane.domain membrane_half)) - (1 # 2), 0)%Q ].
Proof.
  apply (@reflect_position_right_edge membrane_half (1 # 2) 0); 
    try reflexivity; discriminate.
Defined.

(** X3.  The number of images: four exactly for the positions strictly inside
    the membrane, two or three for the others. *)
Theorem reflect_position_image_count (self : Membrane.t) (x y : Q)
        (l : list Membrane.pos) :
  let Dx := snd (fst (Membrane.domain self)) in
  let Dy := snd (snd (Membrane.domain self)) in
  (0 < Dx)%Q -> (0 < Dy)%Q ->
  Membrane._reflect_position self (x, y) = Ok l ->
  (length l = 4%nat <->
   (- Dx < x)%Q /\ (x < Dx)%Q /\ (- Dy < y)%Q /\ (y < Dy)%Q) /\
  (2 <= length l <= 4)%nat.
Proof.
  intros Dx Dy HDx HDy. unfold Membrane._reflect_position. fold Dx Dy.
  destruct (Q_dec x (- Dx)) as [[H1|H1]|H1];
  destruct (Q_dec x Dx) as [[H2|H2]|H2];
  destruct (Q_dec y (- Dy)) as [[H3|H3]|H3];
  destruct (Q_dec y Dy) as [[H4|H4]|H4];
  try (exfalso; Lqa.lra);
  unfold Membrane.reflect; decide_comparisons; cbn [andb orb];
  intro H; try discriminate H;
  injection H as <-; cbn [Membrane.new_pos map length];
  (split; [split; [intro E; try discriminate E; repeat split; Lqa.lra
                  |intros (A1 & A2 & A3 & A4); try reflexivity;
                   exfalso; Lqa.lra]
          |lia]).
Qed.

Lemma reflect_position_image_count_witness :
  exists l,
    Membrane._reflect_position membrane_unit (2, 0) = Ok l /\
    (length l = 4%nat <->
     (- snd (fst (Membrane.domain membrane_unit)) < 2)%Q /\
     (2 < snd (fst (Membrane.domain membrane_unit)))%Q /\
     (- snd (snd (Membrane.domain membrane_unit)) < 0)%Q /\
     (0 < snd (snd (Membrane.domain membrane_unit)))%Q) /\
    (2 <= length l <= 4)%nat.
Proof.
  destruct (Membrane._reflect_position membrane_unit (2, 0)) as [l|e] eqn:E;
    [|discriminate E].
  exists l. split; [reflexivity|].
  exact (@reflect_position_image_count membrane_unit 2 0 l eq_refl eq_refl E).
Defined.
(** ** add_source: the rounds of reflections *)

Lemma rounds_same_domain (s1 s2 : Membrane.t) (n : nat) :
  Membrane.domain s1 = Membrane.domain s2 ->
  forall tmp1 rp, Membrane.rounds s1 n tmp1 rp = Membrane.rounds s2 n tmp1 rp.
Proof.
  intro E. induction n as [|n IH]; intros tmp1 rp; simpl; [reflexivity|].
  unfold Membrane._reflect_position. rewrite E.
  destruct (foldM _ tmp1 []); simpl; [apply IH|reflexivity].
Qed.

(** What [add_source] does on a membrane with a non-empty grid, by the
    outcome of its rounds of reflections. *)
Lemma add_source_reflected (self : Membrane.t) (xs ys : list Q)
      (source : Wavepacket.t) (p : Membrane.pos) :
  grid_ok self xs ys ->
  let b := Membrane._boundary self in
  py_eq_str b "transparent" = false ->
  py_eq_str b "free" || isinstance_int b = true ->
  exists real reflected,
    position real = p /\
    Membrane.add_source source p self
    = (Membrane.with_reflected_sources
         (Membrane._reflected_sources self ++ reflected)
         (Membrane.with_sources (Membrane._sources self ++ [real]) self),
       match
         l <- Membrane._reflect_position self p ;;
         match int_value b with
         | Some N => Membrane.rounds self (Z.to_nat (N - 1)) l l
         | None => Ok l
         end
       with
       | Ok _ => Ok tt
       | Raise e => Raise e
       end) /\
    match
      l <- Membrane._reflect_position self p ;;
      match int_value b with
      | Some N => Membrane.rounds self (Z.to_nat (N - 1)) l l
      | None => Ok l
      end
    with
    | Ok l => map position reflected = l
    | Raise _ => reflected = []
    end.
Proof.
  intros Hg b Ht Hf.
  destruct (add_source_to_list_spec source p false Hg)
    as (dmin & dmax & pl & Epl & _ & _ & Hp & E).
  set (s1 := Membrane.with_sources (Membrane._sources self ++ [pl]) self) in *.
  assert (Hg1 : grid_ok s1 xs ys)
    by (apply grid_ok_same_grid with (s1 := self); [reflexivity|exact Hg]).
  assert (Hnil : forall r : result unit,
             (s1, r)
             = (Membrane.with_reflected_sources
                  (Membrane._reflected_sources self ++ [])
                  (Membrane.with_sources (Membrane._sources self ++ [pl]) self),
                r))
    by (intro r; rewrite app_nil_r; subst s1; destruct self; reflexivity).
  exists pl.
  unfold Membrane.add_source. unfold bindM at 1. rewrite E.
  unfold bindM at 1. unfold gets at 1.
  change (Membrane._boundary s1) with b. rewrite Ht, Hf.
  unfold bindM at 1. unfold lift at 1.
  change (Membrane._reflect_position s1 p)
    with (Membrane._reflect_position self p).
  destruct (Membrane._reflect_position self p) as [rp|e]; cbn [bind].
  2:{ exists []. split; [exact Hp|]. split; [apply Hnil|reflexivity]. }
  unfold bindM at 1. unfold lift at 1.
  assert (Er : match int_value b with
               | Some N => Membrane.rounds s1 (Z.to_nat (N - 1)) rp rp
               | None => Ok rp
               end
               = match int_value b with
                 | Some N => Membrane.rounds self (Z.to_nat (N - 1)) rp rp
                 | None => Ok rp
                 end).
  { destruct (int_value b); [|reflexivity].
    apply rounds_same_domain. reflexivity. }
  rewrite Er.
  destruct (match int_value b with
            | Some N => Membrane.rounds self (Z.to_nat (N - 1)) rp rp
            | None => Ok rp
            end) as [rp'|e].
  2:{ exists []. split; [exact Hp|]. split; [apply Hnil|reflexivity]. }
  destruct (forM_add_reflected source rp' Hg1) as [pls [_ [Hmap E1]]].
  rewrite E1. exists pls. split; [exact Hp|]. split; [reflexivity|exact Hmap].
Qed.

(** Without a round of reflections (the transparent boundary, or a stored
    value [add_source] does not know), only the real source is registered. *)
Lemma add_source_no_reflection (self : Membrane.t) (xs ys : list Q)
      (source : Wavepacket.t) (p : Membrane.pos) :
  grid_ok self xs ys ->
  let b := Membrane._boundary self in
  py_eq_str b "transparent" = true \/
  py_eq_str b "free" || isinstance_int b = false ->
  exists real,
    position real = p /\
    Membrane.add_source source p self
    = (Membrane.with_sources (Membrane._sources self ++ [real]) self, Ok tt).
Proof.
  intros Hg b Hb.
  destruct (add_source_to_list_spec source p false Hg)
    as (dmin & dmax & pl & Epl & _ & _ & Hp & E).
  exists pl. split; [exact Hp|].
  unfold Membrane.add_source. unfold bindM at 1. rewrite E.
  unfold bindM at 1. unfold gets at 1.
  change (Membrane._boundary
            (Membrane.with_sources (Membrane._sources self ++ [pl]) self))
    with b.
  destruct Hb as [-> | Hb]; [reflexivity|].
  rewrite Hb. destruct (py_eq_str b "transparent"); reflexivity.
Qed.

(** X4.  With the transparent boundary [add_source] registers the real source and
    nothing else, and does not raise, wherever the source is: on an edge,
    outside the grid. *)
Theorem add_source_transparent (self : Membrane.t) (xs ys : list Q)
        (source : Wavepacket.t) (p : Membrane.pos) :
  grid_ok self xs ys ->
  Membrane._boundary self = PyStr "transparent" ->
  exists real,
    position real = p /\
    Membrane.add_source source p self
    = (Membrane.with_sources (Membrane._sources self ++ [real]) self, Ok tt).
Proof.
  intros Hg Hb. apply add_source_no_reflection with (xs := xs) (ys := ys);
    [exact Hg|]. left. rewrite Hb. reflexivity.
Qed.

Lemma add_source_transparent_witness :
  exists real,
    position real = (0, 1 # 2) /\
    Membrane.add_source wavepacket_k_id (0, 1 # 2) membrane_small
    = (Membrane.with_sources (Membrane._sources membrane_small ++ [real])
                             membrane_small, Ok tt).
Proof.
  apply (@add_source_transparent membrane_small _ _ wavepacket_k_id (0, 1 # 2)
           grid_small eq_refl).
Defined.

(** X5.  When the first round of reflections raises, [add_source] raises the
    same error after it has registered the real source: the membrane keeps
    that placement, and no reflected one. *)
Theorem add_source_raise_keeps_real (self : Membrane.t) (xs ys : list Q)
        (source : Wavepacket.t) (p : Membrane.pos) (e : exn) :
  grid_ok self xs ys ->
  Membrane._boundary self = PyStr "free" \/
  isinstance_int (Membrane._boundary self) = true ->
  Membrane._reflect_position self p = Raise e ->
  exists real,
    position real = p /\
    Membrane.add_source source p self
    = (Membrane.with_sources (Membrane._sources self ++ [real]) self, Raise e).
Proof.
  intros Hg Hb He.
  destruct (@add_source_reflected self xs ys source p Hg)
    as (real & reflected & Hp & E & Hr).
  - destruct Hb as [-> | Hb]; [reflexivity|].
    destruct (Membrane._boundary self); try discriminate Hb; reflexivity.
  - destruct Hb as [-> | Hb]; [reflexivity|]. rewrite Hb. apply orb_true_r.
  - rewrite He in E, Hr. cbn [bind] in E, Hr. subst reflected.
    exists real. split; [exact Hp|]. rewrite E. rewrite app_nil_r.
    destruct self; reflexivity.
Qed.

Lemma add_source_raise_keeps_real_witness :
  exists real,
    position real = (- (1 # 2), 0) /\
    Membrane.add_source wavepacket_k_id (- (1 # 2), 0) membrane_half
    = (Membrane.with_sources (Membrane._sources membrane_half ++ [real])
                             membrane_half, Raise ValueError).
Proof.
  apply (@add_source_raise_keeps_real
           membrane_half [-1 # 2; 0 # 2; 1 # 2] [-1 # 2; 0 # 2; 1 # 2]
           wavepacket_k_id (- (1 # 2), 0) ValueError).
  - repeat split; discriminate.
  - left. reflexivity.
  - reflexivity.
Defined.

(** X6.  An integer boundary [N <= 1] (zero and the negative ones included) and
    the two booleans add no round to the first one: [add_source] registers
    exactly the images of the source itself, as for ['free']. *)
Theorem add_source_one_round (self : Membrane.t) (xs ys : list Q)
        (source : Wavepacket.t) (p : Membrane.pos) (l : list Membrane.pos) :
  grid_ok self xs ys ->
  Membrane._boundary self = PyStr "free" \/
  (exists N, Membrane._boundary self = PyInt N /\ (N <= 1)%Z) \/
  (exists b, Membrane._boundary self = PyBool b) ->
  Membrane._reflect_position self p = Ok l ->
  exists real reflected,
    position real = p /\ map position reflected = l /\
    Membrane.add_source source p self
    = (Membrane.with_reflected_sources
         (Membrane._reflected_sources self ++ reflected)
         (Membrane.with_sources (Membrane._sources self ++ [real]) self),
       Ok tt).
Proof.
  intros Hg Hb Hl.
  destruct (@add_source_reflected self xs ys source p Hg)
    as (real & reflected & Hp & E & Hr).
  - destruct Hb as [-> | [(N & -> & _) | (b & ->)]]; reflexivity.
  - destruct Hb as [-> | [(N & -> & _) | (b & ->)]]; reflexivity.
  - rewrite Hl in E, Hr. cbn [bind] in E, Hr.
    assert (Hone : match int_value (Membrane._boundary self) with
                   | Some N => Membrane.rounds self (Z.to_nat (N - 1)) l l
                   | None => Ok l
                   end = Ok l).
    { destruct Hb as [-> | [(N & -> & HN) | (b & ->)]]; cbn [int_value].
      - reflexivity.
      - replace (Z.to_nat (N - 1)) with 0%nat by lia. reflexivity.
      - destruct b; reflexivity. }
    rewrite Hone in E, Hr.
    exists real, reflected. auto.
Qed.

Lemma add_source_one_round_witness :
  exists real reflected,
    position real = (0, 0) /\
    map position reflected
    = [(0, 2 * snd (snd (Membrane.domain membrane_half)) - 0);
       (2 * snd (fst (Membrane.domain membrane_half)) - 0, 0);
       (0, 2 * - snd (snd (Membrane.domain membrane_half)) - 0);
       (2 * - snd (fst (Membrane.domain membrane_half)) - 0, 0)]%Q /\
    Membrane.add_source wavepacket_k_id (0, 0)
                        (Membrane.with_boundary (PyInt 0) membrane_half)
    = (Membrane.with_reflected_sources
         (Membrane._reflected_sources
            (Membrane.with_boundary (PyInt 0) membrane_half) ++ reflected)
         (Membrane.with_sources
            (Membrane._sources
               (Membrane.with_boundary (PyInt 0) membrane_half) ++ [real])
            (Membrane.with_boundary (PyInt 0) membrane_half)),
       Ok tt).
Proof.
  apply (@add_source_one_round
           (Membrane.with_boundary (PyInt 0) membrane_half)
           [-1 # 2; 0 # 2; 1 # 2] [-1 # 2; 0 # 2; 1 # 2]
           wavepacket_k_id (0, 0)).
  - repeat split; discriminate.
  - right. left. exists 0%Z. split; [reflexivity|lia].
  - reflexivity.
Defined.



(** ** Placements: the clone, and the distance field of an image *)

(** X9.  The wavepacket a membrane keeps for the
    real source is a clone bound to the membrane: it has the membrane's
    sampling frequency, step and time limits and holds no results, while
    its spectrum, dispersion relations, envelope and normalisation flag are
    those of the wavepacket that was passed; its distance field is the one
    of the grid about the position. *)
Theorem add_source_binds_clone (self : Membrane.t) (xs ys : list Q)
        (source : Wavepacket.t) (p : Membrane.pos) :
  grid_ok self xs ys ->
  exists clone,
    Membrane._sources (fst (Membrane.add_source source p self))
    = Membrane._sources self
      ++ [(clone, p, Membrane.distance_field self p)] /\
    Wavepacket.fs clone = Q2R (Membrane.fs self) /\
    Wavepacket.dx clone = Q2R (Membrane.dx self) /\
    Wavepacket.time_boundary clone
    = (Q2R (fst (Membrane.time self)), Q2R (snd (Membrane.time self))) /\
    Wavepacket.complex_data clone = None /\
    Wavepacket._freq_spectrum clone = Wavepacket._freq_spectrum source /\
    Wavepacket._disprel clone = Wavepacket._disprel source /\
    Wavepacket._envelope_func clone = Wavepacket._envelope_func source /\
    Wavepacket.normalize clone = Wavepacket.normalize source.
Proof.
  intro Hg.
  destruct (add_source_spec source p Hg)
    as (dmin & dmax & real & refl & r & -> & _ & _ & E & _).
  rewrite E. exists (Membrane.bind_source self source dmin dmax).
  repeat split.
Qed.

Lemma add_source_binds_clone_witness :
  exists clone,
    Membrane._sources
      (fst (Membrane.add_source wavepacket_half_envelope (0, 0) membrane_half))
    = Membrane._sources membrane_half
      ++ [(clone, (0, 0)%Q, Membrane.distance_field membrane_half (0, 0))] /\
    Wavepacket.fs clone = Q2R (Membrane.fs membrane_half) /\
    Wavepacket.dx clone = Q2R (Membrane.dx membrane_half) /\
    Wavepacket.time_boundary clone
    = (Q2R (fst (Membrane.time membrane_half)),
       Q2R (snd (Membrane.time membrane_half))) /\
    Wavepacket.complex_data clone = None /\
    Wavepacket._freq_spectrum clone
    = Wavepacket._freq_spectrum wavepacket_half_envelope /\
    Wavepacket._disprel clone = Wavepacket._disprel wavepacket_half_envelope /\
    Wavepacket._envelope_func clone
    = Wavepacket._envelope_func wavepacket_half_envelope /\
    Wavepacket.normalize clone = Wavepacket.normalize wavepacket_half_envelope.
Proof.
  apply (@add_source_binds_clone
           membrane_half [-1 # 2; 0 # 2; 1 # 2] [-1 # 2; 0 # 2; 1 # 2]
           wavepacket_half_envelope (0, 0)).
  repeat split; discriminate.
Defined.

Section DistanceEntries.

Local Open Scope R_scope.

Lemma nth_error_combine {A B : Type} (l1 : list A) (l2 : list B) :
  forall (j : nat) (a : A) (b : B),
    nth_error l1 j = Some a -> nth_error l2 j = Some b ->
    nth_error (combine l1 l2) j = Some (a, b).
Proof.
  revert l2. induction l1 as [|x l1 IH]; intros [|y l2] [|j] a b H1 H2;
    simpl in *; try discriminate.
  - injection H1 as <-. injection H2 as <-. reflexivity.
  - apply IH; assumption.
Qed.

Lemma nth_error_repeat_some {A : Type} (x : A) (n i : nat) :
  (i < n)%nat -> nth_error (repeat x n) i = Some x.
Proof.
  revert i. induction n as [|n IH]; intros [|i] H; simpl; try lia;
    [reflexivity|]. apply IH. lia.
Qed.

(** The entry of the distance field at row [i], column [j] is the distance
    from the position to the grid point [(xs[j], ys[i])]. *)
Lemma distance_field_entry (self : Membrane.t) (xs ys : list Q)
      (p : Membrane.pos) (i j : nat) (gx gy : Q) :
  grid_ok self xs ys ->
  nth_error ys i = Some gy -> nth_error xs j = Some gx ->
  entry (Membrane.distance_field self p) i j
  = Some (sqrt (Q2R (gx - fst p) ^ 2 + Q2R (gy - snd p) ^ 2)).
Proof.
  intros (_ & _ & Hg) Hi Hj. unfold entry, Membrane.distance_field.
  rewrite Hg. unfold Membrane.meshgrid. cbn [fst snd].
  assert (Hil : (i < length ys)%nat)
    by (apply nth_error_Some; congruence).
  assert (Hjl : (j < length xs)%nat)
    by (apply nth_error_Some; congruence).
  erewrite map_nth_error;
    [|apply nth_error_combine;
      [apply nth_error_repeat_some; exact Hil
      |apply map_nth_error; exact Hi]].
  cbn [fst snd].
  erewrite map_nth_error;
    [|apply nth_error_combine;
      [exact Hj|apply nth_error_repeat_some; exact Hjl]].
  reflexivity.
Qed.

Lemma mirrored_offset (g b c : Q) :
  (g == b)%Q -> Q2R (g - Membrane.new_coord b c) ^ 2 = Q2R (g - c) ^ 2.
Proof.
  intro E. unfold Membrane.new_coord.
  assert (H : (g - (2 * b - c) == - (g - c))%Q) by (rewrite E; ring).
  rewrite (Qeq_eqR _ _ H), Q2R_opp. ring.
Qed.

(** X10.  Each image of a source is its mirror
    point about an edge line: at every grid point on the line of edge [a]
    (the row with [y = Dy]) the distance field of the image across [a] has
    the same value as the distance field of the source, and likewise for
    the lines of [b], [c] and [d]. *)
Theorem images_equidistant_on_edges (self : Membrane.t) (xs ys : list Q)
        (x y : Q) (i j : nat) (gx gy : Q) :
  let Dx := snd (fst (Membrane.domain self)) in
  let Dy := snd (snd (Membrane.domain self)) in
  grid_ok self xs ys ->
  nth_error ys i = Some gy -> nth_error xs j = Some gx ->
  ((gy == Dy)%Q ->
   entry (Membrane.distance_field self (x, Membrane.new_coord Dy y)) i j
   = entry (Membrane.distance_field self (x, y)) i j) /\
  ((gx == Dx)%Q ->
   entry (Membrane.distance_field self (Membrane.new_coord Dx x, y)) i j
   = entry (Membrane.distance_field self (x, y)) i j) /\
  ((gy == - Dy)%Q ->
   entry (Membrane.distance_field self (x, Membrane.new_coord (- Dy) y)) i j
   = entry (Membrane.distance_field self (x, y)) i j) /\
  ((gx == - Dx)%Q ->
   entry (Membrane.distance_field self (Membrane.new_coord (- Dx) x, y)) i j
   = entry (Membrane.distance_field self (x, y)) i j).
Proof.
  intros Dx Dy Hg Hi Hj.
  repeat split; intro E;
    rewrite !(@distance_field_entry self xs ys _ i j gx gy Hg Hi Hj);
    cbn [fst snd]; rewrite (@mirrored_offset _ _ _ E); reflexivity.
Qed.

End DistanceEntries.

Lemma images_equidistant_on_edges_witness :
  entry (Membrane.distance_field
           membrane_half
           (1 # 4, Membrane.new_coord
                     (snd (snd (Membrane.domain membrane_half))) 0)%Q) 2 1
  = entry (Membrane.distance_field membrane_half (1 # 4, 0)%Q) 2 1.
Proof.
  apply (@images_equidistant_on_edges
           membrane_half [-1 # 2; 0 # 2; 1 # 2] [-1 # 2; 0 # 2; 1 # 2]
           (1 # 4) 0 2 1 (0 # 2) (1 # 2)).
  - repeat split; discriminate.
  - reflexivity.
  - reflexivity.
  - reflexivity.
Defined.

(** ** __init__: the grid and the extents of a constructed membrane *)

Lemma add_source_same_configuration (self : Membrane.t) (xs ys : list Q)
      (source : Wavepacket.t) (p : Membrane.pos) :
  grid_ok self xs ys ->
  same_configuration (fst (Membrane.add_source source p self)) self /\
  Membrane.data_results (fst (Membrane.add_source source p self))
  = Membrane.data_results self.
Proof.
  intro Hg.
  destruct (add_source_spec source p Hg)
    as (dmin & dmax & real & refl & r & _ & _ & _ & E & _).
  rewrite E. repeat split.
Qed.

Lemma forM_add_source_same_configuration (xs ys : list Q)
      (l : list (Wavepacket.t * Membrane.pos)) :
  forall self : Membrane.t,
    grid_ok self xs ys ->
    same_configuration
      (fst (forM_ l (fun sp => Membrane.add_source (fst sp) (snd sp)) self))
      self /\
    Membrane.data_results
      (fst (forM_ l (fun sp => Membrane.add_source (fst sp) (snd sp)) self))
    = Membrane.data_results self.
Proof.
  induction l as [|[src p] l IH]; intros self Hg; simpl;
    [repeat split|].
  unfold bindM.
  pose proof (add_source_grid_ok src p Hg) as H1.
  pose proof (add_source_same_configuration src p Hg) as H2.
  destruct (Membrane.add_source src p self) as [s1 [[]|e]]; simpl in *.
  - destruct (IH s1 H1) as [Hc Hr]. unfold same_configuration in *.
    intuition congruence.
  - exact H2.
Qed.

Section Arange.

Variables stop step : Q.
Hypothesis Hstop : (0 < stop)%Q.
Hypothesis Hstep : (0 < step)%Q.

(** [np.arange(0, stop, step)] for a positive stop and step: the multiples
    [0, step, ..., n * step] below [stop], the last of them less than a step
    away from it. *)
Lemma arange_from_zero :
  exists n : nat,
    Membrane.arange 0 stop step
    = Ok (map (fun i => (0 + inject_Z (Z.of_nat i) * step)%Q) (seq 0 (S n))) /\
    (inject_Z (Z.of_nat n) * step < stop)%Q /\
    (stop <= inject_Z (Z.of_nat n) * step + step)%Q.
Proof.
  unfold Membrane.arange.
  destruct (Qeq_bool step 0) eqn:E0.
  { apply Qeq_bool_eq in E0. exfalso. Lqa.lra. }
  set (q := ((stop - 0) / step)%Q).
  assert (Hne : ~ (step == 0)%Q) by Lqa.lra.
  assert (Hq : (step * q == stop)%Q).
  { unfold q. rewrite Qmult_div_r by exact Hne. ring. }
  assert (Hqpos : (0 < q)%Q).
  { unfold q. apply Qlt_shift_div_l; [exact Hstep|]. Lqa.lra. }
  pose proof (Qle_ceiling q) as Hc1.
  pose proof (Qceiling_lt q) as Hc2.
  assert (Hc : (0 < Qceiling q)%Z).
  { rewrite Zlt_Qlt. change (inject_Z 0) with 0%Q. Lqa.lra. }
  exists (Z.to_nat (Qceiling q - 1)).
  replace (S (Z.to_nat (Qceiling q - 1))) with (Z.to_nat (Qceiling q)) by lia.
  split; [reflexivity|].
  rewrite Z2Nat.id by lia.
  unfold Z.sub in *. rewrite inject_Z_plus in *.
  change (inject_Z (- (1))) with (- (1))%Q in *.
  split.
  - assert ((inject_Z (Qceiling q) + - (1)) * step < q * step)%Q
      by (apply Qmult_lt_compat_r; assumption).
    Lqa.nra.
  - assert (q * step <= inject_Z (Qceiling q) * step)%Q
      by (apply Qmult_le_compat_r; Lqa.lra).
    Lqa.nra.
Qed.

End Arange.

Lemma last_elt_app {A : Type} (l1 l2 : list A) :
  l2 <> [] -> last_elt (l1 ++ l2) = last_elt l2.
Proof.
  intro H. unfold last_elt. rewrite rev_app_distr.
  destruct (rev l2) as [|x r] eqn:E; [|reflexivity].
  exfalso. apply H. apply (f_equal (@rev A)) in E.
  rewrite rev_involutive in E. exact E.
Qed.

Lemma first_ok_nonempty {A : Type} (l : list A) (x : A) :
  first l = Ok x -> l <> [].
Proof. destruct l; [discriminate|discriminate]. Qed.

Lemma Forall2_Qeq_refl (l : list Q) : Forall2 Qeq l l.
Proof. induction l; constructor; [reflexivity|assumption]. Qed.

(** The mirrored axis of a sequence that starts at [0]: symmetric about
    [0], of odd length, ending where the sequence ends. *)
Lemma flip_and_hstack_spec (a : Q) (t : list Q) :
  (a == 0)%Q ->
  symmetric_axis (Membrane.flip_and_hstack (a :: t)) /\
  length (Membrane.flip_and_hstack (a :: t)) = (2 * length t + 1)%nat /\
  last_elt (Membrane.flip_and_hstack (a :: t)) = last_elt (a :: t).
Proof.
  intro Ha. unfold Membrane.flip_and_hstack, symmetric_axis. cbn [tl].
  split; [|split].
  - rewrite rev_app_distr. cbn [rev]. rewrite <- map_rev, rev_involutive.
    rewrite !map_app, map_rev. cbn [map]. rewrite <- app_assoc. cbn [app].
    apply Forall2_app.
    + apply Forall2_Qeq_refl.
    + constructor; [rewrite Ha; reflexivity|].
      clear. induction t; constructor; [apply Qopp_involutive|assumption].
  - rewrite length_app, length_map, length_rev. simpl. lia.
  - apply last_elt_app. discriminate.
Qed.

Lemma check_domain_ok (value : Q * Q) (d : (Q * Q) * (Q * Q)) :
  Membrane.check_domain value = Ok d <->
  (0 < fst value)%Q /\ (0 < snd value)%Q /\
  d = ((- fst value / 2, fst value / 2), (- snd value / 2, snd value / 2))%Q.
Proof.
  unfold Membrane.check_domain, BaseWave._set_tuple_value, Qgtb.
  destruct (Qltb 0 (fst value)) eqn:E1; destruct (Qltb 0 (snd value)) eqn:E2;
    cbn [andb]; split;
    try (intro H; discriminate H);
    try (intros (H1 & H2 & _); apply Qltb_lt in H1, H2; congruence).
  - intro H. injection H as <-. apply Qltb_lt in E1, E2. auto.
  - intros (_ & _ & ->). reflexivity.
Qed.

Lemma check_domain_raises (value : Q * Q) :
  (fst value <= 0)%Q \/ (snd value <= 0)%Q ->
  Membrane.check_domain value = Raise TypeError.
Proof.
  intro H. destruct (Membrane.check_domain value) as [d|e] eqn:E.
  - apply check_domain_ok in E. destruct E as (H1 & H2 & _).
    exfalso. destruct H; Lqa.lra.
  - unfold Membrane.check_domain, BaseWave._set_tuple_value in E.
    destruct (_ && _); [discriminate E|]. symmetry. exact E.
Qed.

(** What a successful construction has computed. *)
Lemma init_ok_inv (fs dx : Q) (size : Q * Q) (T : Membrane.time_arg)
      (sources : option (list (Wavepacket.t * Membrane.pos)))
      (normalize : bool) (boundary : pyval) (self : Membrane.t) :
  Membrane.init fs dx size T sources normalize boundary = Ok self ->
  exists ux uy x1 y1,
    (0 < fst size)%Q /\ (0 < snd size)%Q /\
    Membrane.arange 0 (fst size / 2) dx = Ok ux /\
    Membrane.arange 0 (snd size / 2) dx = Ok uy /\
    ux <> [] /\ uy <> [] /\
    Membrane.data_domain self
    = Membrane.meshgrid (Membrane.flip_and_hstack ux)
                        (Membrane.flip_and_hstack uy) /\
    last_elt (Membrane.flip_and_hstack ux) = Ok x1 /\
    last_elt (Membrane.flip_and_hstack uy) = Ok y1 /\
    (0 < x1 * 2)%Q /\ (0 < y1 * 2)%Q /\
    Membrane._xylims self
    = ((- (x1 * 2) / 2, x1 * 2 / 2), (- (y1 * 2) / 2, y1 * 2 / 2))%Q /\
    Membrane.fs self = fs /\ Membrane.dx self = dx /\
    Membrane.time self = Membrane.check_time T /\
    Membrane._boundary self = boundary /\
    Membrane.normalize self = normalize.
Proof.
  unfold Membrane.init.
  destruct (Membrane.check_domain size) as [xylims|] eqn:Ed; cbn [bind];
    [|discriminate].
  apply check_domain_ok in Ed. destruct Ed as (Hsx & Hsy & ->).
  destruct (Membrane.check_boundary boundary) as [b|] eqn:Eb; cbn [bind];
    [|discriminate].
  assert (b = boundary).
  { unfold Membrane.check_boundary in Eb.
    destruct (_ || _); [injection Eb as <-; reflexivity|discriminate Eb]. }
  subst b. cbn [fst snd].
  destruct (Membrane.arange 0 (fst size / 2) dx) as [ux|] eqn:Eux; cbn [bind];
    [|discriminate].
  destruct (Membrane.arange 0 (snd size / 2) dx) as [uy|] eqn:Euy; cbn [bind];
    [|discriminate].
  unfold Membrane.xs, Membrane.ys.
  cbn [Membrane.data_domain fst snd Membrane.meshgrid].
  destruct (Membrane.flip_and_hstack uy) as [|y0 hy'] eqn:Ehy;
    [cbn; discriminate|].
  rewrite first_repeat by discriminate. cbn [bind].
  destruct (Membrane.flip_and_hstack ux) as [|x0 hx'] eqn:Ehx;
    [cbn; discriminate|].
  rewrite mapM_first_repeat by discriminate.
  destruct (last_elt (x0 :: hx')) as [x1|] eqn:Ex1; cbn [bind]; [|discriminate].
  destruct (last_elt (y0 :: hy')) as [y1|] eqn:Ey1; cbn [bind]; [|discriminate].
  destruct (Membrane.check_domain ((x1 * 2)%Q, (y1 * 2)%Q)) as [xylims'|] eqn:Ed';
    cbn [bind]; [|discriminate].
  apply check_domain_ok in Ed'. cbn [fst snd] in Ed'.
  destruct Ed' as (Hx1 & Hy1 & ->).
  set (self0 := Membrane.mk fs dx (Membrane.check_time T) _ _ None boundary
                            normalize [] []).
  assert (Hux : ux <> []).
  { intro E. subst ux. discriminate Ehx. }
  assert (Huy : uy <> []).
  { intro E. subst uy. discriminate Ehy. }
  assert (Hg : grid_ok self0 (x0 :: hx') (y0 :: hy'))
    by (repeat split; discriminate).
  assert (Hfin : forall s, same_configuration s self0 ->
                           Ok s = Ok self -> 
                           exists ux0 uy0 x2 y2,
    (0 < fst size)%Q /\ (0 < snd size)%Q /\
    Ok ux = Ok ux0 /\ Ok uy = Ok uy0 /\
    ux0 <> [] /\ uy0 <> [] /\
    Membrane.data_domain self
    = Membrane.meshgrid (Membrane.flip_and_hstack ux0)
                        (Membrane.flip_and_hstack uy0) /\
    last_elt (Membrane.flip_and_hstack ux0) = Ok x2 /\
    last_elt (Membrane.flip_and_hstack uy0) = Ok y2 /\
    (0 < x2 * 2)%Q /\ (0 < y2 * 2)%Q /\
    Membrane._xylims self
    = ((- (x2 * 2) / 2, x2 * 2 / 2), (- (y2 * 2) / 2, y2 * 2 / 2))%Q /\
    Membrane.fs self = fs /\ Membrane.dx self = dx /\
    Membrane.time self = Membrane.check_time T /\
    Membrane._boundary self = boundary /\
    Membrane.normalize self = normalize).
  { intros s (H1 & H2 & H3 & H4 & H5 & H6 & H7) Hs.
    injection Hs as ->.
    exists ux, uy, x1, y1. rewrite Ehx, Ehy.
    repeat split; assumption. }
  destruct sources as [l|].
  - pose proof (forM_add_source_same_configuration l Hg) as [Hf _].
    destruct (forM_ l _ self0) as [s' [[]|e]]; cbn [bind fst] in *;
      [|discriminate].
    intro H. apply (Hfin s' Hf H).
  - intro H. apply (Hfin self0); [repeat split|exact H].
Qed.

Lemma arange_nonempty_step_pos (stop step : Q) (u : list Q) :
  (0 < stop)%Q -> Membrane.arange 0 stop step = Ok u -> u <> [] ->
  (0 < step)%Q.
Proof.
  intros Hstop E Hu. unfold Membrane.arange in E.
  destruct (Qeq_bool step 0) eqn:E0; [discriminate E|].
  apply Qeq_bool_neq in E0. injection E as <-.
  set (q := ((stop - 0) / step)%Q) in *.
  assert (Hc : (0 < Qceiling q)%Z).
  { destruct (Z_lt_le_dec 0 (Qceiling q)) as [H|H]; [exact H|].
    exfalso. apply Hu. replace (Z.to_nat (Qceiling q)) with 0%nat by lia.
    reflexivity. }
  pose proof (Qceiling_lt q) as Hq.
  assert (H0 : (0 <= inject_Z (Qceiling q - 1))%Q).
  { change 0%Q with (inject_Z 0). rewrite <- Zle_Qle. lia. }
  assert (Hqs : (step * q == stop)%Q).
  { unfold q. rewrite Qmult_div_r by exact E0. ring. }
  destruct (Qlt_le_dec 0 step) as [H|H]; [exact H|].
  exfalso.
  assert (0 <= q * (- step))%Q by (apply Qmult_le_0_compat; Lqa.lra).
  Lqa.nra.
Qed.

(** The axis behind [np.arange(0, half, dx)] mirrored, for a positive half
    size: symmetric, odd, and ending on the last multiple of [dx] below
    [half]. *)
Lemma mirrored_axis (half dx : Q) (u : list Q) :
  (0 < half)%Q -> Membrane.arange 0 half dx = Ok u -> u <> [] ->
  exists n : nat,
    symmetric_axis (Membrane.flip_and_hstack u) /\
    length (Membrane.flip_and_hstack u) = (2 * n + 1)%nat /\
    last_elt (Membrane.flip_and_hstack u)
    = Ok (0 + inject_Z (Z.of_nat n) * dx)%Q /\
    (0 < dx)%Q /\
    (inject_Z (Z.of_nat n) * dx < half)%Q /\
    (half <= inject_Z (Z.of_nat n) * dx + dx)%Q.
Proof.
  intros Hh E Hu.
  pose proof (@arange_nonempty_step_pos _ _ _ Hh E Hu) as Hdx.
  destruct (@arange_from_zero _ _ Hh Hdx) as (n & E' & H1 & H2).
  rewrite E in E'. injection E' as ->.
  exists n.
  set (f := fun i : nat => (0 + inject_Z (Z.of_nat i) * dx)%Q).
  assert (Eu : map f (seq 0 (S n)) = f 0%nat :: map f (seq 1 n))
    by reflexivity.
  destruct (@flip_and_hstack_spec (f 0%nat) (map f (seq 1 n)))
    as (Hs & Hl & Hlast).
  { unfold f. change (inject_Z (Z.of_nat 0)) with 0%Q. ring. }
  change ((0 + inject_Z 0 * dx)%Q :: map f (seq 1 n))
    with (f 0%nat :: map f (seq 1 n)).
  split; [exact Hs|]. split; [rewrite Hl, length_map, length_seq; reflexivity|].
  split; [|auto].
  rewrite Hlast, <- Eu, seq_S, map_app. cbn [map].
  rewrite last_elt_app by discriminate. reflexivity.
Qed.

(** X11.  Every membrane the constructor returns has a
    grid centred at the origin: each of its two axes mirrors itself about
    [0] and has an odd number of samples. *)
Theorem init_grid_centred (fs dx : Q) (size : Q * Q) (T : Membrane.time_arg)
        (sources : option (list (Wavepacket.t * Membrane.pos)))
        (normalize : bool) (boundary : pyval) (self : Membrane.t) :
  Membrane.init fs dx size T sources normalize boundary = Ok self ->
  exists xs ys n m,
    Membrane.xs self = Ok xs /\ Membrane.ys self = Ok ys /\
    symmetric_axis xs /\ symmetric_axis ys /\
    length xs = (2 * n + 1)%nat /\ length ys = (2 * m + 1)%nat.
Proof.
  intro H. apply init_ok_inv in H.
  destruct H as (ux & uy & x1 & y1 & Hsx & Hsy & Eux & Euy & Hux & Huy & Hg
                 & _).
  assert (Hhx : (0 < fst size / 2)%Q) by (apply Qlt_shift_div_l; Lqa.lra).
  assert (Hhy : (0 < snd size / 2)%Q) by (apply Qlt_shift_div_l; Lqa.lra).
  destruct (@mirrored_axis _ _ _ Hhx Eux Hux) as (n & Hs1 & Hl1 & _).
  destruct (@mirrored_axis _ _ _ Hhy Euy Huy) as (m & Hs2 & Hl2 & _).
  assert (Hgrid : grid_ok self (Membrane.flip_and_hstack ux)
                          (Membrane.flip_and_hstack uy)).
  { split; [|split; [|exact Hg]]; intro E.
    - rewrite E in Hl1. simpl in Hl1. lia.
    - rewrite E in Hl2. simpl in Hl2. lia. }
  exists (Membrane.flip_and_hstack ux), (Membrane.flip_and_hstack uy), n, m.
  split; [apply (grid_xs Hgrid)|]. split; [apply (grid_ys Hgrid)|]. auto.
Qed.

Lemma init_grid_centred_witness :
  exists xs ys n m,
    Membrane.xs membrane_e2e = Ok xs /\ Membrane.ys membrane_e2e = Ok ys /\
    symmetric_axis xs /\ symmetric_axis ys /\
    length xs = (2 * n + 1)%nat /\ length ys = (2 * m + 1)%nat.
Proof. exact (@init_grid_centred _ _ _ _ _ _ _ _ membrane_e2e_built). Defined.

(** X12.  The extents a constructed membrane stores are
    those of the grid it built, not the requested ones: on each axis the
    stored pair is minus and plus the outermost coordinate of the axis,
    which is positive. *)
Theorem init_extents_snapped (fs dx : Q) (size : Q * Q) (T : Membrane.time_arg)
        (sources : option (list (Wavepacket.t * Membrane.pos)))
        (normalize : bool) (boundary : pyval) (self : Membrane.t) :
  Membrane.init fs dx size T sources normalize boundary = Ok self ->
  exists xs ys x1 y1,
    Membrane.xs self = Ok xs /\ Membrane.ys self = Ok ys /\
    last_elt xs = Ok x1 /\ last_elt ys = Ok y1 /\
    (fst (fst (Membrane.domain self)) == - x1)%Q /\
    (snd (fst (Membrane.domain self)) == x1)%Q /\
    (fst (snd (Membrane.domain self)) == - y1)%Q /\
    (snd (snd (Membrane.domain self)) == y1)%Q /\
    (0 < x1)%Q /\ (0 < y1)%Q.
Proof.
  intro H. apply init_ok_inv in H.
  destruct H as (ux & uy & x1 & y1 & Hsx & Hsy & Eux & Euy & Hux & Huy & Hg
                 & Ex1 & Ey1 & Hx1 & Hy1 & Ed & _).
  assert (Hhx : (0 < fst size / 2)%Q) by (apply Qlt_shift_div_l; Lqa.lra).
  assert (Hhy : (0 < snd size / 2)%Q) by (apply Qlt_shift_div_l; Lqa.lra).
  destruct (@mirrored_axis _ _ _ Hhx Eux Hux) as (n & _ & Hl1 & _).
  destruct (@mirrored_axis _ _ _ Hhy Euy Huy) as (m & _ & Hl2 & _).
  assert (Hgrid : grid_ok self (Membrane.flip_and_hstack ux)
                          (Membrane.flip_and_hstack uy)).
  { split; [|split; [|exact Hg]]; intro E.
    - rewrite E in Hl1. simpl in Hl1. lia.
    - rewrite E in Hl2. simpl in Hl2. lia. }
  exists (Membrane.flip_and_hstack ux), (Membrane.flip_and_hstack uy), x1, y1.
  split; [apply (grid_xs Hgrid)|]. split; [apply (grid_ys Hgrid)|].
  split; [exact Ex1|]. split; [exact Ey1|].
  unfold Membrane.domain. rewrite Ed. cbn [fst snd].
  split; [field|]. split; [field|]. split; [field|]. split; [field|].
  split; Lqa.lra.
Qed.

Lemma init_extents_snapped_witness :
  exists xs ys x1 y1,
    Membrane.xs membrane_e2e = Ok xs /\ Membrane.ys membrane_e2e = Ok ys /\
    last_elt xs = Ok x1 /\ last_elt ys = Ok y1 /\
    (fst (fst (Membrane.domain membrane_e2e)) == - x1)%Q /\
    (snd (fst (Membrane.domain membrane_e2e)) == x1)%Q /\
    (fst (snd (Membrane.domain membrane_e2e)) == - y1)%Q /\
    (snd (snd (Membrane.domain membrane_e2e)) == y1)%Q /\
    (0 < x1)%Q /\ (0 < y1)%Q.
Proof. exact (@init_extents_snapped _ _ _ _ _ _ _ _ membrane_e2e_built). Defined.

Lemma coarse_axis_degenerate (half dx : Q) (n : nat) :
  (0 < dx)%Q -> (inject_Z (Z.of_nat n) * dx < half)%Q -> (half <= dx)%Q ->
  ((0 + inject_Z (Z.of_nat n) * dx) * 2 <= 0)%Q.
Proof.
  intros Hdx Hn Hh. destruct n as [|n].
  - change (inject_Z (Z.of_nat 0)) with 0%Q. Lqa.lra.
  - exfalso.
    assert (H1 : (1 <= Z.of_nat (S n))%Z) by lia.
    rewrite Zle_Qle in H1. change (inject_Z 1) with 1%Q in H1.
    assert (0 <= (inject_Z (Z.of_nat (S n)) - 1) * dx)%Q
      by (apply Qmult_le_0_compat; Lqa.lra).
    Lqa.nra.
Qed.

(** X13.  With positive sizes and an accepted
    boundary, the constructor raises [TypeError] when the step [dx] is not
    smaller than half a size: that axis is the single sample [0], the
    extent re-set from it is [0], and the [domain] setter refuses it. *)
Theorem init_coarse_step_raises (fs dx : Q) (size : Q * Q)
        (T : Membrane.time_arg)
        (sources : option (list (Wavepacket.t * Membrane.pos)))
        (normalize : bool) (boundary : pyval) :
  (0 < fs)%Q -> (0 < fst size)%Q -> (0 < snd size)%Q ->
  Membrane.check_boundary boundary = Ok boundary ->
  (fst size / 2 <= dx)%Q \/ (snd size / 2 <= dx)%Q ->
  Membrane.init fs dx size T sources normalize boundary = Raise TypeError.
Proof.
  intros _ Hsx Hsy Hb Hc.
  assert (Hhx : (0 < fst size / 2)%Q) by (apply Qlt_shift_div_l; Lqa.lra).
  assert (Hhy : (0 < snd size / 2)%Q) by (apply Qlt_shift_div_l; Lqa.lra).
  assert (Hdx : (0 < dx)%Q) by (destruct Hc; Lqa.lra).
  destruct (@arange_from_zero _ _ Hhx Hdx) as (n0 & Eux & _).
  destruct (@arange_from_zero _ _ Hhy Hdx) as (m0 & Euy & _).
  destruct (@mirrored_axis _ _ _ Hhx Eux) as (n & _ & Hl1 & El1 & _ & Hn & _);
    [discriminate|].
  destruct (@mirrored_axis _ _ _ Hhy Euy) as (m & _ & Hl2 & El2 & _ & Hm & _);
    [discriminate|].
  unfold Membrane.init.
  rewrite (proj2 (check_domain_ok size _) (conj Hsx (conj Hsy eq_refl))).
  cbn [bind]. rewrite Hb. cbn [bind fst snd]. rewrite Eux, Euy. cbn [bind].
  unfold Membrane.xs, Membrane.ys.
  cbn [Membrane.data_domain fst snd Membrane.meshgrid].
  set (hx := Membrane.flip_and_hstack (map _ (seq 0 (S n0)))) in *.
  set (hy := Membrane.flip_and_hstack (map _ (seq 0 (S m0)))) in *.
  destruct hy as [|y0 hy']; [simpl in Hl2; lia|].
  rewrite first_repeat by discriminate. cbn [bind].
  destruct hx as [|x0 hx']; [simpl in Hl1; lia|].
  rewrite mapM_first_repeat by discriminate.
  rewrite El1. cbn [bind]. rewrite El2. cbn [bind].
  rewrite check_domain_raises; [reflexivity|]. cbn [fst snd].
  destruct Hc as [Hc|Hc]; [left|right].
  - apply coarse_axis_degenerate with (half := (fst size / 2)%Q); assumption.
  - apply coarse_axis_degenerate with (half := (snd size / 2)%Q); assumption.
Qed.

Lemma init_coarse_step_raises_witness :
  Membrane.init 10 1 (2, 3) (Membrane.TScalar 1) None true (PyStr "free")
  = Raise TypeError.
Proof.
  apply init_coarse_step_raises; try reflexivity.
  left. discriminate.
Defined.

(** ** Membrane.eval: what it leaves alone, and what it publishes *)

Section EvalFrame.

Variable complex_wave : (R -> R) -> R -> list R -> list R -> cfield2.
Variable interp : field2 -> list R -> field2 -> field3.

(** The loop keeps every placement's position and distance field. *)
Lemma run_sources_keeps_positions (todo : list Membrane.placement) :
  forall data,
    map (fun pl => (position pl, snd pl))
        (fst (Membrane.run_sources complex_wave interp todo data))
    = map (fun pl => (position pl, snd pl)) todo.
Proof.
  induction todo as [|[[src p] dist] rest IH]; intro data; simpl;
    [reflexivity|].
  destruct (Wavepacket.eval complex_wave false src) as [src1 [[]|e]];
    [|reflexivity].
  destruct (src_data <- match Wavepacket.get_data src1 with
                        | Some d => Ok d
                        | None => Raise TypeError
                        end ;;
            iadd_3 data (interp dist (Wavepacket.get_space src1) src_data))
    as [data1|e]; [|reflexivity].
  specialize (IH data1).
  destruct (Membrane.run_sources complex_wave interp rest data1).
  simpl in *. rewrite IH. reflexivity.
Qed.

Lemma with_placements_split {B : Type} (f : Membrane.placement -> B)
      (self : Membrane.t) (pls : list Membrane.placement) :
  map f pls
  = map f (Membrane._sources self ++ Membrane._reflected_sources self) ->
  map f (Membrane._sources (Membrane.with_placements pls self))
  = map f (Membrane._sources self) /\
  map f (Membrane._reflected_sources (Membrane.with_placements pls self))
  = map f (Membrane._reflected_sources self).
Proof.
  intro H. unfold Membrane.with_placements.
  cbn [Membrane._sources Membrane._reflected_sources
       Membrane.with_reflected_sources Membrane.with_sources].
  rewrite <- firstn_map, <- skipn_map, H, map_app.
  rewrite <- (length_map f (Membrane._sources self)).
  split.
  - rewrite firstn_app, Nat.sub_diag, firstn_all, firstn_O, app_nil_r.
    reflexivity.
  - rewrite skipn_app, Nat.sub_diag, skipn_all. reflexivity.
Qed.

(** X14.  Whatever [eval] returns, it leaves the
    discretisation, the extents, the grid, the boundary and the
    normalisation flag as they were, and every placement at its position
    with its distance field: it touches only the placements' wavepackets
    and the results. *)
Theorem eval_keeps_configuration (self self' : Membrane.t) (r : result unit) :
  Membrane.eval complex_wave interp self = (self', r) ->
  same_configuration self' self /\
  map (fun pl => (position pl, snd pl)) (Membrane._sources self')
  = map (fun pl => (position pl, snd pl)) (Membrane._sources self) /\
  map (fun pl => (position pl, snd pl)) (Membrane._reflected_sources self')
  = map (fun pl => (position pl, snd pl)) (Membrane._reflected_sources self).
Proof.
  intro H. apply membrane_eval_cases in H.
  destruct H as [(e & _ & ->)|(xs & ys & pls & rs & _ & _ & Er & H)].
  { repeat split. }
  pose proof (run_sources_keeps_positions
                (Membrane._sources self ++ Membrane._reflected_sources self)
                (zeros3 (length xs) (length ys)
                        (length (Membrane.get_time self)))) as Hk.
  rewrite Er in Hk. cbn [fst] in Hk.
  destruct (with_placements_split _ self pls Hk) as [H1 H2].
  destruct H as [(e & _ & _ & ->)|[(data & e & _ & _ & _ & ->)
                                  |(data & nd & _ & _ & _ & ->)]];
    (split; [repeat split|split; [exact H1|exact H2]]).
Qed.

End EvalFrame.

Lemma eval_keeps_configuration_witness :
  let res := Membrane.eval cw_ones interp_first membrane_e2e_source in
  same_configuration (fst res) membrane_e2e_source /\
  map (fun pl => (position pl, snd pl)) (Membrane._sources (fst res))
  = map (fun pl => (position pl, snd pl))
        (Membrane._sources membrane_e2e_source) /\
  map (fun pl => (position pl, snd pl)) (Membrane._reflected_sources (fst res))
  = map (fun pl => (position pl, snd pl))
        (Membrane._reflected_sources membrane_e2e_source).
Proof.
  intro res.
  apply (@eval_keeps_configuration cw_ones interp_first membrane_e2e_source
                                   (fst res) (snd res)).
  apply surjective_pairing.
Defined.

Section EvalPublishes.

Variable complex_wave : (R -> R) -> R -> list R -> list R -> cfield2.
Variable interp : field2 -> list R -> field2 -> field3.

Local Open Scope R_scope.

Lemma flat3_zeros_all_zero (n m k : nat) :
  Forall (fun v => v = 0) (flat3 (zeros3 n m k)).
Proof.
  unfold flat3, zeros3. apply Forall_forall. intros v Hv.
  apply in_concat in Hv. destruct Hv as (row & Hrow & Hv).
  apply in_concat in Hrow. destruct Hrow as (pl & Hpl & Hrow).
  apply repeat_spec in Hpl. subst pl.
  apply repeat_spec in Hrow. subst row.
  apply repeat_spec in Hv. exact Hv.
Qed.

Lemma flat3_zeros_no_time (n m : nat) : flat3 (zeros3 n m 0) = [].
Proof.
  pose proof (flat3_zeros_all_zero n m 0) as H.
  destruct (flat3 (zeros3 n m 0)) as [|v l] eqn:E; [reflexivity|].
  exfalso.
  assert (Hin : In v (flat3 (zeros3 n m 0))) by (rewrite E; left; reflexivity).
  unfold flat3, zeros3 in Hin.
  apply in_concat in Hin. destruct Hin as (row & Hrow & Hv).
  apply in_concat in Hrow. destruct Hrow as (pl & Hpl & Hrow).
  apply repeat_spec in Hpl. subst pl.
  apply repeat_spec in Hrow. subst row. inversion Hv.
Qed.

(** The normalisation leaves an all-zero field as it is. *)
Lemma normalizing_zeros (flag : bool) (n m k : nat) :
  flag = false \/ (n <> 0%nat /\ m <> 0%nat /\ k <> 0%nat) ->
  Membrane.normalizing flag (zeros3 n m k) = Ok (zeros3 n m k).
Proof.
  intros [->|(Hn & Hm & Hk)]; [reflexivity|].
  unfold Membrane.normalizing. destruct flag; [|reflexivity].
  pose proof (flat3_zeros_all_zero n m k) as Hz.
  pose proof (shape3_flat_nonempty (zeros3_shape n m k) Hn Hm Hk) as Hne.
  destruct (flat3 (zeros3 n m k)) as [|v l] eqn:E; [congruence|].
  assert (Hmax : np_max (map Rabs (v :: l)) = Ok 0).
  { apply np_max_unique.
    - left. inversion Hz; subst. apply Rabs_R0.
    - apply Forall_forall. intros a Ha. apply in_map_iff in Ha.
      destruct Ha as (u & <- & Hu). rewrite Forall_forall in Hz.
      rewrite (Hz u Hu), Rabs_R0. lra. }
  rewrite Hmax. cbn [bind].
  destruct (Rle_dec tiny 0) as [Hc|_]; [|reflexivity].
  pose proof tiny_pos. lra.
Qed.

Lemma with_placements_nil (self : Membrane.t) :
  Membrane._sources self = [] -> Membrane._reflected_sources self = [] ->
  Membrane.with_placements [] self = self.
Proof.
  intros H1 H2. unfold Membrane.with_placements. rewrite H1.
  destruct self. cbn in *. subst. reflexivity.
Qed.

(** Without placements the loop does nothing and the zero field is
    published. *)
Lemma eval_zero_field (self : Membrane.t) (xs ys : list Q) :
  Membrane.xs self = Ok xs -> Membrane.ys self = Ok ys ->
  Membrane._sources self = [] -> Membrane._reflected_sources self = [] ->
  let nt := length (Membrane.get_time self) in
  Membrane.normalize self = false \/
  (xs <> [] /\ ys <> [] /\ nt <> 0%nat) ->
  Membrane.eval complex_wave interp self
  = (Membrane.with_results (Some (zeros3 (length xs) (length ys) nt)) self,
     Ok tt).
Proof.
  intros Ex Ey Hs Hr nt H.
  unfold Membrane.eval, bindM, gets, lift. rewrite Ex, Ey, Hs, Hr.
  cbn [app Membrane.run_sources]. fold nt.
  rewrite (with_placements_nil self Hs Hr).
  rewrite normalizing_zeros; [reflexivity|].
  destruct H as [H|(H1 & H2 & H3)]; [left; exact H|right].
  repeat split; try assumption; apply length_nonzero; assumption.
Qed.

(** X15.  On a membrane without any placement [eval]
    calls no collaborator and publishes the all-zero field of shape
    (nX, nY, nT), provided the normalisation is off or the field has at
    least one entry; with the normalisation on and a time axis without
    samples, the maximum of the empty field raises [ValueError] and nothing
    is published. *)
Theorem eval_without_sources (self : Membrane.t) (xs ys : list Q) :
  Membrane.xs self = Ok xs -> Membrane.ys self = Ok ys ->
  Membrane._sources self = [] -> Membrane._reflected_sources self = [] ->
  let nt := length (Membrane.get_time self) in
  (Membrane.normalize self = false \/
   (xs <> [] /\ ys <> [] /\ nt <> 0%nat) ->
   Membrane.eval complex_wave interp self
   = (Membrane.with_results (Some (zeros3 (length xs) (length ys) nt)) self,
      Ok tt)) /\
  (Membrane.normalize self = true -> nt = 0%nat ->
   Membrane.eval complex_wave interp self = (self, Raise ValueError)).
Proof.
  intros Ex Ey Hs Hr nt. split.
  - apply eval_zero_field; assumption.
  - intros Hn Ht. unfold Membrane.eval, bindM, gets, lift.
    rewrite Ex, Ey, Hs, Hr. cbn [app Membrane.run_sources]. fold nt.
    rewrite (with_placements_nil self Hs Hr), Hn, Ht.
    unfold Membrane.normalizing. rewrite flat3_zeros_no_time. reflexivity.
Qed.

(** X16.  After an [eval] that succeeded with the
    normalisation on, every published value lies in [[-1, 1]], and the
    largest absolute value of the field is either exactly [1] or below the
    threshold [1e-24] (the field was left unscaled). *)
Theorem eval_normalized_range (self self' : Membrane.t) (nd : field3) :
  Membrane.eval complex_wave interp self = (self', Ok tt) ->
  Membrane.normalize self = true ->
  Membrane.get_data self' = Some nd ->
  Forall (fun v => -1 <= v <= 1) (flat3 nd) /\
  forall m, np_max (map Rabs (flat3 nd)) = Ok m -> m = 1 \/ m < tiny.
Proof.
  intros H Hn Hd. apply membrane_eval_cases in H.
  destruct H as [(e & He & _)|(xs & ys & pls & rs & _ & _ & _ & H)];
    [discriminate He|].
  destruct H as [(e & _ & He & _)|[(data & e & _ & _ & He & _)
                                  |(data & nd' & _ & En & _ & ->)]];
    try discriminate He.
  cbn in Hd. injection Hd as ->. rewrite Hn in En.
  split; [apply membrane_normalized_bounds with (data := data); exact En|].
  intros m Hm.
  destruct (np_max (map Rabs (flat3 data))) as [m0|] eqn:E0.
  - destruct (Rle_dec tiny m0) as [Hle|Hlt].
    + left. rewrite (@membrane_normalized_max _ _ _ E0 Hle En) in Hm.
      injection Hm as <-. reflexivity.
    + right. unfold Membrane.normalizing in En. rewrite E0 in En.
      cbn [bind] in En. destruct (Rle_dec tiny m0); [contradiction|].
      injection En as <-. rewrite E0 in Hm. injection Hm as <-. lra.
  - unfold Membrane.normalizing in En. rewrite E0 in En. discriminate En.
Qed.

End EvalPublishes.

Lemma eval_without_sources_witness :
  Membrane.eval cw_ones interp_first
                (Membrane.mk 10 (1 # 2) (0, 1) (Membrane._xylims membrane_small)
                             (Membrane.data_domain membrane_small) None
                             (PyStr "transparent") false [] [])
  = (Membrane.with_results
       (Some (zeros3 3 3
                (length (Membrane.get_time
                           (Membrane.mk 10 (1 # 2) (0, 1)
                              (Membrane._xylims membrane_small)
                              (Membrane.data_domain membrane_small) None
                              (PyStr "transparent") false [] [])))))
       (Membrane.mk 10 (1 # 2) (0, 1) (Membrane._xylims membrane_small)
                    (Membrane.data_domain membrane_small) None
                    (PyStr "transparent") false [] []),
     Ok tt).
Proof.
  apply (proj1 (@eval_without_sources
                  cw_ones interp_first
                  (Membrane.mk 10 (1 # 2) (0, 1)
                               (Membrane._xylims membrane_small)
                               (Membrane.data_domain membrane_small) None
                               (PyStr "transparent") false [] [])
                  [-1 # 2; 0 # 2; 1 # 2] [-1 # 2; 0 # 2; 1 # 2]
                  eq_refl eq_refl eq_refl eq_refl)).
  left. reflexivity.
Defined.

Lemma time_axis_small : length (Membrane.get_time membrane_small) = 11%nat.
Proof. exact time_axis_e2e. Qed.

(** ** A field that is not zero: the unit term *)

Section UnitField.

Local Open Scope R_scope.

Lemma mapM_repeat {A B : Type} (f : A -> result B) (a : A) (c : B) (n : nat) :
  f a = Ok c -> mapM f (repeat a n) = Ok (repeat c n).
Proof.
  intro H. induction n as [|n IH]; simpl; [reflexivity|].
  rewrite H, IH. reflexivity.
Qed.

Lemma zipM_repeat {A B D : Type} (f : A -> B -> result D) (a : A) (b : B)
      (c : D) (n : nat) :
  f a b = Ok c -> zipM f (repeat a n) (repeat b n) = Ok (repeat c n).
Proof.
  intro H. induction n as [|n IH]; simpl; [reflexivity|].
  rewrite H, IH. reflexivity.
Qed.

Lemma bcast_repeat {A B : Type} (f : A -> B -> result A) (a : A) (b : B)
      (c : A) (n : nat) :
  f a b = Ok c -> bcast f (repeat a n) (repeat b n) = Ok (repeat c n).
Proof.
  intro H. destruct n as [|[|n]].
  - reflexivity.
  - simpl. rewrite H. reflexivity.
  - unfold bcast. change (repeat b (S (S n))) with (b :: b :: repeat b n) at 1.
    cbv iota. rewrite !repeat_length, Nat.eqb_refl.
    apply zipM_repeat, H.
Qed.

Lemma concat_repeat_repeat {A : Type} (v : A) (k m : nat) :
  concat (repeat (repeat v k) m) = repeat v (m * k).
Proof.
  induction m as [|m IH]; simpl; [reflexivity|].
  rewrite IH, repeat_app. reflexivity.
Qed.

Lemma np_max_repeat (r : R) (n : nat) : np_max (repeat r (S n)) = Ok r.
Proof.
  simpl. f_equal. induction n as [|n IH]; simpl; [reflexivity|].
  rewrite Rmax_left by lra. exact IH.
Qed.

Lemma map_const_shape {A D : Type} (c : D) (a : list (list A)) (n m : nat)
      (f : A -> D) :
  (forall x, f x = c) -> has_shape2 a n m ->
  map (map f) a = repeat (repeat c m) n.
Proof.
  intros Hf [<- H]. induction a as [|row a IH]; simpl; [reflexivity|].
  inversion H as [|? ? Hr Ha]; subst. rewrite (IH Ha). f_equal.
  clear - Hf. induction row as [|x row IH]; simpl; [reflexivity|].
  rewrite Hf, IH. reflexivity.
Qed.

Lemma Cabs_unit : Cabs (Cplus C0 (0, -1)) = 1.
Proof.
  unfold Cabs, Cplus, C0. cbn [fst snd].
  replace ((0 + 0) * (0 + 0) + (0 + -1) * (0 + -1)) with 1 by ring.
  apply sqrt_1.
Qed.

(** A wavepacket with one frequency and one dispersion relation, evaluated
    with the term [cw_unit]: a displacement of [1] everywhere. *)
Lemma unit_wave_eval (w : Wavepacket.t) (f : R) (d : R -> R) :
  let tv := BaseWave._discretize (Wavepacket.time_boundary w)
                                 (Wavepacket.dt w) in
  let xv := BaseWave._discretize (Wavepacket.space_boundary w)
                                 (Wavepacket.dx w) in
  Wavepacket._freq_spectrum w = [f] -> Wavepacket._disprel w = [d] ->
  Wavepacket.normalize w = true -> Wavepacket._envelope_func w = None ->
  tv <> [] -> xv <> [] ->
  exists w',
    Wavepacket.eval cw_unit false w = (w', Ok tt) /\
    Wavepacket.get_space w' = xv /\
    Wavepacket.get_data w'
    = Some (repeat (repeat 1 (length xv)) (length tv)).
Proof.
  intros tv xv Hf Hd Hn He Ht Hx.
  destruct (first_total Ht) as [t0 E0], (last_elt_total Ht) as [t1 E1].
  destruct (first_total Hx) as [x0 E2], (last_elt_total Hx) as [x1 E3].
  set (z := Cplus C0 (0, -1)).
  set (acc := repeat (repeat z (length xv)) (length tv)).
  assert (Hmax : np_max (map Cabs (concat acc)) = Ok 1).
  { unfold acc. rewrite concat_repeat_repeat, map_repeat.
    destruct tv as [|a tv']; [contradiction|].
    destruct xv as [|b xv']; [contradiction|].
    cbn [length Nat.mul Nat.add]. rewrite np_max_repeat.
    unfold z. rewrite Cabs_unit. reflexivity. }
  eexists. split; [|split].
  - apply wavepacket_eval_ok.
    exists t0, t1, x0, x1, acc, (map (map (fun c => Cdiv_real c 1)) acc).
    fold tv xv. rewrite Hf, Hd, Hn, He.
    split; [exact E0|]. split; [exact E1|].
    split; [exact E2|]. split; [exact E3|].
    split; [|split; [|reflexivity]].
    + unfold Wavepacket.accumulate.
      cbn [Wavepacket._freq_spectrum Wavepacket._disprel Wavepacket.x_vect
           Wavepacket.time_vect foldM bind].
      unfold cw_unit, iadd_c2, zeros2.
      rewrite (@bcast_repeat _ _ _ (repeat C0 (length xv))
                             (repeat (0, -1) (length xv))
                             (repeat z (length xv)));
        [reflexivity|].
      apply bcast_repeat. reflexivity.
    + unfold Wavepacket.normalizing. rewrite Hmax. cbn [bind].
      destruct (Rle_dec tiny 1) as [_|Hc]; [reflexivity|].
      exfalso. apply Hc, tiny_le_1.
  - reflexivity.
  - unfold Wavepacket.get_data, Wavepacket.data.
    cbn [Wavepacket.with_results Wavepacket.complex_data
         Wavepacket.apply_envelope].
    f_equal. unfold acc. rewrite !map_repeat. 
    replace (- snd (Cdiv_real z 1)) with 1; [reflexivity|].
    unfold z, Cdiv_real, Cplus, C0. cbn [fst snd]. field.
Qed.

Lemma hd_repeat {A : Type} (d v : A) (n : nat) : n <> 0%nat -> hd d (repeat v n) = v.
Proof. destruct n; [contradiction|reflexivity]. Qed.

(** The three-by-three membrane with a source at the origin, evaluated with
    the term [cw_unit]: the accumulated field has the value [0 + 1]
    everywhere, and the division of the normalisation is carried out. *)
Lemma small_source_unit_field :
  exists self' nd,
    Membrane.eval cw_unit interp_first membrane_small_source = (self', Ok tt) /\
    Membrane.get_data self' = Some nd /\
    np_max (map Rabs (flat3 nd)) = Ok 1.
Proof.
  destruct (@registered_transparent membrane_small _ _ wavepacket_k_id
              (0, 0)%Q grid_small eq_refl eq_refl eq_refl)
    as (d_min & d_max & Hd & _ & Hzero & _ & E).
  assert (Hw : within_extents [-1 # 2; 0 # 2; 1 # 2]%Q
                              [-1 # 2; 0 # 2; 1 # 2]%Q (0, 0)%Q).
  { exists (-1 # 2)%Q, (1 # 2)%Q, (-1 # 2)%Q, (1 # 2)%Q.
    repeat split; discriminate. }
  rewrite (Hzero Hw) in E. clear Hzero d_min.
  unfold membrane_small_source. rewrite E. cbn [fst].
  set (src := Membrane.bind_source membrane_small wavepacket_k_id 0 d_max).
  set (dist := Membrane.distance_field membrane_small (0, 0)%Q).
  set (s := Membrane.with_reflected_sources _ _).
  assert (Hg : grid_ok s [-1 # 2; 0 # 2; 1 # 2]%Q [-1 # 2; 0 # 2; 1 # 2]%Q)
    by (repeat split; discriminate).
  set (tv := Membrane.get_time membrane_small).
  set (xv := BaseWave._discretize (0, d_max) (Q2R (1 # 2))).
  assert (Ht : tv <> []).
  { pose proof time_axis_small as Hl. fold tv in Hl.
    destruct tv; [discriminate Hl|discriminate]. }
  assert (Hx : xv <> []).
  { apply discretize_from_zero; [exact Hd|]. rewrite Q2R_1_2. lra. }
  destruct (@unit_wave_eval src 1 (fun f : R => f) eq_refl eq_refl eq_refl
                            eq_refl Ht Hx) as (w' & Ee & Esp & Edata).
  change (BaseWave._discretize (Wavepacket.space_boundary src)
                               (Wavepacket.dx src)) with xv in Esp, Edata.
  change (BaseWave._discretize (Wavepacket.time_boundary src)
                               (Wavepacket.dt src)) with tv in Edata.
  set (k := length tv) in *.
  set (data := repeat (repeat (repeat (0 + 1) k) 3) 3).
  assert (Hmax : np_max (map Rabs (flat3 data)) = Ok 1).
  { unfold data, flat3. rewrite !concat_repeat_repeat, map_repeat.
    unfold k, tv. rewrite time_axis_small. cbn [Nat.mul Nat.add].
    rewrite np_max_repeat. f_equal.
    replace (0 + 1) with 1 by ring. apply Rabs_R1. }
  assert (En : Membrane.normalizing true data
               = Ok (map (map (map (fun v => v / 1))) data)).
  { unfold Membrane.normalizing. rewrite Hmax. cbn [bind].
    destruct (Rle_dec tiny 1) as [_|Hc]; [reflexivity|].
    exfalso. apply Hc, tiny_le_1. }
  assert (Er : Membrane.run_sources cw_unit interp_first [(src, (0, 0)%Q, dist)]
                 (zeros3 3 3 k)
               = ([(Wavepacket.purge_data w', (0, 0)%Q, dist)], Ok data)).
  { cbn [Membrane.run_sources]. rewrite Ee, Edata, Esp. cbn [bind].
    unfold interp_first.
    rewrite (@map_const_shape _ _ (repeat 1 k) dist 3 3).
    - unfold iadd_3, zeros3.
      rewrite (@bcast_repeat _ _ _ (repeat (repeat 0 k) 3)
                             (repeat (repeat 1 k) 3)
                             (repeat (repeat (0 + 1) k) 3));
        [reflexivity|].
      apply bcast_repeat, bcast_repeat. reflexivity.
    - intros _. rewrite map_repeat, hd_repeat; [reflexivity|].
      apply length_nonzero, Hx.
    - apply (distance_field_shape (0, 0)%Q grid_small). }
  exists (Membrane.with_results
            (Some (map (map (map (fun v => v / 1))) data))
            (Membrane.with_placements
               [(Wavepacket.purge_data w', (0, 0)%Q, dist)] s)),
    (map (map (map (fun v => v / 1))) data).
  split; [|split; [reflexivity|]].
  - unfold Membrane.eval, bindM, gets, lift.
    rewrite (grid_xs Hg), (grid_ys Hg).
    change (length (Membrane.get_time s)) with k.
    change (Membrane._sources s ++ Membrane._reflected_sources s)
      with [(src, (0, 0)%Q, dist)].
    cbn [length]. rewrite Er.
    change (Membrane.normalize (Membrane.with_placements
               [(Wavepacket.purge_data w', (0, 0)%Q, dist)] s)) with true.
    rewrite En. reflexivity.
  - exact (@membrane_normalized_max _ _ _ Hmax tiny_le_1 En).
Qed.

End UnitField.

Lemma eval_normalized_range_witness :
  exists self' nd,
    Membrane.eval cw_unit interp_first membrane_small_source = (self', Ok tt) /\
    Membrane.normalize membrane_small_source = true /\
    Membrane.get_data self' = Some nd /\
    np_max (map Rabs (flat3 nd)) = Ok 1%R /\
    Forall (fun v => (-1 <= v <= 1)%R) (flat3 nd) /\
    forall m, np_max (map Rabs (flat3 nd)) = Ok m -> m = 1%R \/ (m < tiny)%R.
Proof.
  destruct small_source_unit_field as (self' & nd & He & Hd & Hm).
  assert (Hn : Membrane.normalize membrane_small_source = true).
  { destruct (@add_source_same_configuration
                membrane_small _ _ wavepacket_k_id (0, 0)%Q grid_small)
      as [(_ & _ & _ & _ & _ & _ & Hn) _].
    exact Hn. }
  exists self', nd.
  split; [exact He|]. split; [exact Hn|]. split; [exact Hd|].
  split; [exact Hm|].
  exact (@eval_normalized_range cw_unit interp_first _ _ _ He Hn Hd).
Defined.

(** ** Membrane.eval on a grid that is not square *)

(** Adding a field whose two leading axes are swapped raises, unless the
    two have the same length. *)
Lemma iadd_3_transposed (n m k k' : nat) (data other : field3) :
  has_shape3 data n m k -> has_shape3 other m n k' ->
  n <> m -> n <> 0%nat -> m <> 0%nat ->
  iadd_3 data other = Raise ValueError.
Proof.
  intros [Ld Hd] [Lo Ho] Hnm Hn Hm. unfold iadd_3.
  unfold bcast at 1.
  destruct other as [|o1 [|o2 other]].
  - simpl in Lo. congruence.
  - simpl in Lo. subst m.
    destruct data as [|d1 data]; [simpl in Ld; congruence|].
    cbn [mapM].
    inversion Hd as [|? ? [L1 _] _]; subst.
    inversion Ho as [|? ? [L2 _] _]; subst.
    unfold bcast at 1.
    destruct o1 as [|r1 [|r2 o1]]; simpl in L2.
    + congruence.
    + exfalso. apply Hnm. symmetry. exact L2.
    + rewrite L1. cbn [length]. reflexivity.
  - rewrite Ld, Lo.
    destruct (Nat.eqb n m) eqn:E; [|reflexivity].
    apply Nat.eqb_eq in E. contradiction.
Qed.

Section NonSquare.

Variable complex_wave : (R -> R) -> R -> list R -> list R -> cfield2.
Variable interp : field2 -> list R -> field2 -> field3.
Hypothesis complex_wave_shape : complex_wave_contract complex_wave.
Hypothesis interp_shape : interp_contract interp.

(** X17.  When the two axes of the grid differ in
    length, [eval] raises [ValueError] at the first placement and publishes
    nothing, for collaborators of the contracted shapes: the accumulator
    has the shape (nX, nY, nT) while the interpolated field follows the
    distance field, of shape (nY, nX). *)
Theorem eval_nonsquare_raises (self : Membrane.t) (xs ys : list Q)
        (pl : Membrane.placement) (rest : list Membrane.placement) (k : nat) :
  Membrane.xs self = Ok xs -> Membrane.ys self = Ok ys ->
  xs <> [] -> ys <> [] -> length xs <> length ys ->
  Membrane._sources self ++ Membrane._reflected_sources self = pl :: rest ->
  ready (length ys) (length xs) k pl ->
  snd (Membrane.eval complex_wave interp self) = Raise ValueError /\
  Membrane.get_data (fst (Membrane.eval complex_wave interp self))
  = Membrane.get_data self.
Proof.
  intros Ex Ey Hx Hy Hne Hpl Hready.
  destruct pl as [[src p] dist]. destruct Hready as (Ht & Hxv & Hk & Hd).
  destruct (wavepacket_eval_succeeds complex_wave_shape src Ht Hxv)
    as (w1 & stored & Ee & Es & Exv & Hshape).
  unfold Membrane.eval, bindM, gets, lift. rewrite Ex, Ey, Hpl.
  cbn [Membrane.run_sources]. rewrite Ee.
  unfold Wavepacket.get_data, Wavepacket.get_space, Wavepacket.data.
  rewrite Es. cbn [bind]. rewrite Exv.
  rewrite (@iadd_3_transposed (length xs) (length ys)
             (length (Membrane.get_time self)) k).
  - split; reflexivity.
  - apply zeros3_shape.
  - apply interp_shape; [exact Hd|]. rewrite <- Hk.
    apply map_map_shape, Hshape.
  - exact Hne.
  - apply length_nonzero, Hx.
  - apply length_nonzero, Hy.
Qed.

End NonSquare.

Lemma grid_wide :
  grid_ok membrane_wide [-1 # 2; 0 # 2; 1 # 2]%Q
          [-2 # 2; -1 # 2; 0 # 2; 1 # 2; 2 # 2]%Q.
Proof. repeat split; discriminate. Qed.

Lemma eval_nonsquare_raises_witness :
  snd (Membrane.eval cw_ones interp_first membrane_wide_source)
  = Raise ValueError /\
  Membrane.get_data (fst (Membrane.eval cw_ones interp_first
                                        membrane_wide_source))
  = Membrane.get_data membrane_wide_source.
Proof.
  destruct (@registered_transparent membrane_wide _ _ wavepacket_k_id
              (0, 0) grid_wide eq_refl eq_refl eq_refl)
    as (d_min & d_max & Hd & _ & Hzero & _ & E).
  assert (Hw : within_extents [-1 # 2; 0 # 2; 1 # 2]
                              [-2 # 2; -1 # 2; 0 # 2; 1 # 2; 2 # 2] (0, 0)).
  { exists (-1 # 2), (1 # 2), (-2 # 2), (2 # 2). repeat split; discriminate. }
  rewrite (Hzero Hw) in E. clear Hzero d_min.
  unfold membrane_wide_source. rewrite E. cbn [fst].
  set (src := Membrane.bind_source membrane_wide wavepacket_k_id 0 d_max).
  apply (@eval_nonsquare_raises
           cw_ones interp_first cw_ones_contract interp_first_contract _
           [-1 # 2; 0 # 2; 1 # 2]%Q [-2 # 2; -1 # 2; 0 # 2; 1 # 2; 2 # 2]%Q
           (src, (0, 0)%Q, Membrane.distance_field membrane_wide (0, 0)) []
           11%nat); try reflexivity; try discriminate.
  split; [|split; [|split]].
  - change (BaseWave._discretize (Wavepacket.time_boundary src)
                                 (Wavepacket.dt src))
      with (BaseWave._discretize (Q2R 0, Q2R 1) (/ Q2R 10)%R).
    pose proof time_axis_e2e as Hl.
    destruct (BaseWave._discretize (Q2R 0, Q2R 1) (/ Q2R 10)%R);
      [discriminate Hl|discriminate].
  - change (BaseWave._discretize (Wavepacket.space_boundary src)
                                 (Wavepacket.dx src))
      with (BaseWave._discretize (0%R, d_max) (Q2R (1 # 2))).
    apply discretize_from_zero; [exact Hd|]. rewrite Q2R_1_2. lra.
  - exact time_axis_e2e.
  - apply (distance_field_shape (0, 0) grid_wide).
Defined.

(** ** Membrane.eval on a square grid *)

Section SquareGrid.

Variable complex_wave : (R -> R) -> R -> list R -> list R -> cfield2.
Variable interp : field2 -> list R -> field2 -> field3.
Hypothesis complex_wave_shape : complex_wave_contract complex_wave.
Hypothesis interp_shape : interp_contract interp.

(** X18.  On a grid whose two axes have the same
    length, with a time axis that is not empty, placements whose
    wavepackets have axes that are not empty and as many time samples as
    the membrane, and collaborators of the contracted shapes, [eval] does
    not raise; it publishes a field of shape (nX, nY, nT), with every
    value in [[-1, 1]] when the normalisation is on. *)
Theorem eval_square_grid_succeeds (self : Membrane.t) (xs ys : list Q) :
  grid_ok self xs ys -> length xs = length ys ->
  Membrane.get_time self <> [] ->
  Forall (registered self)
         (Membrane._sources self ++ Membrane._reflected_sources self) ->
  exists self' nd,
    Membrane.eval complex_wave interp self = (self', Ok tt) /\
    Membrane.get_data self' = Some nd /\
    has_shape3 nd (length xs) (length ys)
               (length (Membrane.get_time self)) /\
    (Membrane.normalize self = true ->
     Forall (fun v => (-1 <= v <= 1)%R) (flat3 nd)).
Proof.
  intros Hg Hsq Ht Hreg.
  pose proof Hg as (Hx & Hy & _).
  apply (membrane_eval_succeeds complex_wave_shape interp_shape self
                                (grid_xs Hg) (grid_ys Hg));
    try (apply length_nonzero; assumption).
  eapply Forall_impl; [|exact Hreg].
  intros [[src p] dist] (-> & H1 & H2 & H3).
  split; [exact H1|]. split; [exact H2|]. split; [exact H3|].
  pose proof (distance_field_shape p Hg) as Hs.
  rewrite <- Hsq in Hs at 1. rewrite Hsq in Hs at 2. exact Hs.
Qed.

End SquareGrid.

Lemma eval_square_grid_succeeds_witness :
  exists self' nd,
    Membrane.eval cw_ones interp_first membrane_small_source = (self', Ok tt) /\
    Membrane.get_data self' = Some nd /\
    has_shape3 nd (length [-1 # 2; 0 # 2; 1 # 2]%Q)
               (length [-1 # 2; 0 # 2; 1 # 2]%Q)
               (length (Membrane.get_time membrane_small_source)) /\
    (Membrane.normalize membrane_small_source = true ->
     Forall (fun v => (-1 <= v <= 1)%R) (flat3 nd)).
Proof.
  destruct (@registered_transparent membrane_small _ _ wavepacket_k_id
              (0, 0) grid_small eq_refl eq_refl eq_refl)
    as (d_min & d_max & Hd & _ & Hzero & _ & E).
  assert (Hw : within_extents [-1 # 2; 0 # 2; 1 # 2] [-1 # 2; 0 # 2; 1 # 2]
                              (0, 0)).
  { exists (-1 # 2), (1 # 2), (-1 # 2), (1 # 2). repeat split; discriminate. }
  rewrite (Hzero Hw) in E. clear Hzero d_min.
  unfold membrane_small_source. rewrite E. cbn [fst].
  set (src := Membrane.bind_source membrane_small wavepacket_k_id 0 d_max).
  assert (Ht : BaseWave._discretize (Q2R 0, Q2R 1) (/ Q2R 10)%R <> []).
  { pose proof time_axis_e2e as Hl.
    destruct (BaseWave._discretize (Q2R 0, Q2R 1) (/ Q2R 10)%R);
      [discriminate Hl|discriminate]. }
  apply (@eval_square_grid_succeeds
           cw_ones interp_first cw_ones_contract interp_first_contract _
           [-1 # 2; 0 # 2; 1 # 2]%Q [-1 # 2; 0 # 2; 1 # 2]%Q).
  - repeat split; discriminate.
  - reflexivity.
  - exact Ht.
  - repeat constructor.
    + exact Ht.
    + change (BaseWave._discretize (Wavepacket.space_boundary src)
                                   (Wavepacket.dx src))
        with (BaseWave._discretize (0%R, d_max) (Q2R (1 # 2))).
      apply discretize_from_zero; [exact Hd|]. rewrite Q2R_1_2. lra.
Defined.

(** ** Wavepacket.eval: the axes and the errors *)

Section WavepacketAxes.

Variable complex_wave : (R -> R) -> R -> list R -> list R -> cfield2.

(** X20.  With [domain_only] set and axes that
    are not empty, [eval] does not raise: it stores the two axes, moves the
    time and space boundaries onto their first and last samples, and leaves
    the results and everything else as they were. *)
Theorem wavepacket_eval_domain_only (w : Wavepacket.t) :
  let tv := BaseWave._discretize (Wavepacket.time_boundary w)
                                 (Wavepacket.dt w) in
  let xv := BaseWave._discretize (Wavepacket.space_boundary w)
                                 (Wavepacket.dx w) in
  tv <> [] -> xv <> [] ->
  exists t0 t1 x0 x1,
    first tv = Ok t0 /\ last_elt tv = Ok t1 /\
    first xv = Ok x0 /\ last_elt xv = Ok x1 /\
    Wavepacket.eval complex_wave true w
    = (Wavepacket.mk
         (Wavepacket.fs w) (Wavepacket.dx w)
         (Wavepacket._freq_spectrum w) (Wavepacket._disprel w)
         (Wavepacket._envelope_func w) (t0, t1) (x0, x1)
         (Wavepacket.normalize w) tv xv (Wavepacket.complex_data w), Ok tt).
Proof.
  intros tv xv Ht Hx.
  destruct (first_total Ht) as [t0 E0], (last_elt_total Ht) as [t1 E1].
  destruct (first_total Hx) as [x0 E2], (last_elt_total Hx) as [x1 E3].
  exists t0, t1, x0, x1. repeat (split; [assumption|]).
  unfold Wavepacket.eval, bindM, gets, modify, lift.
  cbn [Wavepacket.time_vect Wavepacket.x_vect Wavepacket.with_x_vect
       Wavepacket.with_time_vect Wavepacket.with_time_boundary
       Wavepacket.time_boundary Wavepacket.dx Wavepacket.fs
       Wavepacket.space_boundary Wavepacket._xlim].
  fold tv. rewrite E0, E1.
  cbn [Wavepacket.time_vect Wavepacket.x_vect Wavepacket.with_x_vect
       Wavepacket.with_time_vect Wavepacket.with_time_boundary
       Wavepacket.time_boundary Wavepacket.dx Wavepacket.fs
       Wavepacket.space_boundary Wavepacket._xlim].
  change (BaseWave._discretize (Wavepacket._xlim w) (Wavepacket.dx w))
    with xv.
  rewrite E2, E3. reflexivity.
Qed.

(** X21.  When the time axis comes out empty,
    [eval] raises [IndexError] (with or without [domain_only]) after it has
    overwritten both stored axes; when only the space axis is empty it
    raises [IndexError] after it has also moved the time boundary.  In both
    cases the results are left as they were. *)
Theorem wavepacket_eval_empty_axis (w : Wavepacket.t) (domain_only : bool) :
  let tv := BaseWave._discretize (Wavepacket.time_boundary w)
                                 (Wavepacket.dt w) in
  let xv := BaseWave._discretize (Wavepacket.space_boundary w)
                                 (Wavepacket.dx w) in
  (tv = [] ->
   Wavepacket.eval complex_wave domain_only w
   = (Wavepacket.with_x_vect xv (Wavepacket.with_time_vect [] w),
      Raise IndexError)) /\
  (tv <> [] -> xv = [] ->
   exists t0 t1,
     first tv = Ok t0 /\ last_elt tv = Ok t1 /\
     Wavepacket.eval complex_wave domain_only w
     = (Wavepacket.with_time_boundary
          (t0, t1) (Wavepacket.with_x_vect [] (Wavepacket.with_time_vect tv w)),
        Raise IndexError)).
Proof.
  intros tv xv. split.
  - intro Ht. unfold Wavepacket.eval, bindM, gets, modify, lift.
    cbn [Wavepacket.time_vect Wavepacket.x_vect Wavepacket.with_x_vect
         Wavepacket.with_time_vect Wavepacket.time_boundary Wavepacket.dx
         Wavepacket.fs Wavepacket.space_boundary Wavepacket._xlim].
    fold tv. rewrite Ht. reflexivity.
  - intros Ht Hx.
    destruct (first_total Ht) as [t0 E0], (last_elt_total Ht) as [t1 E1].
    exists t0, t1. split; [exact E0|]. split; [exact E1|].
    unfold Wavepacket.eval, bindM, gets, modify, lift.
    cbn [Wavepacket.time_vect Wavepacket.x_vect Wavepacket.with_x_vect
         Wavepacket.with_time_vect Wavepacket.with_time_boundary
         Wavepacket.time_boundary Wavepacket.dx Wavepacket.fs
         Wavepacket.space_boundary Wavepacket._xlim].
    fold tv. rewrite E0, E1.
    cbn [Wavepacket.time_vect Wavepacket.x_vect Wavepacket.with_x_vect
         Wavepacket.with_time_vect Wavepacket.with_time_boundary
         Wavepacket.time_boundary Wavepacket.dx Wavepacket.fs
         Wavepacket.space_boundary Wavepacket._xlim].
    change (BaseWave._discretize (Wavepacket._xlim w) (Wavepacket.dx w))
      with xv.
    rewrite Hx. reflexivity.
Qed.

End WavepacketAxes.

Lemma wavepacket_eval_domain_only_witness :
  exists t0 t1 x0 x1,
    first (BaseWave._discretize (0, 0) (/ 1))%R = Ok t0 /\
    last_elt (BaseWave._discretize (0, 0) (/ 1))%R = Ok t1 /\
    first (BaseWave._discretize (0, 0) 1)%R = Ok x0 /\
    last_elt (BaseWave._discretize (0, 0) 1)%R = Ok x1 /\
    Wavepacket.eval cw_ones true (wavepacket_point [1%R] None)
    = (Wavepacket.mk 1 1 [1%R] [fun f : R => f] None (t0, t1) (x0, x1) true
                     (BaseWave._discretize (0, 0) (/ 1))%R
                     (BaseWave._discretize (0, 0) 1)%R None, Ok tt).
Proof.
  apply (@wavepacket_eval_domain_only cw_ones (wavepacket_point [1%R] None)).
  - unfold wavepacket_point, Wavepacket.dt.
    cbn [Wavepacket.time_boundary Wavepacket.fs].
    rewrite discretize_point. discriminate.
  - unfold wavepacket_point, Wavepacket.space_boundary.
    cbn [Wavepacket._xlim Wavepacket.dx].
    rewrite discretize_point. discriminate.
Defined.

Lemma wavepacket_eval_empty_axis_witness :
  Wavepacket.eval
    cw_ones false
    (Wavepacket.mk (Q2R 1) 1 [1%R] [fun f : R => f] None
                   (Q2R 1, Q2R 0) (0, 0)%R true [] [] None)
  = (Wavepacket.with_x_vect
       (BaseWave._discretize (0, 0) 1)%R
       (Wavepacket.with_time_vect
          []
          (Wavepacket.mk (Q2R 1) 1 [1%R] [fun f : R => f] None
                         (Q2R 1, Q2R 0) (0, 0)%R true [] [] None)),
     Raise IndexError).
Proof.
  apply (proj1 (@wavepacket_eval_empty_axis
                  cw_ones
                  (Wavepacket.mk (Q2R 1) 1 [1%R] [fun f : R => f] None
                                 (Q2R 1, Q2R 0) (0, 0)%R true
                                 [] [] None) false)).
  exact no_sample_axis.
Defined.

Section WavepacketValues.

Variable complex_wave : (R -> R) -> R -> list R -> list R -> cfield2.

Local Open Scope R_scope.

Lemma accumulate_without_dispersion (w : Wavepacket.t) (data0 : cfield2) :
  Wavepacket._disprel w = [] ->
  Wavepacket.accumulate complex_wave w data0 = Ok data0.
Proof.
  intro H. unfold Wavepacket.accumulate. rewrite H.
  induction (Wavepacket._freq_spectrum w) as [|f l IH]; simpl;
    [reflexivity|exact IH].
Qed.

(** X23.  A wavepacket whose dispersion was
    set to [None] evaluates without an error on axes that are not empty,
    whatever its spectrum: no term is ever computed, and the stored field is
    all zeros. *)
Theorem wavepacket_without_dispersion (store_first : bool)
        (w : Wavepacket.t) :
  let tv := BaseWave._discretize (Wavepacket.time_boundary w)
                                 (Wavepacket.dt w) in
  let xv := BaseWave._discretize (Wavepacket.space_boundary w)
                                 (Wavepacket.dx w) in
  tv <> [] -> xv <> [] ->
  exists w0 w1 stored,
    Wavepacket.set_dispersion store_first PyNone w = (w0, Ok tt) /\
    Wavepacket.eval complex_wave false w0 = (w1, Ok tt) /\
    Wavepacket.complex_data w1 = Some stored /\
    has_shape2 stored (length tv) (length xv) /\
    all_zero stored.
Proof.
  intros tv xv Ht Hx.
  destruct (first_total Ht) as [t0 E0], (last_elt_total Ht) as [t1 E1].
  destruct (first_total Hx) as [x0 E2], (last_elt_total Hx) as [x1 E3].
  exists (Wavepacket.with_disprel [] w).
  assert (En : Wavepacket.normalizing (Wavepacket.normalize w)
                                      (zeros2 (length tv) (length xv))
               = Ok (zeros2 (length tv) (length xv))).
  { unfold Wavepacket.normalizing. destruct (Wavepacket.normalize w);
      [|reflexivity].
    rewrite zeros_max_abs by (apply length_nonzero; assumption).
    cbn [bind]. destruct (Rle_dec tiny 0) as [Hc|_]; [|reflexivity].
    pose proof tiny_pos. lra. }
  exists (Wavepacket.with_results
            (Some (Wavepacket.apply_envelope
                     (Wavepacket._envelope_func w) xv
                     (zeros2 (length tv) (length xv))))
            (Wavepacket.mk
               (Wavepacket.fs w) (Wavepacket.dx w)
               (Wavepacket._freq_spectrum w) []
               (Wavepacket._envelope_func w) (t0, t1) (x0, x1)
               (Wavepacket.normalize w) tv xv (Wavepacket.complex_data w))).
  eexists. split; [reflexivity|]. split; [|split; [reflexivity|]].
  - apply wavepacket_eval_ok.
    exists t0, t1, x0, x1, (zeros2 (length tv) (length xv)),
      (zeros2 (length tv) (length xv)).
    cbn [Wavepacket.with_disprel Wavepacket.time_boundary Wavepacket.fs
         Wavepacket.dx Wavepacket._xlim Wavepacket.normalize
         Wavepacket._envelope_func Wavepacket._freq_spectrum
         Wavepacket._disprel Wavepacket.complex_data].
    unfold Wavepacket.space_boundary, Wavepacket.dt.
    cbn [Wavepacket.with_disprel Wavepacket.time_boundary Wavepacket.fs
         Wavepacket.dx Wavepacket._xlim].
    repeat (split; [assumption|]).
    split; [apply accumulate_without_dispersion; reflexivity|].
    split; [exact En|reflexivity].
  - split.
    + apply apply_envelope_shape. apply zeros2_shape.
    + apply apply_envelope_zeros.
Qed.

End WavepacketValues.

Lemma wavepacket_without_dispersion_witness :
  exists w0 w1 stored,
    Wavepacket.set_dispersion false PyNone (wavepacket_point [1%R] None)
    = (w0, Ok tt) /\
    Wavepacket.eval cw_ones false w0 = (w1, Ok tt) /\
    Wavepacket.complex_data w1 = Some stored /\
    has_shape2 stored
               (length (BaseWave._discretize (0, 0) (/ 1))%R)
               (length (BaseWave._discretize (0, 0) 1)%R) /\
    all_zero stored.
Proof.
  apply (@wavepacket_without_dispersion cw_ones false
                                        (wavepacket_point [1%R] None)).
  - unfold wavepacket_point, Wavepacket.dt.
    cbn [Wavepacket.time_boundary Wavepacket.fs].
    rewrite discretize_point. discriminate.
  - unfold wavepacket_point, Wavepacket.space_boundary.
    cbn [Wavepacket._xlim Wavepacket.dx].
    rewrite discretize_point. discriminate.
Defined.

Section WavepacketResult.

Variable complex_wave : (R -> R) -> R -> list R -> list R -> cfield2.

(** X24.  With axes that are not empty and terms of
    the contracted shape, [eval] does not raise, and the displacement [data]
    has one row per sample of the stored time axis and one column per sample
    of the stored space axis. *)
Theorem wavepacket_eval_shape (w : Wavepacket.t) :
  complex_wave_contract complex_wave ->
  let tv := BaseWave._discretize (Wavepacket.time_boundary w)
                                 (Wavepacket.dt w) in
  let xv := BaseWave._discretize (Wavepacket.space_boundary w)
                                 (Wavepacket.dx w) in
  tv <> [] -> xv <> [] ->
  exists w1 d,
    Wavepacket.eval complex_wave false w = (w1, Ok tt) /\
    Wavepacket.data w1 = Some d /\
    Wavepacket.time_vect w1 = tv /\ Wavepacket.x_vect w1 = xv /\
    has_shape2 d (length tv) (length xv).
Proof.
  intros Hcw tv xv Ht Hx.
  destruct (wavepacket_eval_succeeds Hcw w Ht Hx)
    as (w1 & stored & Ee & Es & Exv & Hshape).
  exists w1, (map (map (fun z : C => (- snd z)%R)) stored).
  split; [exact Ee|].
  split; [unfold Wavepacket.data; rewrite Es; reflexivity|].
  split.
  - apply wavepacket_eval_ok in Ee.
    destruct Ee as (t0 & t1 & x0 & x1 & acc & nd & _ & _ & _ & _ & _ & _ & ->).
    reflexivity.
  - split; [exact Exv|]. apply map_map_shape, Hshape.
Qed.

(** X25.  After an [eval] that succeeded, a
    second [eval] of the same wavepacket succeeds and changes nothing: the
    boundaries were moved onto the first and last samples, which
    reproduce the two axes (for the discretizer the specification
    describes), and the same field is stored again. *)
Theorem wavepacket_eval_idempotent (w w1 : Wavepacket.t) :
  Wavepacket.eval complex_wave false w = (w1, Ok tt) ->
  Wavepacket.eval complex_wave false w1 = (w1, Ok tt).
Proof.
  intro H. apply wavepacket_eval_ok in H.
  destruct H as (t0 & t1 & x0 & x1 & acc & nd & E0 & E1 & E2 & E3 & Ea & En & ->).
  apply wavepacket_eval_ok.
  exists t0, t1, x0, x1, acc, nd.
  unfold Wavepacket.space_boundary, Wavepacket.dt in *.
  cbn [Wavepacket.with_results Wavepacket.time_boundary Wavepacket.fs
       Wavepacket.dx Wavepacket._xlim Wavepacket.normalize
       Wavepacket._envelope_func Wavepacket._freq_spectrum
       Wavepacket._disprel Wavepacket.complex_data] in *.
  rewrite (discretize_idempotent _ _ E0 E1).
  rewrite (discretize_idempotent _ _ E2 E3).
  repeat split; auto.
Qed.

End WavepacketResult.

Lemma wavepacket_eval_shape_witness :
  exists w1 d,
    Wavepacket.eval cw_ones false (wavepacket_point [1%R] None) = (w1, Ok tt) /\
    Wavepacket.data w1 = Some d /\
    Wavepacket.time_vect w1 = (BaseWave._discretize (0, 0) (/ 1))%R /\
    Wavepacket.x_vect w1 = (BaseWave._discretize (0, 0) 1)%R /\
    has_shape2 d (length (BaseWave._discretize (0, 0) (/ 1))%R)
               (length (BaseWave._discretize (0, 0) 1)%R).
Proof.
  apply (@wavepacket_eval_shape cw_ones (wavepacket_point [1%R] None)
                                cw_ones_contract).
  - unfold wavepacket_point, Wavepacket.dt.
    cbn [Wavepacket.time_boundary Wavepacket.fs].
    rewrite discretize_point. discriminate.
  - unfold wavepacket_point, Wavepacket.space_boundary.
    cbn [Wavepacket._xlim Wavepacket.dx].
    rewrite discretize_point. discriminate.
Defined.

Lemma wavepacket_eval_idempotent_witness :
  exists w1,
    Wavepacket.eval cw_ones false (wavepacket_point [1%R] None) = (w1, Ok tt) /\
    Wavepacket.eval cw_ones false w1 = (w1, Ok tt).
Proof.
  destruct (point_eval None) as (w1 & He & _).
  exists w1. split; [exact He|].
  exact (@wavepacket_eval_idempotent cw_ones _ w1 He).
Defined.

(** ** asdl: the last entry of a collection, and saving *)

Section Collection.

Variable A : Type.

Lemma last_elt_snoc (l : list A) (x : A) : last_elt (l ++ [x]) = Ok x.
Proof. unfold last_elt. rewrite rev_app_distr. reflexivity. Qed.

Lemma set_last_snoc (value : A) (l : list A) (x : A) :
  Asdl.set_last value (l ++ [x]) = (l ++ [value], Ok tt).
Proof.
  unfold Asdl.set_last.
  destruct (l ++ [x]) as [|a r] eqn:E.
  - destruct l; discriminate E.
  - rewrite <- E, removelast_last. reflexivity.
Qed.

(** X26.  [last] raises [IndexError] exactly on the empty
    collection, and otherwise returns the entry at the end, whatever comes
    before it. *)
Theorem collection_last (self : list A) :
  (Asdl.last self = Raise IndexError <-> self = []) /\
  (forall l x, self = l ++ [x] -> Asdl.last self = Ok x) /\
  (forall x, Asdl.last self = Ok x -> exists l, self = l ++ [x]).
Proof.
  unfold Asdl.last. split; [|split].
  - split; [|intros ->; reflexivity].
    intro H. destruct self as [|a self]; [reflexivity|].
    destruct (@exists_last _ (a :: self)) as (l & x & E); [discriminate|].
    rewrite E, last_elt_snoc in H. discriminate H.
  - intros l x ->. apply last_elt_snoc.
  - intros x H. destruct self as [|a self]; [discriminate H|].
    destruct (@exists_last _ (a :: self)) as (l & y & E); [discriminate|].
    rewrite E, last_elt_snoc in H. injection H as <-. exists l. exact E.
Qed.

(** X27.  Assigning [last] on a collection that is not
    empty replaces the entry at the end and nothing else: the length and
    all other entries are kept, and [last] then returns the value
    assigned.  On the empty collection it raises [IndexError] and the
    collection stays empty. *)
Theorem collection_set_last (value : A) (self : list A) :
  (self = [] -> Asdl.set_last value self = ([], Raise IndexError)) /\
  (self <> [] ->
   exists self',
     Asdl.set_last value self = (self', Ok tt) /\
     Asdl.last self' = Ok value /\
     length self' = length self /\
     removelast self' = removelast self).
Proof.
  split; [intros ->; reflexivity|].
  intro H. destruct (exists_last H) as (l & x & ->).
  exists (l ++ [value]). split; [apply set_last_snoc|].
  split; [apply last_elt_snoc|].
  split; [rewrite !length_app; reflexivity|].
  rewrite !removelast_last. reflexivity.
Qed.

(** X28.  Assigning to [last] the value [last]
    returns leaves the collection as it is. *)
Theorem collection_last_write_back (self : list A) (x : A) :
  Asdl.last self = Ok x -> Asdl.set_last x self = (self, Ok tt).
Proof.
  intro H. destruct self as [|a self]; [discriminate H|].
  destruct (@exists_last _ (a :: self)) as (l & y & E); [discriminate|].
  rewrite E in *. unfold Asdl.last in H. rewrite last_elt_snoc in H.
  injection H as <-. apply set_last_snoc.
Qed.

End Collection.

Lemma collection_last_witness :
  Asdl.last [1%Z; 2%Z; 3%Z] = Ok 3%Z.
Proof.
  apply (proj1 (proj2 (collection_last [1%Z; 2%Z; 3%Z])) [1%Z; 2%Z] 3%Z).
  reflexivity.
Defined.

Lemma collection_set_last_witness :
  exists self',
    Asdl.set_last 7%Z [1%Z; 2%Z; 3%Z] = (self', Ok tt) /\
    Asdl.last self' = Ok 7%Z /\
    length self' = length [1%Z; 2%Z; 3%Z] /\
    removelast self' = removelast [1%Z; 2%Z; 3%Z].
Proof.
  apply (proj2 (collection_set_last 7%Z [1%Z; 2%Z; 3%Z])). discriminate.
Defined.

Lemma collection_last_write_back_witness :
  Asdl.set_last 3%Z [1%Z; 2%Z; 3%Z] = ([1%Z; 2%Z; 3%Z], Ok tt).
Proof.
  apply (@collection_last_write_back Z [1%Z; 2%Z; 3%Z] 3%Z). reflexivity.
Defined.

Section Persistence.

Variables obj world os_exn : Type.
Variable os_stat : String.string -> world -> Asdl.stat_outcome os_exn.
Variable write_pickle : obj -> String.string -> world -> world * option os_exn.

(** X30.  With [overwrite] off, [save] under a name that [os.stat] finds
    raises [FileExistsError] before it opens the file: nothing is written,
    whatever the object and whatever the file holds. *)
Theorem save_refuses_existing_file (self : obj) (file_name : String.string)
        (w : world) :
  os_stat file_name w = Asdl.StatReturns ->
  Asdl.save os_stat write_pickle self file_name false w
  = (w, inr Asdl.FileExistsError).
Proof. intro H. unfold Asdl.save. rewrite H. reflexivity. Qed.

End Persistence.

Lemma save_refuses_existing_file_witness :
  Asdl.save listed_stat listed_write 5%Z "data.bin" false ["data.bin"]
  = (["data.bin"], inr Asdl.FileExistsError).
Proof.
  apply (@save_refuses_existing_file
           Z (list String.string) Empty_set listed_stat listed_write
           5%Z "data.bin" ["data.bin"]).
  reflexivity.
Defined.
